(** * ClairS paired candidate discovery and tensor construction

    A shallow embedding of [src/create_pair_tensor.py] and
    [src/select_hetero_snp_for_phasing.py].  Python integers are [Z] (or
    [nat] for lengths and indices), sets are [gset], position-keyed
    dictionaries are [gmap], insertion-ordered dictionaries are association
    lists, and generators are the lists of the values they yield. *)

From Stdlib Require Import ZArith String Ascii List Bool Lia Sorted QArith DecimalString.
From stdpp Require Import gmap strings list fin_maps sorting.

#[local] Open Scope Z_scope.

(** ** Paired merge: [heapq_merge_generator_from] *)

Module Merge.

(** A generator item [(pos, is_tumor)]. *)
Definition event : Type := Z * bool.

(** Python's tuple order on [(int, bool)]: lexicographic, [False < True]. *)
Definition event_le (a b : event) : Prop :=
  a.1 < b.1 ∨ (a.1 = b.1 ∧ (a.2 = true → b.2 = true)).

#[global] Instance event_le_dec (a b : event) : Decision (event_le a b).
Proof. unfold event_le. apply _. Defined.

(** [heapq.merge(normal, tumor)]: the smaller head goes first; on equal
    heads the first iterable wins. *)
Definition heapq_merge (xs ys : list event) : list event :=
  list_merge event_le xs ys.

(** The two local sets of [heapq_merge_generator_from]. *)
Record state : Type := mkState {
  normal_candidates_set : gset Z;
  tumor_candidates_set : gset Z
}.

Definition init : state := mkState ∅ ∅.

(** One iteration of the [for pos, is_tumor in heapq.merge(...)] loop: the
    new state and the value yielded, if any. *)
Definition merge_step (skip_if_normal_empty : bool) (st : state) (ev : event)
  : state * option Z :=
  let '(pos, is_tumor) := ev in
  if is_tumor then
    if bool_decide (pos ∈ normal_candidates_set st) || negb skip_if_normal_empty
    then (mkState (normal_candidates_set st ∖ {[pos]}) (tumor_candidates_set st),
          Some pos)
    else (st, None)
  else (mkState ({[pos]} ∪ normal_candidates_set st) (tumor_candidates_set st),
        None).

Fixpoint merge_loop (skip : bool) (st : state) (evs : list event)
  : state * list Z :=
  match evs with
  | [] => (st, [])
  | ev :: evs' =>
      let '(st1, y) := merge_step skip st ev in
      let '(st2, ys) := merge_loop skip st1 evs' in
      (st2, match y with Some p => p :: ys | None => ys end)
  end.

(** The trailing [for pos in tumor_candidates_set] loop. *)
Definition trailing (st : state) : list Z :=
  filter (λ pos, pos ∈ normal_candidates_set st)
         (elements (tumor_candidates_set st)).

Definition heapq_merge_generator_from
    (normal_bam_pileup_generator tumor_bam_pileup_generator : list event)
    (skip_if_normal_empty : bool) : list Z :=
  let '(st, ys) :=
    merge_loop skip_if_normal_empty init
      (heapq_merge normal_bam_pileup_generator tumor_bam_pileup_generator) in
  ys ++ trailing st.

End Merge.

(** ** Python values and exceptions *)

Module Py.

(** The exceptions the modelled code can raise. *)
Inductive exn : Type :=
| IndexError
| KeyError
| ValueError
| TypeError
| AttributeError.

(** A computation that returns or raises. *)
Inductive result (A : Type) : Type :=
| Ok (a : A)
| Raise (e : exn).
Arguments Ok {A} a.
Arguments Raise {A} e.

Definition bind {A B : Type} (m : result A) (k : A → result B) : result B :=
  match m with
  | Ok a => k a
  | Raise e => Raise e
  end.

Definition of_option {A : Type} (e : exn) (o : option A) : result A :=
  match o with
  | Some a => Ok a
  | None => Raise e
  end.

Definition is_ok {A : Type} (m : result A) : bool :=
  match m with Ok _ => true | Raise _ => false end.

(** [for x in l: acc = f(acc, x)], stopping at the first exception. *)
Fixpoint foldM {A S : Type} (f : S → A → result S) (s : S) (l : list A)
  : result S :=
  match l with
  | [] => Ok s
  | x :: l' => bind (f s x) (λ s', foldM f s' l')
  end.

(** [range(a, b)] over the integers. *)
Definition range (a b : Z) : list Z :=
  map (λ i : nat, a + Z.of_nat i) (seq 0 (Z.to_nat (b - a))).

(** ASCII [str.upper] on one character. *)
Definition upper_char (c : ascii) : ascii :=
  let n := nat_of_ascii c in
  if (97 <=? n)%nat && (n <=? 122)%nat then ascii_of_nat (n - 32) else c.

Fixpoint upper (s : string) : string :=
  match s with
  | EmptyString => EmptyString
  | String c s' => String (upper_char c) (upper s')
  end.

(** [c.isdigit()] and [int(c)] for one ASCII character. *)
Definition isdigit (c : ascii) : bool :=
  let n := nat_of_ascii c in (48 <=? n)%nat && (n <=? 57)%nat.

Definition int_of_digit (c : ascii) : nat := (nat_of_ascii c - 48)%nat.

(** [c in s] for a one-character [c]. *)
Fixpoint char_in (c : ascii) (s : string) : bool :=
  match s with
  | EmptyString => false
  | String d s' => Ascii.eqb c d || char_in c s'
  end.

(** Whether every character of [s] passes the test [f]. *)
Fixpoint string_forall (f : ascii → bool) (s : string) : bool :=
  match s with
  | EmptyString => true
  | String c s' => f c && string_forall f s'
  end.

(** [s[i]] for a non-negative index. *)
Definition get (s : string) (i : nat) : result ascii :=
  of_option IndexError (String.get i s).

(** [s[i]] for any integer index: negative indices count from the end. *)
Definition index (s : string) (i : Z) : result ascii :=
  let n := Z.of_nat (String.length s) in
  if (0 <=? i) && (i <? n) then get s (Z.to_nat i)
  else if (i <? 0) && (0 <=? i + n) then get s (Z.to_nat (i + n))
  else Raise IndexError.

(** [s[a:b]] for non-negative bounds. *)
Definition slice_nat (s : string) (a b : nat) : string :=
  String.substring a (b - a) s.

(** A slice bound brought into [0, len]. *)
Definition clamp (n i : Z) : Z :=
  let j := if i <? 0 then i + n else i in
  Z.max 0 (Z.min n j).

(** [s[a:b]] for any integer bounds. *)
Definition slice (s : string) (a b : Z) : string :=
  let n := Z.of_nat (String.length s) in
  let a' := clamp n a in
  let b' := clamp n b in
  slice_nat s (Z.to_nat a') (Z.to_nat b').

(** [s.split(sep)] for a one-character separator: [cur] holds the field
    being read, reversed. *)
Fixpoint split_aux (sep : ascii) (s : string) (cur : list ascii) : list string :=
  match s with
  | EmptyString => [string_of_list_ascii (rev cur)]
  | String c s' =>
      if Ascii.eqb c sep then string_of_list_ascii (rev cur) :: split_aux sep s' []
      else split_aux sep s' (c :: cur)
  end.

Definition split (sep : ascii) (s : string) : list string := split_aux sep s [].

(** [sep.join(l)]. *)
Fixpoint join (sep : string) (l : list string) : string :=
  match l with
  | [] => EmptyString
  | [x] => x
  | x :: l' => (x ++ sep ++ join sep l')%string
  end.

(** [str(n)] for an integer. *)
Definition str (n : Z) : string := DecimalString.NilZero.string_of_int (Z.to_int n).

(** [zip] of four lists. *)
Fixpoint zip4 {A B C D : Type} (la : list A) (lb : list B) (lc : list C)
    (ld : list D) : list (A * B * C * D) :=
  match la, lb, lc, ld with
  | a :: la', b :: lb', c :: lc', d :: ld' => (a, b, c, d) :: zip4 la' lb' lc' ld'
  | _, _, _, _ => []
  end.

(** An insertion-ordered [dict] as an association list: a key keeps the
    place of its first insertion. *)
Section OrderedDict.
Context {K V : Type} `{EqDecision K}.

Fixpoint dict_get (d : list (K * V)) (k : K) : option V :=
  match d with
  | [] => None
  | (k', v) :: d' => if decide (k' = k) then Some v else dict_get d' k
  end.

Fixpoint dict_set (d : list (K * V)) (k : K) (v : V) : list (K * V) :=
  match d with
  | [] => [(k, v)]
  | (k', v') :: d' =>
      if decide (k' = k) then (k, v) :: d' else (k', v') :: dict_set d' k v
  end.

Definition dict_mem (d : list (K * V)) (k : K) : bool :=
  match dict_get d k with Some _ => true | None => false end.
End OrderedDict.

(** [d[k] += n] on a [defaultdict(int)]. *)
Definition dict_add {K : Type} `{EqDecision K} (d : list (K * Z)) (k : K) (n : Z)
  : list (K * Z) :=
  dict_set d k (default 0 (dict_get d k) + n).

(** The sum of the counts of the keys that satisfy [f]. *)
Fixpoint dict_sum {K : Type} (f : K → bool) (d : list (K * Z)) : Z :=
  match d with
  | [] => 0
  | (k, n) :: d' => (if f k then n else 0) + dict_sum f d'
  end.

(** [list(OrderedDict.fromkeys(l))]: first occurrences, in order. *)
Fixpoint fromkeys_aux {K : Type} `{EqDecision K} (seen l : list K) : list K :=
  match l with
  | [] => []
  | x :: l' =>
      if bool_decide (x ∈ seen) then fromkeys_aux seen l'
      else x :: fromkeys_aux (x :: seen) l'
  end.

Definition fromkeys {K : Type} `{EqDecision K} (l : list K) : list K :=
  fromkeys_aux [] l.

End Py.

#[global] Instance result_ret : MRet Py.result := @Py.Ok.
#[global] Instance result_bind : MBind Py.result := λ A B k m, Py.bind m k.

(** ** Floats, configuration and imported tables *)

(** The float operations the code uses.  Python's [float] is IEEE binary64;
    the embedding is generic in the carrier, so that nothing proved below
    depends on how a quotient is rounded. *)
Class PyFloat (F : Type) : Type := {
  fzero : F;                    (* 0.0 *)
  fone : F;                     (* 1.0 *)
  fdiv_int : Z → Z → F;         (* float(a) / b *)
  fgeb : F → F → bool;          (* x >= y *)
  fltb : F → F → bool;          (* x < y *)
  fpos : F → bool;              (* x > 0 *)
  int_geb : Z → F → bool;       (* n >= x, n an int *)
  fmul_trunc : F → Z → Z        (* int(x * n), n an int *)
}.

(** The one arithmetic fact the allele-frequency gate relies on: a zero
    count never reaches a positive threshold. *)
Class PyFloatLaws (F : Type) `{PyFloat F} : Prop := {
  fgeb_zero_pos : ∀ (d : Z) (t : F),
    0 < d → fpos t = true → fgeb (fdiv_int 0 d) t = false
}.

(** Exact rationals as one instance. *)
Definition Qtrunc (q : Q) : Z := Z.quot (Qnum q) (Z.pos (Qden q)).

#[global] Instance PyFloat_Q : PyFloat Q := {
  fzero := 0%Q;
  fone := 1%Q;
  fdiv_int a b := (inject_Z a / inject_Z b)%Q;
  fgeb x y := Qle_bool y x;
  fltb x y := negb (Qle_bool y x);
  fpos x := negb (Qle_bool x 0);
  int_geb n x := Qle_bool x (inject_Z n);
  fmul_trunc x n := Qtrunc (x * inject_Z n)
}.

(** [shared/param.py] is not part of the sources at hand: its constants are
    taken as a record. *)
Record param (F : Type) : Type := mkParam {
  no_of_positions : Z;
  flankingBaseNum : Z;
  channel_size : Z;
  extend_bp : Z;
  min_af : F;
  min_af_dict : string → option F;
  ont_input_shape : Z * Z * Z;
  input_shape : Z * Z * Z;
  tumor_matrix_depth_dict : string → option Z;
  normal_matrix_depth_dict : string → option Z
}.
Arguments no_of_positions {F} _.
Arguments flankingBaseNum {F} _.
Arguments channel_size {F} _.
Arguments extend_bp {F} _.
Arguments min_af {F} _.
Arguments min_af_dict {F} _ _.
Arguments ont_input_shape {F} _.
Arguments input_shape {F} _.
Arguments tumor_matrix_depth_dict {F} _ _.
Arguments normal_matrix_depth_dict {F} _ _.

(** The names imported from [src/create_tensor.py], which is not part of the
    sources at hand either: dictionaries are partial functions, a missing
    key raises [KeyError]. *)
Record create_tensor : Type := mkCreateTensor {
  NORMAL_HAP_TYPE : Z → option Z;
  TUMOR_HAP_TYPE : Z → option Z;
  ACGT_NUM : ascii → option Z;
  STRAND_0 : Z;
  STRAND_1 : Z;
  normalize_bq : Z → string → Z;
  normalize_mq : Z → Z
}.

(** ** Pileup decoding: [decode_pileup_bases] *)

Module Decode.

(** An element [[base, indel]] of [base_list]: [base] is the one character
    read from the pileup string. *)
Definition base_info : Type := ascii * string.

(** The inner [while True] loop that reads the length of an indel.  [rest]
    is [pileup_bases[base_idx:]]; reading past the end raises. *)
Fixpoint read_advance (rest : string) (base_idx advance : nat)
  : Py.result (nat * nat) :=
  match rest with
  | EmptyString => Py.Raise Py.IndexError
  | String num rest' =>
      if Py.isdigit num
      then read_advance rest' (S base_idx) (advance * 10 + Py.int_of_digit num)
      else Py.Ok (base_idx, advance)
  end.

(** [base_list[-1][1] = indel]. *)
Definition set_last_indel (base_list : list base_info) (indel : string)
  : Py.result (list base_info) :=
  match reverse base_list with
  | [] => Py.Raise Py.IndexError
  | (b, _) :: l => Py.Ok (reverse ((b, indel) :: l))
  end.

(** [pileup_bases[i:]]. *)
Definition suffix (s : string) (i : nat) : string :=
  Py.slice_nat s i (String.length s).

(** The outer [while base_idx < len(pileup_bases)] loop.  Every iteration
    moves [base_idx] forward, so [len(pileup_bases)] iterations are enough
    ([parse_loop_fuel] below). *)
Fixpoint parse_loop (fuel : nat) (pileup_bases : string) (base_idx : nat)
    (base_list : list base_info) : Py.result (list base_info) :=
  match fuel with
  | O => Py.Ok base_list
  | S fuel' =>
      if (base_idx <? String.length pileup_bases)%nat then
        base ← Py.get pileup_bases base_idx;
        if Ascii.eqb base "+" || Ascii.eqb base "-" then
          let base_idx := (base_idx + 1)%nat in
          '(base_idx, advance) ← read_advance (suffix pileup_bases base_idx) base_idx 0;
          base_list ← set_last_indel base_list
            (String base (Py.slice_nat pileup_bases base_idx (base_idx + advance)));
          let base_idx := (base_idx + advance - 1)%nat in
          parse_loop fuel' pileup_bases (base_idx + 1) base_list
        else if Py.char_in base "ACGTNacgtn#*" then
          parse_loop fuel' pileup_bases (base_idx + 1) (base_list ++ [(base, EmptyString)])
        else if Ascii.eqb base "^" then
          parse_loop fuel' pileup_bases (base_idx + 1 + 1) base_list
        else
          parse_loop fuel' pileup_bases (base_idx + 1) base_list
      else Py.Ok base_list
  end.

Definition parse_bases (pileup_bases : string) : Py.result (list base_info) :=
  parse_loop (String.length pileup_bases) pileup_bases 0 [].

(** The parse of [pileup_bases] from its first character on, with
    [base_list] as read so far. *)
Definition parse_from (pileup_bases : string) (base_list : list base_info)
  : Py.result (list base_info) :=
  parse_loop (String.length pileup_bases) pileup_bases 0 base_list.

(** The number a run of digits stands for, as the inner loop adds it up
    ([advance = advance * 10 + int(num)]). *)
Fixpoint digits_value (advance : nat) (digits : string) : nat :=
  match digits with
  | EmptyString => advance
  | String num rest => digits_value (advance * 10 + Py.int_of_digit num) rest
  end.

(** One read of a pileup column as the decoder expects it: an optional
    start-of-read mark [^] with the mapping-quality character that follows
    it, the base, an optional indel (sign, length digits, sequence) and an
    optional end-of-read mark [$]. *)
Record column_read : Type := mkColumnRead {
  cr_start : option ascii;
  cr_base : ascii;
  cr_indel : option (ascii * string * string);
  cr_end : bool
}.

(** The text of one read in a pileup column. *)
Definition write_read (r : column_read) : string :=
  ((match cr_start r with
    | Some q => String "^" (String q EmptyString)
    | None => EmptyString
    end)
   ++ String (cr_base r)
        ((match cr_indel r with
          | Some (sign, digits, seq) => String sign (digits ++ seq)
          | None => EmptyString
          end)
         ++ (if cr_end r then "$" else EmptyString)))%string.

Definition write_column (rs : list column_read) : string :=
  fold_right (λ r s, (write_read r ++ s)%string) EmptyString rs.

(** The element of [base_list] a read stands for. *)
Definition decoded (r : column_read) : base_info :=
  (cr_base r,
   match cr_indel r with
   | Some (sign, _, seq) => String sign seq
   | None => EmptyString
   end).

(** A read is well formed when its base is one of [ACGTNacgtn#*] and its
    indel, if any, has a sign, a run of digits that stands for the length
    of the sequence, and a sequence that starts with a character other
    than a digit. *)
Definition well_formed (r : column_read) : Prop :=
  Py.char_in (cr_base r) "ACGTNacgtn#*" = true
  ∧ match cr_indel r with
    | Some (sign, digits, seq) =>
        (sign = "+"%char ∨ sign = "-"%char)
        ∧ Py.string_forall Py.isdigit digits = true
        ∧ digits_value 0 digits = String.length seq
        ∧ ∃ c seq', seq = String c seq' ∧ Py.isdigit c = false
    | None => True
    end.

(** [Counter([''.join(item) for item in base_list])].  The joined key is
    kept as the pair it comes from: [key[0]] is the base and [key[1:]] the
    indel, and two keys are equal exactly when the pairs are. *)
Definition Counter (base_list : list base_info) : list (base_info * Z) :=
  fold_left (λ d key, Py.dict_add d key 1) base_list [].

(** [key[1]] when [len(key) > 1]. *)
Definition key1 (key : base_info) : option ascii :=
  match key.2 with
  | EmptyString => None
  | String c _ => Some c
  end.

(** One iteration of [for key, count in base_counter.items()]. *)
Definition count_step (st : list (ascii * Z) * Z) (kc : base_info * Z)
  : list (ascii * Z) * Z :=
  let '(pileup_dict, depth) := st in
  let '(key, count) := kc in
  let '(pileup_dict, depth) :=
    if Py.char_in (Py.upper_char key.1) "ACGT"
    then (Py.dict_add pileup_dict (Py.upper_char key.1) count, depth + count)
    else if Py.char_in key.1 "#*" then (pileup_dict, depth + count)
    else (pileup_dict, depth) in
  match key1 key with
  | Some "+"%char => (Py.dict_add pileup_dict "I"%char count, depth)
  | Some "-"%char => (Py.dict_add pileup_dict "D"%char count, depth)
  | _ => (pileup_dict, depth)
  end.

Definition count_bases (base_list : list base_info) : list (ascii * Z) * Z :=
  fold_left count_step (Counter base_list) ([], 0).

(** [sorted(items, key=lambda x: x[1], reverse=True)]: stable, largest count
    first. *)
Fixpoint insert_desc (x : ascii * Z) (l : list (ascii * Z)) : list (ascii * Z) :=
  match l with
  | [] => [x]
  | y :: l' => if x.2 <? y.2 then y :: insert_desc x l' else x :: y :: l'
  end.

Fixpoint sorted_desc (l : list (ascii * Z)) : list (ascii * Z) :=
  match l with
  | [] => []
  | x :: l' => insert_desc x (sorted_desc l')
  end.

(** The counts in the words of the specification: the number of reads of
    a decoded line that satisfy a test. *)
Definition reads_with (f : base_info → bool) (base_list : list base_info) : Z :=
  Z.of_nat (length (List.filter f base_list)).

(** Reads whose base, uppercased, is [b]. *)
Definition is_base (b : ascii) (bi : base_info) : bool :=
  Ascii.eqb (Py.upper_char bi.1) b.

(** Reads with an indel that starts with [sign]. *)
Definition has_indel (sign : ascii) (bi : base_info) : bool :=
  match key1 bi with
  | Some c => Ascii.eqb c sign
  | None => false
  end.

(** Reads that count for the depth: base in [{A,C,G,T}] after uppercasing,
    or marked ['#'] or ['*']. *)
Definition in_depth (bi : base_info) : bool :=
  Py.char_in (Py.upper_char bi.1) "ACGT" || Py.char_in bi.1 "#*".

(** The test under which a counter key adds to the entry [b] of
    [pileup_dict]. *)
Definition adds_to (b : ascii) (key : base_info) : bool :=
  (Ascii.eqb (Py.upper_char key.1) b && Py.char_in b "ACGT")
  || (Ascii.eqb b "I" && has_indel "+" key)
  || (Ascii.eqb b "D" && has_indel "-" key).


Definition spec_count (b : ascii) (base_list : list base_info) : Z :=
  reads_with (is_base b) base_list.
Definition spec_ins_count (base_list : list base_info) : Z :=
  reads_with (has_indel "+") base_list.
Definition spec_del_count (base_list : list base_info) : Z :=
  reads_with (has_indel "-") base_list.
Definition spec_depth (base_list : list base_info) : Z :=
  reads_with in_depth base_list.

Section Gate.
Context {F : Type} `{PyFloat F}.

(** The gate in the words of the specification, for thresholds [ts]
    (SNV) and [ti] (indel) and the denominator [den]. *)
Definition spec_pass_af (reference_base : ascii) (ts ti : F) (den : Z)
    (base_list : list base_info) : Prop :=
  (∃ b, Py.char_in b "ACGT" = true ∧ b ≠ reference_base
        ∧ fgeb (fdiv_int (spec_count b base_list) den) ts = true)
  ∨ fgeb (fdiv_int (spec_ins_count base_list) den) ti = true
  ∨ fgeb (fdiv_int (spec_del_count base_list) den) ti = true.

(** The test the loop below applies to one entry of [pileup_list]. *)
Definition entry_passes (reference_base : ascii) (den : Z) (ts ti : F)
    (e : ascii * Z) : Prop :=
  e.1 ≠ reference_base
  ∧ (if Py.char_in e.1 "ID" then fgeb (fdiv_int e.2 den) ti = true
     else fgeb (fdiv_int e.2 den) ts = true).

(** The [for item, count in pileup_list] loop, with its [break]. *)
Fixpoint af_loop (reference_base : ascii) (denominator : Z)
    (minimum_snv_af_for_candidate minimum_indel_af_for_candidate : F)
    (pileup_list : list (ascii * Z)) (pass_snv_af pass_indel_af : bool)
  : bool * bool :=
  match pileup_list with
  | [] => (pass_snv_af, pass_indel_af)
  | (item, count) :: rest =>
      if pass_snv_af || pass_indel_af then (pass_snv_af, pass_indel_af)
      else if Ascii.eqb item reference_base then
        af_loop reference_base denominator minimum_snv_af_for_candidate
          minimum_indel_af_for_candidate rest pass_snv_af pass_indel_af
      else if Py.char_in item "ID" then
        af_loop reference_base denominator minimum_snv_af_for_candidate
          minimum_indel_af_for_candidate rest pass_snv_af
          (pass_indel_af
           || fgeb (fdiv_int count denominator) minimum_indel_af_for_candidate)
      else
        af_loop reference_base denominator minimum_snv_af_for_candidate
          minimum_indel_af_for_candidate rest
          (pass_snv_af
           || fgeb (fdiv_int count denominator) minimum_snv_af_for_candidate)
          pass_indel_af
  end.

(** The value [af] returned with the decision. *)
Definition af_of (reference_base : ascii) (denominator : Z)
    (pileup_list : list (ascii * Z)) : F :=
  let af :=
    match pileup_list with
    | _ :: (_, c1) :: _ => fdiv_int c1 denominator
    | _ => fzero
    end in
  match pileup_list with
  | (i0, c0) :: _ =>
      if negb (Ascii.eqb i0 reference_base) then fdiv_int c0 denominator else af
  | [] => af
  end.

(** [decode_pileup_bases]: the decoded bases, [depth] ([None] on the
    candidate-set shortcut), [pass_af] and [af]. *)
Definition decode_pileup_bases (P : param F) (pos : Z) (pileup_bases : string)
    (reference_base : ascii)
    (minimum_snv_af_for_candidate minimum_indel_af_for_candidate : F)
    (has_pileup_candidates : Z) (candidates_type_dict : gmap Z string)
    (is_tumor : bool) (platform : string)
  : Py.result (list base_info * option Z * bool * F) :=
  base_list ← parse_bases pileup_bases;
  if negb (has_pileup_candidates =? 0)
     && (negb (bool_decide (is_Some (candidates_type_dict !! pos)))
         || negb is_tumor)
  then Py.Ok (base_list, None, true, fone)
  else
    let '(pileup_dict, depth) := count_bases base_list in
    let minimum_snv_af_for_candidate :=
      if fpos minimum_snv_af_for_candidate then minimum_snv_af_for_candidate
      else min_af P in
    minimum_indel_af_for_candidate ←
      (if fpos minimum_indel_af_for_candidate
       then Py.Ok minimum_indel_af_for_candidate
       else Py.of_option Py.KeyError (min_af_dict P platform));
    let denominator := if 0 <? depth then depth else 1 in
    let pileup_list := sorted_desc pileup_dict in
    let '(pass_snv_af, pass_indel_af) :=
      af_loop reference_base denominator minimum_snv_af_for_candidate
        minimum_indel_af_for_candidate pileup_list false false in
    let af := af_of reference_base denominator pileup_list in
    let pass_af := pass_snv_af || pass_indel_af in
    Py.Ok (base_list, Some depth, pass_af, af).
End Gate.

End Decode.

(** ** Interval lookups *)

Module IntervalTree.

(** Modelled from the spec: [shared/interval_tree.py] ([bed_tree_from],
    [is_region_in]) is missing from the sources.  The spec gives the lookup
    as [contains(contig, a, b) → bool] on the half-open range [[a, b)]; a
    tree is kept as a dictionary from contig names to half-open intervals. *)
Definition bed_tree : Type := list (string * list (Z * Z)).

Definition overlaps (a b : Z) (iv : Z * Z) : bool :=
  (iv.1 <? b) && (a <? iv.2).

Definition is_region_in (tree : bed_tree) (contig_name : string)
    (region_start region_end : Z) : bool :=
  match Py.dict_get tree contig_name with
  | Some ivs => existsb (overlaps region_start region_end) ivs
  | None => false
  end.

End IntervalTree.

(** ** Positions, read ordering and tensors *)

Module Tensor.

(** The attributes of [Position] that the modelled functions read or
    write.  [read_info] maps a read name to its [(read_channel, ins_base)];
    the [read_channel] list it holds is the very object that
    [generate_tensor] later puts into the tensor and mutates. *)
Record Position (F : Type) : Type := mkPosition {
  pos : Z;
  ref_base : ascii;
  read_name_list : list string;
  base_list : list Decode.base_info;
  raw_base_quality : string;
  raw_mapping_quality : string;
  af : F;
  depth : option Z;
  update_info : bool;
  read_info : gmap string (list Z * string)
}.
Arguments mkPosition {F}.
Arguments pos {F} _.
Arguments ref_base {F} _.
Arguments read_name_list {F} _.
Arguments base_list {F} _.
Arguments raw_base_quality {F} _.
Arguments raw_mapping_quality {F} _.
Arguments af {F} _.
Arguments depth {F} _.
Arguments update_info {F} _.
Arguments read_info {F} _.

Definition phredscore2raw_score (qual : ascii) : Z :=
  Z.of_nat (nat_of_ascii qual) - 33.

Definition isupper (c : ascii) : bool :=
  let n := nat_of_ascii c in (65 <=? n)%nat && (n <=? 90)%nat.

Definition evc_base_from (base : ascii) : ascii :=
  if Ascii.eqb base "N" then "A"%char
  else if Ascii.eqb base "n" then "a"%char
  else if Py.char_in base "ACGTacgt" then base
  else if isupper base then "A"%char
  else "a"%char.

(** [l[i] = v] on a list. *)
Definition list_set {A : Type} (l : list A) (i : nat) (v : A) : Py.result (list A) :=
  if (i <? length l)%nat then Py.Ok (<[i := v]> l) else Py.Raise Py.IndexError.

(** [l[i]] for a non-negative index. *)
Definition list_get {A : Type} (l : list A) (i : nat) : Py.result A :=
  Py.of_option Py.IndexError (l !! i).

Section GetTensorInfo.
Context {F : Type} (P : param F) (T : create_tensor).

(** [get_tensor_info]: [(read_channel, ins_base, query_base)]. *)
Definition get_tensor_info (base_info : Decode.base_info) (bq : Z)
    (ref_base : ascii) (mask_low_bq : bool) (read_mq : Z) (is_tumor : bool)
    (hp : Z) : Py.result (list Z * string * string) :=
  hap_type ← Py.of_option Py.KeyError
    (if is_tumor then TUMOR_HAP_TYPE T hp else NORMAL_HAP_TYPE T hp);
  let '(base, indel) := base_info in
  let ins_base := EmptyString in
  let query_base := EmptyString in
  let read_channel := replicate (Z.to_nat (channel_size P)) 0 in
  if Py.char_in base "*#" then
    v ← Py.of_option Py.KeyError (ACGT_NUM T base);
    read_channel ← list_set read_channel 1 v;
    Py.Ok (read_channel, ins_base, query_base)
  else
    let strand := if Py.char_in base "ACGT" then STRAND_0 T else STRAND_1 T in
    let base_upper := Py.upper_char base in
    '(ALT_BASE, bq, base_upper) ←
      match indel with
      | String i0 _ =>
          a ← Py.of_option Py.KeyError (ACGT_NUM T i0);
          Py.Ok (a, bq, base_upper)
      | EmptyString =>
          if negb (Ascii.eqb base_upper ref_base) && Py.char_in base_upper "ACGT"
          then
            let base_upper := evc_base_from base_upper in
            a ← Py.of_option Py.KeyError (ACGT_NUM T base_upper);
            if mask_low_bq && (bq <? 33) && negb (a =? 0)
            then Py.Ok (0, 0, base_upper)
            else Py.Ok (a, bq, base_upper)
          else Py.Ok (0, bq, base_upper)
      end;
    REF_BASE ← Py.of_option Py.KeyError (ACGT_NUM T ref_base);
    let ins_base :=
      match indel with
      | String "+" rest => Py.upper rest
      | _ => ins_base
      end in
    let read_channel :=
      [REF_BASE; ALT_BASE; strand; bq; read_mq; hap_type] ++ drop 6 read_channel in
    let query_base :=
      if Py.char_in base_upper "ACGT" then String base_upper EmptyString
      else EmptyString in
    Py.Ok (read_channel, ins_base, query_base).

(** [Position.update_infos]. *)
Definition update_infos (self : Position F) (is_tumor : bool)
    (hap_dict : gmap string Z) (mask_low_bq : bool) (platform : string)
  : Py.result (Position F) :=
  let mapping_quality :=
    map (λ item, normalize_mq T (phredscore2raw_score item))
        (list_ascii_of_string (raw_mapping_quality self)) in
  let base_quality :=
    map (λ item, normalize_bq T (phredscore2raw_score item) platform)
        (list_ascii_of_string (raw_base_quality self)) in
  read_info ← Py.foldM
    (λ (read_info : gmap string (list Z * string)) '(read_name, base_info, bq, mq),
       let hp := default 0 (hap_dict !! read_name) in
       '(read_channel, ins_base, query_base) ←
         get_tensor_info base_info bq (ref_base self) mask_low_bq mq is_tumor hp;
       Py.Ok (<[read_name := (read_channel, ins_base)]> read_info))
    (read_info self)
    (Py.zip4 (read_name_list self) (base_list self) base_quality mapping_quality);
  Py.Ok (mkPosition (pos self) (ref_base self) (read_name_list self)
           (base_list self) (raw_base_quality self) (raw_mapping_quality self)
           (af self) (depth self) true read_info).
End GetTensorInfo.

(** The [random] module: its hidden generator state is threaded explicitly.
    [seed n] is the state after [random.seed(n)]; [sample g n k] is
    [random.sample(range(n), k)] run in state [g]. *)
Class PyRandom (G : Type) : Type := {
  seed : Z → G;
  sample : G → nat → nat → list nat * G
}.

(** The documented contract of [random.sample]: [k] distinct elements of
    the population. *)
Class PyRandomLaws (G : Type) `{PyRandom G} : Prop := {
  sample_length : ∀ g n k, (k ≤ n)%nat → length (sample g n k).1 = k;
  sample_NoDup : ∀ g n k, (k ≤ n)%nat → NoDup (sample g n k).1;
  sample_range : ∀ g n k i, (k ≤ n)%nat → i ∈ (sample g n k).1 → (i < n)%nat
}.

(** An entry [(hap, order, read_name)] of the sorted read list. *)
Definition read_entry : Type := Z * nat * string.

(** The sort key [(x[0], x[1])], compared as Python compares tuples. *)
Definition entry_le (a b : read_entry) : Prop :=
  a.1.1 < b.1.1 ∨ (a.1.1 = b.1.1 ∧ (a.1.2 ≤ b.1.2)%nat).

#[global] Instance entry_le_dec (a b : read_entry) : Decision (entry_le a b).
Proof. unfold entry_le. apply _. Defined.

Section ReadOrdering.
Context {F G : Type} `{PyRandom G} (P : param F).

(** The read names of the window, position after position. *)
Definition nearby_read_names (center_pos : Z) (pileup_dict : gmap Z (Position F))
  : list string :=
  let start_pos := center_pos - flankingBaseNum P in
  let end_pos := center_pos + flankingBaseNum P + 1 in
  concat (map (λ p, match pileup_dict !! p with
                    | Some x => read_name_list x
                    | None => []
                    end)
              (Py.range start_pos end_pos)).

(** [sorted(indices)] for the draw of [k] out of [n] made right after
    [random.seed(0)]. *)
Definition picked (n : nat) (k : Z) : list nat :=
  merge_sort (≤)%nat (sample (seed 0) n (Z.to_nat k)).1.

(** The subsampling branch: [random.seed(0)], [random.sample], and the
    names at the sorted indices. *)
Definition subsample (g : G) (all_nearby_read_name : list string)
    (matrix_depth : Z) : Py.result (list string * G) :=
  let g := seed 0 in
  if matrix_depth <? 0 then Py.Raise Py.ValueError
  else
    let '(indices, g) :=
      sample g (length all_nearby_read_name) (Z.to_nat matrix_depth) in
    names ← Py.foldM
      (λ acc i, x ← list_get all_nearby_read_name i; Py.Ok (acc ++ [x]))
      [] (merge_sort (≤)%nat indices);
    Py.Ok (names, g).

(** [sorted_by_hap_read_name], in generator state [g]: the sorted list and
    the generator state it leaves. *)
Definition sorted_by_hap_read_name (g : G) (center_pos : Z)
    (haplotag_dict : gmap string Z) (pileup_dict : gmap Z (Position F))
    (hap_dict : gmap string Z) (max_depth : Z) (use_tensor_sample_mode : bool)
  : Py.result (list read_entry * G) :=
  let all_nearby_read_name :=
    Py.fromkeys (nearby_read_names center_pos pileup_dict) in
  let matrix_depth := max_depth in
  '(all_nearby_read_name, g) ←
    (if (matrix_depth <? Z.of_nat (length all_nearby_read_name))
        && negb use_tensor_sample_mode
     then subsample g all_nearby_read_name matrix_depth
     else Py.Ok (all_nearby_read_name, g));
  let sorted_read_name_list :=
    imap (λ order read_name,
            (Z.max (default 0 (haplotag_dict !! read_name))
                   (default 0 (hap_dict !! read_name)),
             order, read_name))
         all_nearby_read_name in
  Py.Ok (merge_sort entry_le sorted_read_name_list, g).
End ReadOrdering.

(** A cell [tensor[read_idx][offset]]: either a list the tensor owns (one
    of the zero lists it was created with) or the [read_channel] list held
    in [pileup_dict[p].read_info[read_name]], shared with that entry. *)
Inductive cell : Type :=
| Own (channels : list Z)
| Shared (p : Z) (read_name : string).

Definition set_cell (tensor : list (list cell)) (read_idx col : nat) (c : cell)
  : Py.result (list (list cell)) :=
  row ← list_get tensor read_idx;
  row ← list_set row col c;
  list_set tensor read_idx row.

(** A tensor under construction with [d] rows of [w] cells. *)
Definition shaped (d w : nat) (tensor : list (list cell)) : Prop :=
  length tensor = d ∧ Forall (λ row, length row = w) tensor.

Definition set_read_info {F : Type} (x : Position F)
    (ri : gmap string (list Z * string)) : Position F :=
  mkPosition (pos x) (ref_base x) (read_name_list x) (base_list x)
    (raw_base_quality x) (raw_mapping_quality x) (af x) (depth x)
    (update_info x) ri.

(** The list a cell denotes in the current store. *)
Definition cell_value {F : Type} (pileup_dict : gmap Z (Position F)) (c : cell)
  : list Z :=
  match c with
  | Own l => l
  | Shared p read_name =>
      match pileup_dict !! p with
      | Some x => match read_info x !! read_name with
                  | Some (read_channel, _) => read_channel
                  | None => []
                  end
      | None => []
      end
  end.

(** [tensor[read_idx][col][6] = v]: the write goes to whichever list the
    cell is. *)
Definition write6 {F : Type} (st : gmap Z (Position F) * list (list cell))
    (read_idx col : nat) (v : Z)
  : Py.result (gmap Z (Position F) * list (list cell)) :=
  let '(pileup_dict, tensor) := st in
  row ← list_get tensor read_idx;
  c ← list_get row col;
  match c with
  | Own l =>
      l ← list_set l 6 v;
      tensor ← set_cell tensor read_idx col (Own l);
      Py.Ok (pileup_dict, tensor)
  | Shared p read_name =>
      x ← Py.of_option Py.KeyError (pileup_dict !! p);
      '(read_channel, ins_base) ← Py.of_option Py.KeyError (read_info x !! read_name);
      read_channel ← list_set read_channel 6 v;
      Py.Ok (<[p := set_read_info x (<[read_name := (read_channel, ins_base)]> (read_info x))]>
               pileup_dict,
             tensor)
  end.

(** An entry [(read_idx, offset, ins_base, p)] of [insert_tuple]. *)
Definition insert_entry : Type := nat * Z * string * Z.

(** The flattened tensor string. *)
Definition tensor_string (tensor : list (list (list Z))) : string :=
  Py.join " " (map (λ outerlist,
    Py.join " " (map (λ innerlist, Py.join " " (map Py.str innerlist)) outerlist))
    tensor).

Section GenerateTensor.
Context {F : Type} (P : param F) (T : create_tensor).

(** The body of [for read_idx, read_name_info in enumerate(...)] at
    position [p]. *)
Definition place_read (pileup_dict : gmap Z (Position F)) (p start_pos end_pos : Z)
    (st : list (list cell) * list insert_entry) (item : nat * read_entry)
  : Py.result (list (list cell) * list insert_entry) :=
  let '(tensor, insert_tuple) := st in
  let '(read_idx, (hap, read_order, read_name)) := item in
  let offset := p - start_pos in
  match pileup_dict !! p with
  | Some x =>
      match read_info x !! read_name with
      | Some (read_channel, ins_base) =>
          tensor ← set_cell tensor read_idx (Z.to_nat offset) (Shared p read_name);
          if negb (String.eqb ins_base EmptyString) && (p <? end_pos - 1)
          then Py.Ok (tensor, insert_tuple ++ [(read_idx, offset, ins_base, p)])
          else Py.Ok (tensor, insert_tuple)
      | None => Py.Ok st
      end
  | None => Py.Ok st
  end.

(** The body of [for p in range(start_pos, end_pos)]. *)
Definition place_position (is_tumor : bool) (hap_dict : gmap string Z)
    (mask_low_bq : bool) (platform : string) (start_pos end_pos : Z)
    (sorted_read_name_list : list read_entry)
    (st : gmap Z (Position F) * list (list cell) * list insert_entry) (p : Z)
  : Py.result (gmap Z (Position F) * list (list cell) * list insert_entry) :=
  let '(pileup_dict, tensor, insert_tuple) := st in
  pileup_dict ←
    match pileup_dict !! p with
    | Some x =>
        if negb (update_info x) then
          x ← update_infos P T x is_tumor hap_dict mask_low_bq platform;
          Py.Ok (<[p := x]> pileup_dict)
        else Py.Ok pileup_dict
    | None => Py.Ok pileup_dict
    end;
  '(tensor, insert_tuple) ←
    Py.foldM (place_read pileup_dict p start_pos end_pos) (tensor, insert_tuple)
      (imap (λ i e, (i, e)) sorted_read_name_list);
  Py.Ok (pileup_dict, tensor, insert_tuple).

(** The body of [for ins_idx in range(...)]:
    [tensor[read_idx][ins_idx + p][6] = ACGT_NUM[ins_base[ins_idx]]]. *)
Definition write_base (read_idx : nat) (p : Z) (ins_base : string)
    (st : gmap Z (Position F) * list (list cell)) (ins_idx : Z)
  : Py.result (gmap Z (Position F) * list (list cell)) :=
  c ← Py.index ins_base ins_idx;
  v ← Py.of_option Py.KeyError (ACGT_NUM T c);
  write6 st read_idx (Z.to_nat (ins_idx + p)) v.

(** The body of [for read_idx, p, ins_base, center_p in insert_tuple],
    where the name [p] is bound to the stored offset. *)
Definition write_insert (st : gmap Z (Position F) * list (list cell))
    (e : insert_entry) : Py.result (gmap Z (Position F) * list (list cell)) :=
  let '(read_idx, p, ins_base, center_p) := e in
  Py.foldM (write_base read_idx p ins_base) st
    (Py.range 0 (Z.min (Z.of_nat (String.length ins_base)) (no_of_positions P - p))).

(** One iteration of the loop that fills [alt_dict] and counts [depth]. *)
Definition alt_step (reference_base : ascii) (st : list (string * Z) * Z)
    (bi : Decode.base_info) : list (string * Z) * Z :=
  let '(alt_dict, depth) := st in
  let '(base, indel) := bi in
  if Py.char_in base "#*" then (alt_dict, depth + 1)
  else
    let depth := depth + 1 in
    let base_upper := Py.upper_char base in
    match indel with
    | String i0 rest =>
        if Ascii.eqb i0 "+"
        then (Py.dict_add alt_dict (String "+" (String base_upper (Py.upper rest))) 1,
              depth)
        else (Py.dict_add alt_dict (Py.upper indel) 1, depth)
    | EmptyString =>
        if negb (Ascii.eqb (Py.upper_char base) reference_base)
        then (Py.dict_add alt_dict (String (Py.upper_char base) EmptyString) 1, depth)
        else (alt_dict, depth)
    end.

(** One iteration of [for alt_type, alt_count in alt_dict.items()]. *)
Definition alt_item (reference_sequence : string) (center_pos reference_start : Z)
    (kv : string * Z) : Py.result (string * string) :=
  let '(alt_type, alt_count) := kv in
  match alt_type with
  | EmptyString => Py.Raise Py.IndexError
  | String a0 rest =>
      if Ascii.eqb a0 "+" then
        Py.Ok (String "I" (Py.upper rest), Py.str alt_count)
      else if Ascii.eqb a0 "-" then
        let del_bases_num := Z.of_nat (String.length rest) in
        let del_ref_bases :=
          Py.slice reference_sequence (center_pos - reference_start + 1)
            (center_pos - reference_start + del_bases_num + 1) in
        Py.Ok (String "D" del_ref_bases, Py.str alt_count)
      else Py.Ok (String "X" alt_type, Py.str alt_count)
  end.

(** [af_set = set()] is never added to; its elements would be numbers. *)
Definition af_set : list Z := [].

Definition af_infos : string :=
  Py.join " " (map Py.str
    (filter (λ item, item ≠ 0) (reverse (merge_sort (≤) af_set)))).

(** The alt-info string built at the end of [generate_tensor]. *)
Definition alt_info_of (center : Position F) (reference_base : ascii)
    (reference_sequence : string) (center_pos reference_start : Z)
  : Py.result string :=
  let '(alt_dict, depth) :=
    fold_left (alt_step reference_base) (base_list center) ([], 0) in
  alt_info ← Py.foldM
    (λ acc kv,
       item ← alt_item reference_sequence center_pos reference_start kv;
       Py.Ok (acc ++ [item]))
    [] alt_dict;
  Py.Ok (Py.str depth ++ "-"
         ++ Py.join " " (map (λ item : string * string,
                                Py.join " " [item.1; item.2]) alt_info)
         ++ "-" ++ af_infos)%string.

(** The confident-region test: [pass_confident_bed]. *)
Definition pass_confident_bed (confident_bed_tree : IntervalTree.bed_tree)
    (ctg_name : string) (center_pos : Z) : bool :=
  (length confident_bed_tree =? 0)%nat
  || IntervalTree.is_region_in confident_bed_tree ctg_name
       (center_pos - 2) (center_pos + flankingBaseNum P + 1).

(** [generate_tensor]: the store it leaves, and [(tensor, alt_info)] or
    [None] for [(None, None)].  The tensor is given by value, as it is
    read when the string is built; [tensor_string] makes the string. *)
Definition generate_tensor (mask_low_bq : bool) (ctg_name : string)
    (center_pos : Z) (sorted_read_name_list : list read_entry)
    (pileup_dict : gmap Z (Position F)) (ref_seq reference_sequence : string)
    (reference_start : Z) (platform : string)
    (confident_bed_tree : IntervalTree.bed_tree) (is_tumor : bool)
    (hap_dict : gmap string Z)
  : Py.result (gmap Z (Position F) * option (list (list (list Z)) * string)) :=
  let tensor_shape :=
    if String.eqb platform "ont" then ont_input_shape P else input_shape P in
  reference_base ← Py.index ref_seq (flankingBaseNum P);
  let tensor_depth := length sorted_read_name_list in
  if (tensor_depth =? 0)%nat then Py.Ok (pileup_dict, None)
  else
    let tensor :=
      replicate tensor_depth
        (replicate (Z.to_nat tensor_shape.1.2)
           (Own (replicate (Z.to_nat tensor_shape.2) 0))) in
    let start_pos := center_pos - flankingBaseNum P in
    let end_pos := center_pos + flankingBaseNum P + 1 in
    if negb (pass_confident_bed confident_bed_tree ctg_name center_pos)
    then Py.Ok (pileup_dict, None)
    else
      '(pileup_dict, tensor, insert_tuple) ←
        Py.foldM
          (place_position is_tumor hap_dict mask_low_bq platform start_pos end_pos
             sorted_read_name_list)
          (pileup_dict, tensor, []) (Py.range start_pos end_pos);
      '(pileup_dict, tensor) ← Py.foldM write_insert (pileup_dict, tensor) insert_tuple;
      center ← Py.of_option Py.AttributeError (pileup_dict !! center_pos);
      alt_info ← alt_info_of center reference_base reference_sequence center_pos
                   reference_start;
      Py.Ok (pileup_dict,
             Some (map (map (cell_value pileup_dict)) tensor, alt_info)).
End GenerateTensor.

(** *** Notions used to state what the builder leaves in the tensor *)

(** The read name of row [r]. *)
Definition name_at (sorted : list read_entry) (r : nat) : option string :=
  (λ e : read_entry, e.2) <$> sorted !! r.

(** The inserted sequence that [read_info] holds for a read at a position. *)
Definition ins_at {F : Type} (d : gmap Z (Position F)) (p : Z) (name : string)
  : option string :=
  x ← d !! p; ci ← read_info x !! name; Some ci.2.

(** A shared cell of column [c] in row [r] is the list of the read of that
    row at the position of that column. *)
Definition cell_ok (start_pos : Z) (sorted : list read_entry) (r c : nat) (x : cell)
  : Prop :=
  match x with
  | Own _ => True
  | Shared p name => p = start_pos + Z.of_nat c ∧ name_at sorted r = Some name
  end.

Definition tensor_ok (start_pos : Z) (sorted : list read_entry)
    (tensor : list (list cell)) : Prop :=
  ∀ r row c x, tensor !! r = Some row → row !! c = Some x →
               cell_ok start_pos sorted r c x.

(** Channel 6 of the cell in row [r] and column [c], read through the
    store. *)
Definition chan6 {F : Type} (d : gmap Z (Position F)) (tensor : list (list cell))
    (r c : nat) : option Z :=
  row ← tensor !! r; x ← row !! c; cell_value d x !! 6%nat.

(** Two values of a position that differ at most in [update_info] and
    [read_info], the two attributes the tensor builder writes. *)
Definition same_pileup {F : Type} (x y : Position F) : Prop :=
  pos x = pos y ∧ ref_base x = ref_base y
  ∧ read_name_list x = read_name_list y ∧ base_list x = base_list y
  ∧ raw_base_quality x = raw_base_quality y
  ∧ raw_mapping_quality x = raw_mapping_quality y
  ∧ af x = af y ∧ depth x = depth y.

(** What the tensor builder may do to the store between two states: it
    changes entries of the window only, of an entry only [update_info] and
    [read_info], and it never clears [update_info]. *)
Definition store_step {F : Type} (start_pos end_pos : Z)
    (d d' : gmap Z (Position F)) : Prop :=
  ∀ p, option_Forall2 same_pileup (d !! p) (d' !! p)
       ∧ (¬ (start_pos ≤ p < end_pos) → d' !! p = d !! p)
       ∧ (∀ x x', d !! p = Some x → d' !! p = Some x' → update_info x = true →
                  update_info x' = true).

(** The shared cells of a tensor under construction all belong to
    positions of the window. *)
Definition shared_in (start_pos end_pos : Z) (tensor : list (list cell)) : Prop :=
  ∀ r row c p name, tensor !! r = Some row → row !! c = Some (Shared p name) →
                    start_pos ≤ p < end_pos.

(** [tensor[r][c][k]] of the tensor that is returned. *)
Definition tensor_at (tensor : list (list (list Z))) (r c k : nat) : option Z :=
  row ← tensor !! r; x ← row !! c; x !! k.

(** The columns an entry of [insert_tuple] writes: row [e.read_idx],
    columns [offset + ins_idx] for the [ins_idx] of its inner loop. *)
Definition covers {F : Type} (P : param F) (e : insert_entry) (r c : nat) : Prop :=
  let '(read_idx, p, ins_base, center_p) := e in
  read_idx = r
  ∧ ∃ i, 0 ≤ i < Z.min (Z.of_nat (String.length ins_base)) (no_of_positions P - p)
         ∧ c = Z.to_nat (i + p).

(** The offset stored in an entry of [insert_tuple]. *)
Definition offset_of (e : insert_entry) : Z := e.1.1.2.

(** The entry of [insert_tuple] that a read gives rise to at position [p],
    read off a store. *)
Definition entry_at {F : Type} (d : gmap Z (Position F)) (start_pos end_pos p : Z)
    (item : nat * read_entry) : option insert_entry :=
  let '(read_idx, (hap, read_order, read_name)) := item in
  match ins_at d p read_name with
  | Some ins_base =>
      if negb (String.eqb ins_base EmptyString) && (p <? end_pos - 1)
      then Some (read_idx, p - start_pos, ins_base, p)
      else None
  | None => None
  end.

(** The entries of position [p], in the order of the rows. *)
Definition entries_of {F : Type} (d : gmap Z (Position F)) (start_pos end_pos : Z)
    (sorted : list read_entry) (p : Z) : list insert_entry :=
  omap (entry_at d start_pos end_pos p) (imap (λ i e, (i, e)) sorted).

End Tensor.

(** ** Per-stream candidate generator: [samtools_pileup_generator_from] *)

Module Generator.

Import Tensor.

(** [ctg_start] is [None], an integer, or the [float('inf')] left by an
    empty candidate BED. *)
Inductive bound : Type :=
| BNone
| BInt (n : Z)
| BInf.

(** The variables of [create_pair_tensor] the generator closes over. *)
Record env (F : Type) : Type := mkEnv {
  candidates_pos_set : gset Z;
  candidates_type_dict : gmap Z string;
  is_extend_bed_file_given : bool;
  extend_bed_tree : IntervalTree.bed_tree;
  ctg_name : string;
  ctg_start : bound;
  ctg_end : option Z;
  reference_sequence : string;
  reference_start : Z;
  minimum_snv_af_for_candidate : F;
  minimum_indel_af_for_candidate : F;
  min_coverage : F;
  platform : string;
  is_known_vcf_file_provided : bool;
  known_variants_set : gset Z
}.
Arguments candidates_pos_set {F} _.
Arguments candidates_type_dict {F} _.
Arguments is_extend_bed_file_given {F} _.
Arguments extend_bed_tree {F} _.
Arguments ctg_name {F} _.
Arguments ctg_start {F} _.
Arguments ctg_end {F} _.
Arguments reference_sequence {F} _.
Arguments reference_start {F} _.
Arguments minimum_snv_af_for_candidate {F} _.
Arguments minimum_indel_af_for_candidate {F} _.
Arguments min_coverage {F} _.
Arguments platform {F} _.
Arguments is_known_vcf_file_provided {F} _.
Arguments known_variants_set {F} _.

(** One pileup line, split into its columns; [pos] is [int(columns[1])]. *)
Record row : Type := mkRow {
  row_pos : Z;
  row_bases : string;            (* columns[4] *)
  row_bq : string;               (* columns[5] *)
  row_mq : string;               (* columns[6] *)
  row_names : string;            (* columns[7] *)
  row_phasing : option string    (* columns[8], when the line has it *)
}.

(** The local state of one generator, with the dictionaries it shares with
    the main loop. *)
Record gstate (F : Type) : Type := mkG {
  candidate_pos_list : list Z;
  current_pos_index : nat;
  pileup_dict : gmap Z (Position F);
  hap_dict : gmap string Z
}.
Arguments mkG {F}.
Arguments candidate_pos_list {F} _.
Arguments current_pos_index {F} _.
Arguments pileup_dict {F} _.
Arguments hap_dict {F} _.

(** What one pileup line does: the line is passed over by a [continue],
    stored without reaching a [yield], or stored and the pending candidate
    yielded (the state is the one at the [yield]). *)
Inductive outcome (F : Type) : Type :=
| Skipped (st : gstate F)
| Stored (st : gstate F)
| Yielded (st : gstate F) (c : Z).
Arguments Skipped {F} st.
Arguments Stored {F} st.
Arguments Yielded {F} st c.

(** [sorted(pileup_dict.keys())]. *)
Definition sorted_keys {F : Type} (d : gmap Z (Position F)) : list Z :=
  merge_sort (≤) (elements (dom d)).

(** The [for pre_pos in sorted(pileup_dict.keys())] loop with its [break]. *)
Fixpoint trim_loop {F : Type} (c extend_bp_distance : Z) (keys : list Z)
    (d : gmap Z (Position F)) : gmap Z (Position F) :=
  match keys with
  | [] => d
  | pre_pos :: keys' =>
      if extend_bp_distance <? c - pre_pos
      then trim_loop c extend_bp_distance keys' (delete pre_pos d)
      else d
  end.

(** [hap in '12'] is a substring test. *)
Definition hap_in_12 (hap : string) : bool :=
  String.eqb hap "" || String.eqb hap "1" || String.eqb hap "2" || String.eqb hap "12".

(** [int(hap)] for the strings that pass [hap_in_12]. *)
Definition int_of_hap (hap : string) : Py.result Z :=
  if String.eqb hap "1" then Py.Ok 1
  else if String.eqb hap "2" then Py.Ok 2
  else if String.eqb hap "12" then Py.Ok 12
  else Py.Raise Py.ValueError.

Section Gen.
Context {F : Type} `{PyFloat F} (P : param F) (E : env F).

Definition extend_bp_distance : Z := no_of_positions P + extend_bp P.

Definition has_pileup_candidates : Z := Z.of_nat (size (candidates_pos_set E)).

(** [not ctg_start or (pos >= ctg_start and pos <= ctg_end)]. *)
Definition pass_ctg_range (pos : Z) : Py.result bool :=
  match ctg_start E with
  | BNone | BInt 0 => Py.Ok true
  | BInt s =>
      if s <=? pos then
        match ctg_end E with
        | Some e => Py.Ok (pos <=? e)
        | None => Py.Raise Py.TypeError
        end
      else Py.Ok false
  | BInf => Py.Ok false
  end.

(** The strand suffixes added to the read names on [ilmn]. *)
Fixpoint ilmn_names (base_list : list Decode.base_info) (b_idx : nat)
    (read_name_list : list string) : Py.result (list string) :=
  match base_list with
  | [] => Py.Ok read_name_list
  | base :: rest =>
      name ← list_get read_name_list b_idx;
      let reverse_strand :=
        Ascii.eqb base.1 "#"
        || ((97 <=? nat_of_ascii base.1)%nat && (nat_of_ascii base.1 <=? 122)%nat) in
      let name := (name ++ (if reverse_strand then "_1" else "_0"))%string in
      ilmn_names rest (S b_idx) (<[b_idx := name]> read_name_list)
  end.

(** The loop over [phasing_info] that fills [hap_dict]. *)
Fixpoint read_phasing (phasing_info : list string) (hap_idx : nat)
    (read_name_list : list string) (hap_dict : gmap string Z)
  : Py.result (gmap string Z) :=
  match phasing_info with
  | [] => Py.Ok hap_dict
  | hap :: rest =>
      if hap_in_12 hap then
        name ← list_get read_name_list hap_idx;
        if negb (bool_decide (is_Some (hap_dict !! name))) then
          v ← int_of_hap hap;
          read_phasing rest (S hap_idx) read_name_list (<[name := v]> hap_dict)
        else read_phasing rest (S hap_idx) read_name_list hap_dict
      else read_phasing rest (S hap_idx) read_name_list hap_dict
  end.

(** The body of [for row in samtools_mpileup_process.stdout], up to the
    [yield].  The call of [decode_pileup_bases] passes no [platform], so
    the default ["ont"] applies. *)
Definition process_row (is_tumor phasing_info_in_bam : bool) (st : gstate F)
    (r : row) : Py.result (outcome F) :=
  let pos := row_pos r in
  let pass_extend_bed :=
    negb (is_extend_bed_file_given E)
    || IntervalTree.is_region_in (extend_bed_tree E) (ctg_name E) (pos - 1) (pos + 1) in
  pass_ctg_range ← pass_ctg_range pos;
  if (has_pileup_candidates =? 0) && negb pass_extend_bed && pass_ctg_range
  then Py.Ok (Skipped st)
  else
    let pileup_bases := row_bases r in
    let read_name_list := Py.split "," (row_names r) in
    c ← Py.index (reference_sequence E) (pos - reference_start E);
    let reference_base := Py.upper_char c in
    if negb (Py.char_in reference_base "ACGT") then Py.Ok (Skipped st)
    else
      '(base_list, depth, pass_af, af) ←
        Decode.decode_pileup_bases P pos pileup_bases reference_base
          (minimum_snv_af_for_candidate E) (minimum_indel_af_for_candidate E)
          has_pileup_candidates (candidates_type_dict E) is_tumor "ont";
      read_name_list ←
        (if String.eqb (platform E) "ilmn"
         then ilmn_names base_list 0 read_name_list
         else Py.Ok read_name_list);
      phased ←
        (if phasing_info_in_bam then
           columns8 ← Py.of_option Py.IndexError (row_phasing r);
           let phasing_info := Py.split "," columns8 in
           if negb (length read_name_list =? length phasing_info)%nat
           then Py.Ok None
           else hd ← read_phasing phasing_info 0 read_name_list (hap_dict st);
                Py.Ok (Some hd)
         else Py.Ok (Some (hap_dict st)));
      match phased with
      | None => Py.Ok (Skipped st)
      | Some hap_dict =>
          let st := mkG (candidate_pos_list st) (current_pos_index st)
                        (pileup_dict st) hap_dict in
          if negb (length read_name_list =? length base_list)%nat
          then Py.Ok (Skipped st)
          else
            append1 ←
              ((if negb (is_known_vcf_file_provided E) && (has_pileup_candidates =? 0)
                  && Py.char_in reference_base "ACGT"
               then if (pass_af : bool)
                    then d ← Py.of_option Py.TypeError depth;
                         Py.Ok (int_geb d (min_coverage E))
                    else Py.Ok false
               else Py.Ok false) : Py.result bool);
            let candidate_pos_list :=
              if (append1 : bool) then candidate_pos_list st ++ [pos]
              else candidate_pos_list st in
            let candidate_pos_list :=
              if is_known_vcf_file_provided E && (has_pileup_candidates =? 0)
                 && bool_decide (pos ∈ known_variants_set E)
              then candidate_pos_list ++ [pos]
              else candidate_pos_list in
            let pileup_dict :=
              <[pos := mkPosition pos reference_base read_name_list base_list
                         (row_bq r) (row_mq r) af depth false ∅]> (pileup_dict st) in
            let st := mkG candidate_pos_list (current_pos_index st) pileup_dict
                          hap_dict in
            match candidate_pos_list !! current_pos_index st with
            | Some c =>
                if extend_bp_distance <? pos - c
                then Py.Ok (Yielded st c)
                else Py.Ok (Stored st)
            | None => Py.Ok (Stored st)
            end
      end.

(** What a pileup line that is not passed over leaves behind: the
    candidate list, with the position appended when [a1] (the gate) or
    the known-variant test holds, the window with the line stored, and
    the decision on the pending candidate. *)
Definition stored_as (is_tumor : bool) (st : gstate F) (r : row) (o : outcome F)
    (base_list : list Decode.base_info) (depth : option Z) (pass_af : bool)
    (names : list string) : Prop :=
  ∃ c0 af hd (a1 : bool),
    Py.index (reference_sequence E) (row_pos r - reference_start E) = Py.Ok c0
    ∧ Py.char_in (Py.upper_char c0) "ACGT" = true
    ∧ Decode.decode_pileup_bases P (row_pos r) (row_bases r) (Py.upper_char c0)
        (minimum_snv_af_for_candidate E) (minimum_indel_af_for_candidate E)
        has_pileup_candidates (candidates_type_dict E) is_tumor "ont"
      = Py.Ok (base_list, depth, pass_af, af)
    ∧ length names = length base_list
    ∧ (a1 = true ↔
         is_known_vcf_file_provided E = false ∧ has_pileup_candidates = 0
         ∧ pass_af = true
         ∧ ∃ d, depth = Some d ∧ int_geb d (min_coverage E) = true)
    ∧ let a2 := is_known_vcf_file_provided E && (has_pileup_candidates =? 0)
                && bool_decide (row_pos r ∈ known_variants_set E) in
      let cands := candidate_pos_list st ++ (if a1 then [row_pos r] else [])
                   ++ (if a2 then [row_pos r] else []) in
      let st' :=
        mkG cands (current_pos_index st)
          (<[row_pos r := mkPosition (row_pos r) (Py.upper_char c0) names base_list
                            (row_bq r) (row_mq r) af depth false ∅]> (pileup_dict st))
          hd in
      (o = Stored st'
       ∧ ∀ c, cands !! current_pos_index st = Some c →
              ¬ extend_bp_distance < row_pos r - c)
      ∨ (∃ c, o = Yielded st' c
              ∧ cands !! current_pos_index st = Some c
              ∧ extend_bp_distance < row_pos r - c).

(** The state an outcome carries. *)
Definition state_of (o : outcome F) : gstate F :=
  match o with
  | Skipped st | Stored st | Yielded st _ => st
  end.

(** What follows a [yield] of [c] when the generator is resumed: the
    window is trimmed and the cursor advanced. *)
Definition resume (st : gstate F) (c : Z) : gstate F :=
  mkG (candidate_pos_list st) (S (current_pos_index st))
      (trim_loop c extend_bp_distance (sorted_keys (pileup_dict st)) (pileup_dict st))
      (hap_dict st).

(** The final [while current_pos_index != len(candidate_pos_list)] loop:
    the positions it yields and the state it ends in.  It runs once for
    each candidate from the cursor on. *)
Fixpoint flush (n : nat) (st : gstate F) : list Z * gstate F :=
  match n with
  | O => ([], st)
  | S n' =>
      match candidate_pos_list st !! current_pos_index st with
      | Some c =>
          let '(ys, st') := flush n' (resume st c) in
          (c :: ys, st')
      | None => ([], st)
      end
  end.

(** The [for row in ...] loop over the lines of the stream: the positions
    yielded, in order, and either the state after the last line or the
    exception that ended the generator. *)
Fixpoint feed (is_tumor phasing_info_in_bam : bool) (st : gstate F)
    (rows : list row) : list Z * Py.result (gstate F) :=
  match rows with
  | [] => ([], Py.Ok st)
  | r :: rows' =>
      match process_row is_tumor phasing_info_in_bam st r with
      | Py.Raise e => ([], Py.Raise e)
      | Py.Ok (Skipped st') | Py.Ok (Stored st') =>
          feed is_tumor phasing_info_in_bam st' rows'
      | Py.Ok (Yielded st' c) =>
          let '(ys, res) :=
            feed is_tumor phasing_info_in_bam (resume st' c) rows' in
          (c :: ys, res)
      end
  end.

(** The generator run to its end: the loop over the lines, then the
    final loop over the candidates that are left. *)
Definition run (is_tumor phasing_info_in_bam : bool) (st : gstate F)
    (rows : list row) : list Z * Py.result (gstate F) :=
  match feed is_tumor phasing_info_in_bam st rows with
  | (ys, Py.Ok st') =>
      let '(zs, st'') :=
        flush (length (candidate_pos_list st') - current_pos_index st') st' in
      (ys ++ zs, Py.Ok st'')
  | (ys, Py.Raise e) => (ys, Py.Raise e)
  end.

(** The state a generator starts in. *)
Definition start (pileup_dict : gmap Z (Position F)) (hap_dict : gmap string Z)
  : gstate F :=
  mkG (merge_sort (≤) (elements (candidates_pos_set E))) 0 pileup_dict hap_dict.
End Gen.

End Generator.

(** ** The preparation steps of [create_pair_tensor] *)

Module Setup.

Import Generator.

(** A row of the candidates BED after [rstrip().split('\t')]: [row[0]],
    [int(row[1])], [int(row[2])] and the columns that follow them. *)
Record bed_row : Type := mkBedRow {
  bed_ctg : string;
  bed_start : Z;
  bed_end : Z;
  bed_rest : list string
}.

(** The variables the loop over the candidates BED writes.  [b_ctg_start]
    is [None] while it still is [float('inf')]. *)
Record bed_state : Type := mkBedState {
  b_ctg_start : option Z;
  b_ctg_end : Z;
  b_pos_set : gset Z;
  b_type_dict : gmap Z string
}.

(** [center = position + (end - position) // 2 - 1] with
    [position = int(row[1]) + 1] and [end = int(row[2]) + 1]. *)
Definition center_of (row : bed_row) : Z :=
  let position := bed_start row + 1 in
  let end_ := bed_end row + 1 in
  position + (end_ - position) / 2 - 1.

(** [variant_type]: ['unknown'] unless [len(row) == 4]. *)
Definition variant_type_of (row : bed_row) : string :=
  match bed_rest row with
  | [t] => t
  | _ => "unknown"
  end.

(** One iteration of [for row in candidate_file_path_output]. *)
Definition bed_step (ctg_name : string) (st : bed_state) (row : bed_row)
  : bed_state :=
  if negb (String.eqb (bed_ctg row) ctg_name) then st
  else
    let position := bed_start row + 1 in
    let end_ := bed_end row + 1 in
    let ctg_start :=
      match b_ctg_start st with
      | None => position
      | Some s => Z.min position s
      end in
    let ctg_end := Z.max end_ (b_ctg_end st) in
    let center := center_of row in
    mkBedState (Some ctg_start) ctg_end ({[center]} ∪ b_pos_set st)
      (<[center := variant_type_of row]> (b_type_dict st)).

(** The candidates read from a BED: [ctg_start], [ctg_end],
    [candidates_pos_set] after the range filter, and
    [candidates_type_dict]. *)
Definition read_candidates_bed (ctg_name : string) (rows : list bed_row)
  : bound * Z * gset Z * gmap Z string :=
  let st := fold_left (bed_step ctg_name) rows (mkBedState None 0 ∅ ∅) in
  match b_ctg_start st with
  | Some s =>
      (BInt s, b_ctg_end st,
       filter (λ item, s ≤ item ∧ item ≤ b_ctg_end st) (b_pos_set st),
       b_type_dict st)
  | None =>
      (BInf, b_ctg_end st, filter (λ item : Z, False) (b_pos_set st),
       b_type_dict st)
  end.

(** [contig_length]: the size the [.fai] file gives for the contig (that of
    its last row naming it), 0 when no row names it. *)
Definition contig_length_of (ctg_name : string) (fai : list (string * Z)) : Z :=
  fold_left (λ contig_length (columns : string * Z),
               if negb (String.eqb columns.1 ctg_name) then contig_length
               else columns.2)
            fai 0.

(** [chunk_size]; [None] stands for the [ZeroDivisionError] of a
    [chunk_num] of 0. *)
Definition chunk_size (contig_length chunk_num : Z) : option Z :=
  if chunk_num =? 0 then None
  else Some (if negb (contig_length mod chunk_num =? 0)
             then contig_length / chunk_num + 1
             else contig_length / chunk_num).

(** The whole-genome branch: [(ctg_start, ctg_end)] of the chunk
    [chunk_id] (0-based). *)
Definition chunk_range (chunk_id contig_length chunk_num : Z) : option (Z * Z) :=
  size ← chunk_size contig_length chunk_num;
  let ctg_start := size * chunk_id in
  Some (ctg_start, ctg_start + size).

(** A line of the known-variants VCF as [vcf_candidates_from] of
    [shared/utils.py] reads it: a line with [row[0] == '#'], or a line
    whose first two columns are the contig and [int(columns[1])]. *)
Inductive known_row : Type :=
| KnownHeader
| KnownData (ctg_name : string) (center_pos : Z).

(** [contig_name and ctg_name != contig_name]: an empty [contig_name] is
    as good as none. *)
Definition other_known_contig (contig_name : option string) (ctg_name : string)
  : bool :=
  match contig_name with
  | Some c => negb (String.eqb c "") && negb (String.eqb ctg_name c)
  | None => false
  end.

(** [vcf_candidates_from]: [sorted(list(known_variants_set))]. *)
Definition vcf_candidates_from (rows : list known_row) (contig_name : option string)
  : list Z :=
  let known_variants_set : gset Z :=
    fold_left (λ (known_variants_set : gset Z) row,
                 match row with
                 | KnownHeader => known_variants_set
                 | KnownData ctg_name center_pos =>
                     if other_known_contig contig_name ctg_name
                     then known_variants_set
                     else {[center_pos]} ∪ known_variants_set
                 end)
              rows ∅ in
  merge_sort (≤) (elements known_variants_set).

(** [update_hetero_ref]: [(ref_seq, alt_seq)]. *)
Definition update_hetero_ref (pos : Z) (reference_sequence : string)
    (reference_start extend_bp : Z) (alt_base : string) : string * string :=
  let ref_start := pos - extend_bp in
  let ref_end := pos + extend_bp + 1 in
  let ref_seq :=
    Py.slice reference_sequence (ref_start - reference_start)
      (ref_end - reference_start) in
  let alt_seq :=
    (Py.slice ref_seq 0 extend_bp ++ alt_base
     ++ Py.slice ref_seq (extend_bp + 1) (Z.of_nat (String.length ref_seq)))%string in
  (ref_seq, alt_seq).

End Setup.

(** ** The main loop of [create_pair_tensor] *)

Module Pipeline.

Import Tensor.

(** The dictionaries and the generator state that the loop body reads and
    writes. *)
Record store (F G : Type) : Type := mkStore {
  normal_pileup_dict : gmap Z (Position F);
  tumor_pileup_dict : gmap Z (Position F);
  normal_hap_dict : gmap string Z;
  tumor_hap_dict : gmap string Z;
  haplotag_dict : gmap string Z;
  rng : G
}.
Arguments mkStore {F G}.
Arguments normal_pileup_dict {F G} _.
Arguments tumor_pileup_dict {F G} _.
Arguments normal_hap_dict {F G} _.
Arguments tumor_hap_dict {F G} _.
Arguments haplotag_dict {F G} _.
Arguments rng {F G} _.

(** The arguments of the run that the loop body uses. *)
Record args : Type := mkArgs {
  mask_low_bq : bool;
  tensor_sample_mode : bool;
  arg_ctg_name : string;
  arg_platform : string;
  arg_reference_sequence : string;
  arg_reference_start : Z;
  confident_bed_tree : IntervalTree.bed_tree;
  arg_candidates_type_dict : gmap Z string;
  truths_variant_dict : gset Z
}.

(** One line written to the output: the fields of the format string. *)
Record tensor_record : Type := mkRecord {
  rec_ctg_name : string;
  rec_pos : Z;
  rec_ref_seq : string;
  rec_normal_tensor : string;
  rec_normal_alt_info : string;
  rec_tumor_tensor : string;
  rec_tumor_alt_info : string;
  rec_variant_type : string
}.

(** A value of [tensor_infos_dict]: [(tensor_string_list, alt_info_list)]. *)
Definition tensor_infos : Type := list string * list string.

(** [get_key_list]: the tumor entries are read at [normal_idx], as in the
    source. *)
Definition get_key_list (input_dict : list (string * tensor_infos))
    (normal_tensor_infos_dict tumor_tensor_infos_dict : tensor_infos)
  : Py.result (list (string * string * string * string)) :=
  n ← Py.of_option Py.KeyError (Py.dict_get input_dict "normal"%string);
  t ← Py.of_option Py.KeyError (Py.dict_get input_dict "tumor"%string);
  let normal_index_list := seq 0 (length n.1) in
  let tumor_index_list := seq 0 (length t.1) in
  Py.foldM
    (λ acc '(normal_idx, tumor_idx),
       normal_tensor ← list_get normal_tensor_infos_dict.1 normal_idx;
       normal_alt_info ← list_get normal_tensor_infos_dict.2 normal_idx;
       tumor_tensor ← list_get tumor_tensor_infos_dict.1 normal_idx;
       tumor_alt_info ← list_get tumor_tensor_infos_dict.2 normal_idx;
       Py.Ok (acc ++ [(normal_tensor, normal_alt_info, tumor_tensor, tumor_alt_info)]))
    []
    (list_prod normal_index_list tumor_index_list).

Section Body.
Context {F G : Type} `{PyFloat F} `{PyRandom G} (P : param F) (T : create_tensor)
        (A : args).

(** One iteration of the inner loop over [(normal, tumor)]: the store and
    [tensor_infos_dict] after it. *)
Definition sample_step (pos : Z) (ref_seq : string)
    (st : store F G * list (string * tensor_infos)) (is_tumor : bool)
  : Py.result (store F G * list (string * tensor_infos)) :=
  let '(s, tensor_infos_dict) := st in
  let pileup_dict := if is_tumor then tumor_pileup_dict s else normal_pileup_dict s in
  let tumor_flag := (if is_tumor then "tumor" else "normal")%string in
  let use_tensor_sample_mode :=
    tensor_sample_mode A
    && String.eqb (default EmptyString (arg_candidates_type_dict A !! pos)) "homo_somatic"
    && bool_decide (pos ∈ truths_variant_dict A) in
  max_depth ← Py.of_option Py.KeyError
    (if is_tumor then tumor_matrix_depth_dict P (arg_platform A)
     else normal_matrix_depth_dict P (arg_platform A));
  let hap_dict := if is_tumor then tumor_hap_dict s else normal_hap_dict s in
  '(sorted_read_name_list, g) ←
    sorted_by_hap_read_name P (rng s) pos (haplotag_dict s) pileup_dict hap_dict
      max_depth use_tensor_sample_mode;
  '(pileup_dict, out) ←
    generate_tensor P T (mask_low_bq A) (arg_ctg_name A) pos sorted_read_name_list
      pileup_dict ref_seq (arg_reference_sequence A) (arg_reference_start A)
      (arg_platform A) (confident_bed_tree A) is_tumor hap_dict;
  let s :=
    if is_tumor
    then mkStore (normal_pileup_dict s) pileup_dict (normal_hap_dict s)
           (tumor_hap_dict s) (haplotag_dict s) g
    else mkStore pileup_dict (tumor_pileup_dict s) (normal_hap_dict s)
           (tumor_hap_dict s) (haplotag_dict s) g in
  match out with
  | None => Py.Ok (s, tensor_infos_dict)
  | Some (tensor, alt_info) =>
      Py.Ok (s, Py.dict_set tensor_infos_dict tumor_flag
                  ([tensor_string tensor], [alt_info]))
  end.

(** The body of [for pos in heapq_merge_generator_from(...)]: the store
    it leaves and the records it writes. *)
Definition emit_position (s : store F G) (pos : Z)
  : Py.result (store F G * list tensor_record) :=
  if negb (bool_decide (is_Some (normal_pileup_dict s !! pos)))
     || negb (bool_decide (is_Some (tumor_pileup_dict s !! pos)))
  then Py.Ok (s, [])
  else
    let ref_seq :=
      Py.upper
        (Py.slice (arg_reference_sequence A)
           (pos - arg_reference_start A - flankingBaseNum P)
           (pos - arg_reference_start A + flankingBaseNum P + 1)) in
    let variant_type :=
      default "unknown"%string (arg_candidates_type_dict A !! pos) in
    '(s, tensor_infos_dict) ←
      Py.foldM (sample_step pos ref_seq) (s, []) [false; true];
    normal ← Py.of_option Py.KeyError (Py.dict_get tensor_infos_dict "normal"%string);
    tumor ← Py.of_option Py.KeyError (Py.dict_get tensor_infos_dict "tumor"%string);
    keys ← get_key_list tensor_infos_dict normal tumor;
    Py.Ok (s, map (λ '(normal_tensor_string, normal_alt_info,
                       tumor_tensor_string, tumor_alt_info),
                     mkRecord (arg_ctg_name A) pos ref_seq normal_tensor_string
                       normal_alt_info tumor_tensor_string tumor_alt_info
                       variant_type)
                  keys).

(** The loop over a list of positions, the store not being touched by
    the generators in between. *)
Fixpoint emit_positions (s : store F G) (positions : list Z)
  : Py.result (store F G * list tensor_record) :=
  match positions with
  | [] => Py.Ok (s, [])
  | pos :: rest =>
      '(s, out) ← emit_position s pos;
      '(s, outs) ← emit_positions s rest;
      Py.Ok (s, out ++ outs)
  end.
End Body.

End Pipeline.

(** ** Heterozygous SNP selection: [select_hetero_snp_for_phasing] *)

Module HetSnp.

(** One line of a VCF stream after [rstrip]: a header line, or a record
    with the columns the function reads.  [v_qual] is [float(columns[5])],
    [None] when the text is not a number. *)
Inductive vcf_line (F : Type) : Type :=
| Header (row : string)
| Data (row : string) (ctg_name : string) (pos : Z) (ref_base alt_base : string)
       (qual : option F) (sample : string).
Arguments Header {F} row.
Arguments Data {F} row ctg_name pos ref_base alt_base qual sample.

(** [s.split(':')[0]]. *)
Definition before_colon (s : string) : string :=
  match Py.split ":" s with
  | x :: _ => x
  | [] => EmptyString
  end.

(** [s.replace('|', '/')]. *)
Fixpoint replace_bar (s : string) : string :=
  match s with
  | EmptyString => EmptyString
  | String c s' => String (if Ascii.eqb c "|" then "/"%char else c) (replace_bar s')
  end.

Definition genotype_of (sample : string) : string := replace_bar (before_colon sample).

(** [len(ref_base) == 1 and len(alt_base) == 1] and a heterozygous
    genotype. *)
Definition is_het_snp (ref_base alt_base sample : string) : bool :=
  (String.length ref_base =? 1)%nat && (String.length alt_base =? 1)%nat
  && (String.eqb (genotype_of sample) "0/1" || String.eqb (genotype_of sample) "1/0").

(** [contig_name and contig_name != ctg_name]. *)
Definition other_contig (contig_name : option string) (ctg_name : string) : bool :=
  match contig_name with
  | None => false
  | Some c => negb (String.eqb c EmptyString) && negb (String.eqb c ctg_name)
  end.

(** The header lines of a VCF stream, in order. *)
Definition header_rows {F : Type} (lines : list (vcf_line F)) : list string :=
  omap (λ line, match line with Header row => Some row | Data _ _ _ _ _ _ _ => None end)
       lines.

(** [l[:k]] for any integer [k]. *)
Definition take_py {A : Type} (k : Z) (l : list A) : list A :=
  if k <? 0 then take (length l - Z.to_nat (- k)) l else take (Z.to_nat k) l.

Section Select.
Context {F : Type} `{PyFloat F}.

(** The value [[ref_base, alt_base, qual, row]] of [variant_dict]. *)
Definition variant : Type := string * string * F * string.

Record normal_state : Type := mkNormal {
  header : list string;
  normal_qual_dict : list (Z * F);
  variant_dict : list (Z * variant)
}.

(** One iteration of the loop over the normal VCF. *)
Definition normal_step (contig_name : option string) (st : normal_state)
    (line : vcf_line F) : Py.result normal_state :=
  match line with
  | Header row =>
      Py.Ok (mkNormal (header st ++ [(row ++ String "010" EmptyString)%string])
               (normal_qual_dict st) (variant_dict st))
  | Data row ctg_name pos ref_base alt_base qual sample =>
      if other_contig contig_name ctg_name then Py.Ok st
      else if is_het_snp ref_base alt_base sample then
        qual ← Py.of_option Py.ValueError qual;
        Py.Ok (mkNormal (header st)
                 (Py.dict_set (normal_qual_dict st) pos qual)
                 (Py.dict_set (variant_dict st) pos (ref_base, alt_base, qual, row)))
      else Py.Ok st
  end.

Record tumor_state : Type := mkTumor {
  tumor_qual_dict : list (Z * F);
  tumor_variant_dict : gmap Z string;
  intersect_pos_set : gset Z;
  hetero_snp_not_found_in_tumor : Z;
  hetero_snp_not_match_in_tumor : Z
}.

(** A line that is a heterozygous single-base call on the contig at
    hand, with the fields it carries. *)
Definition het_call (contig_name : option string) (line : vcf_line F) (pos : Z)
    (ref_base alt_base : string) (qual : F) (row : string) : Prop :=
  ∃ ctg_name sample,
    line = Data row ctg_name pos ref_base alt_base (Some qual) sample
    ∧ other_contig contig_name ctg_name = false
    ∧ is_het_snp ref_base alt_base sample = true.

(** One iteration of the loop over the tumor VCF. *)
Definition tumor_step (contig_name : option string) (min_qual : F)
    (variant_dict : list (Z * variant)) (st : tumor_state) (line : vcf_line F)
  : Py.result tumor_state :=
  match line with
  | Header _ => Py.Ok st
  | Data row ctg_name pos ref_base alt_base qual sample =>
      if other_contig contig_name ctg_name then Py.Ok st
      else if is_het_snp ref_base alt_base sample then
        qual ← Py.of_option Py.ValueError qual;
        let tumor_qual_dict := Py.dict_set (tumor_qual_dict st) pos qual in
        if negb (Py.dict_mem variant_dict pos) && fltb qual min_qual then
          Py.Ok (mkTumor tumor_qual_dict (tumor_variant_dict st)
                   (intersect_pos_set st)
                   (hetero_snp_not_found_in_tumor st + 1)
                   (hetero_snp_not_match_in_tumor st))
        else
          let mismatch :=
            match Py.dict_get variant_dict pos with
            | Some (tumor_ref_base, tumor_alt_base, _, _) =>
                negb (String.eqb tumor_ref_base ref_base)
                || negb (String.eqb tumor_alt_base alt_base)
            | None => false
            end in
          if mismatch then
            Py.Ok (mkTumor tumor_qual_dict (tumor_variant_dict st)
                     (intersect_pos_set st)
                     (hetero_snp_not_found_in_tumor st)
                     (hetero_snp_not_match_in_tumor st + 1))
          else
            Py.Ok (mkTumor tumor_qual_dict (<[pos := row]> (tumor_variant_dict st))
                     ({[pos]} ∪ intersect_pos_set st)
                     (hetero_snp_not_found_in_tumor st)
                     (hetero_snp_not_match_in_tumor st))
      else Py.Ok st
  end.

(** [sorted(items, key=lambda x: x[1])]: stable, lowest quality first. *)
Fixpoint insert_qual (x : Z * F) (l : list (Z * F)) : list (Z * F) :=
  match l with
  | [] => [x]
  | y :: l' => if fltb y.2 x.2 then y :: insert_qual x l' else x :: y :: l'
  end.

Fixpoint sorted_qual (l : list (Z * F)) : list (Z * F) :=
  match l with
  | [] => []
  | x :: l' => insert_qual x (sorted_qual l')
  end.

(** The set of the [int(var_pct_full * len(d))] lowest-quality positions
    of a quality dictionary. *)
Definition low_qual_set (var_pct_full : F) (qual_dict : list (Z * F)) : gset Z :=
  list_to_set
    (map fst (take_py (fmul_trunc var_pct_full (Z.of_nat (length qual_dict)))
                      (sorted_qual qual_dict))).

(** The result of the run: the dictionaries, the selected records and the
    lines written to the output file. *)
Record selection : Type := mkSelection {
  sel_normal : normal_state;
  sel_tumor : tumor_state;
  normal_low_qual_set : gset Z;
  tumor_low_qual_set : gset Z;
  pass_variant_dict : gmap Z string;
  low_qual_count : nat;
  output_lines : list string
}.

Definition select_hetero_snp_for_phasing (var_pct_full min_qual : F)
    (contig_name : option string) (normal_vcf tumor_vcf : list (vcf_line F))
  : Py.result selection :=
  n ← Py.foldM (normal_step contig_name) (mkNormal [] [] []) normal_vcf;
  t ← Py.foldM (tumor_step contig_name min_qual (variant_dict n))
        (mkTumor [] ∅ ∅ 0 0) tumor_vcf;
  let normal_low := low_qual_set var_pct_full (normal_qual_dict n) in
  let tumor_low := low_qual_set var_pct_full (tumor_qual_dict t) in
  let low (pos : Z) : Prop := pos ∈ normal_low ∨ pos ∈ tumor_low in
  let passing := filter (λ pos, ¬ low pos) (elements (intersect_pos_set t)) in
  let pass :=
    list_to_map
      (omap (λ pos, row ← tumor_variant_dict t !! pos; Some (pos, row)) passing) in
  let rows :=
    omap (λ pos, (pass : gmap Z string) !! pos)
         (merge_sort (≤) (elements (dom pass))) in
  Py.Ok (mkSelection n t normal_low tumor_low pass
           (length (filter low (elements (intersect_pos_set t))))
           (header n ++ map (λ row, (row ++ String "010" EmptyString)%string) rows)).
End Select.

End HetSnp.

(** ** [FilterRef.py]: the positions written by [cal_homo] *)

Module FilterRef.

(** The file [reference_cans] and the counters of [cal_homo]. *)
Record homo_state : Type := mkHomo {
  reference_cans : list string;
  match_count : Z;
  pos_in_normal_truth : Z;
  pos_in_tumor_truth : Z;
  pos_in_normal_truth_and_tumor_truth : Z
}.

(** The line written for a position. *)
Definition cans_line (tumor_sample contig_name : string) (pos : Z) : string :=
  (Py.join (String "009" EmptyString) [tumor_sample; contig_name; Py.str pos]
   ++ String "010" EmptyString)%string.

(** The body of [for pos in sorted(list(tumor_pos_set))].  Of the two
    dictionaries of truth variants only the keys are read. *)
Definition cal_homo_step (tumor_sample contig_name : string) (add_truths : bool)
    (normal_unified_variant_dict unified_variant_dict : gset Z)
    (st : homo_state) (pos : Z) : homo_state :=
  let st :=
    if bool_decide (pos ∈ normal_unified_variant_dict) then
      let st :=
        mkHomo (reference_cans st) (match_count st) (pos_in_normal_truth st + 1)
          (pos_in_tumor_truth st) (pos_in_normal_truth_and_tumor_truth st) in
      if bool_decide (pos ∈ unified_variant_dict) then
        mkHomo (reference_cans st) (match_count st) (pos_in_normal_truth st)
          (pos_in_tumor_truth st + 1) (pos_in_normal_truth_and_tumor_truth st + 1)
      else st
    else st in
  let st :=
    if bool_decide (pos ∈ unified_variant_dict) then
      mkHomo (reference_cans st) (match_count st) (pos_in_normal_truth st)
        (pos_in_tumor_truth st + 1) (pos_in_normal_truth_and_tumor_truth st)
    else st in
  if bool_decide (pos ∈ unified_variant_dict) && negb add_truths then st
  else
    mkHomo (reference_cans st ++ [cans_line tumor_sample contig_name pos])
      (match_count st + 1) (pos_in_normal_truth st) (pos_in_tumor_truth st)
      (pos_in_normal_truth_and_tumor_truth st).

(** The loop of [cal_homo] over the tumor positions. *)
Definition cal_homo_loop (tumor_sample contig_name : string) (add_truths : bool)
    (normal_unified_variant_dict unified_variant_dict tumor_pos_set : gset Z)
  : homo_state :=
  fold_left (cal_homo_step tumor_sample contig_name add_truths
               normal_unified_variant_dict unified_variant_dict)
            (merge_sort (≤) (elements tumor_pos_set))
            (mkHomo [] 0 0 0 0).

End FilterRef.

(** ** Concrete instances used to evaluate the model *)

Module Examples.

Import Tensor Generator Pipeline.

(** A stand-in for the [random] module: the state counts the calls made
    since seeding, and a sample is the start of a rotation of the
    population.  It has the contract of [random.sample], which is all the
    development uses. *)
#[global] Instance PyRandom_rotate : PyRandom nat := {
  seed n := Z.to_nat (Z.abs n);
  sample g n k := (take k (rotate (g + 3) (seq 0 n)), S g)
}.

(** A small platform profile: [F = 2], so windows are five positions wide,
    eight channels, and matrix depths 4 (normal) and 3 (tumor). *)
Definition ex_param : param Q := {|
  no_of_positions := 5;
  flankingBaseNum := 2;
  channel_size := 8;
  extend_bp := 1;
  min_af := (1 # 20)%Q;
  min_af_dict := λ _, Some (1 # 20)%Q;
  ont_input_shape := (4, 5, 8);
  input_shape := (4, 5, 8);
  tumor_matrix_depth_dict := λ _, Some 3;
  normal_matrix_depth_dict := λ _, Some 4
|}.

(** Modelled from the spec: the tables of [src/create_tensor.py], which is
    missing from the sources.  The spec gives the base codes
    [{A→1, C→2, G→3, T→4}], the strand codes (0 forward, 1 reverse) and the
    normal haplotype codes [{hap0→60, hap1→30, hap2→90}]; the codes of
    ['+'], ['-'], ['*'], ['#'] and ['N'], the tumor haplotype codes and the
    quality normalisations are not given there and are fixed here. *)
Definition ex_tables : create_tensor := {|
  NORMAL_HAP_TYPE := λ hp,
    if hp =? 0 then Some 60 else if hp =? 1 then Some 30
    else if hp =? 2 then Some 90 else None;
  TUMOR_HAP_TYPE := λ hp,
    if hp =? 0 then Some 65 else if hp =? 1 then Some 35
    else if hp =? 2 then Some 95 else None;
  ACGT_NUM := λ c,
    if Ascii.eqb c "A" then Some 1 else if Ascii.eqb c "C" then Some 2
    else if Ascii.eqb c "G" then Some 3 else if Ascii.eqb c "T" then Some 4
    else if Ascii.eqb c "+" then Some 5 else if Ascii.eqb c "-" then Some 6
    else if Ascii.eqb c "*" then Some 7 else if Ascii.eqb c "#" then Some 7
    else if Ascii.eqb c "N" then Some 8 else None;
  STRAND_0 := 0;
  STRAND_1 := 1;
  normalize_bq := λ x _, Z.min x 40;
  normalize_mq := λ x, Z.min x 60
|}.

(** A run on contig ["chr1"], reference positions 1 to 20, with no
    candidate BED, no known VCF and no extend BED. *)
Definition ex_env : env Q := {|
  candidates_pos_set := ∅;
  candidates_type_dict := ∅;
  is_extend_bed_file_given := false;
  extend_bed_tree := [];
  ctg_name := "chr1";
  ctg_start := BNone;
  ctg_end := None;
  reference_sequence := "ACGTACGTACGTACGTACGT";
  reference_start := 1;
  minimum_snv_af_for_candidate := (1 # 20)%Q;
  minimum_indel_af_for_candidate := (1 # 20)%Q;
  min_coverage := 2%Q;
  platform := "ont";
  is_known_vcf_file_provided := false;
  known_variants_set := ∅
|}.

(** The same run with the candidate positions 12 and 9 read from a BED. *)
Definition ex_env_candidates : env Q := {|
  candidates_pos_set := {[12; 9]};
  candidates_type_dict := {[12 := "unknown"%string; 9 := "unknown"%string]};
  is_extend_bed_file_given := false;
  extend_bed_tree := [];
  ctg_name := "chr1";
  ctg_start := BNone;
  ctg_end := None;
  reference_sequence := "ACGTACGTACGTACGTACGT";
  reference_start := 1;
  minimum_snv_af_for_candidate := (1 # 20)%Q;
  minimum_indel_af_for_candidate := (1 # 20)%Q;
  min_coverage := 2%Q;
  platform := "ont";
  is_known_vcf_file_provided := false;
  known_variants_set := ∅
|}.

(** A pileup column of four reads: a read that starts here with mapping
    quality ['+'] and ends here, a read with the insertion [AC], a read
    with the deletion of one base, and a deleted base. *)
Definition ex_column : list Decode.column_read := [
  Decode.mkColumnRead (Some "+"%char) "A" None true;
  Decode.mkColumnRead None "c" (Some ("+"%char, "2"%string, "AC"%string)) false;
  Decode.mkColumnRead None "G" (Some ("-"%char, "1"%string, "t"%string)) false;
  Decode.mkColumnRead None "*" None false
].

(** A pileup line with every base quality and mapping quality ['I']. *)
Definition ex_row (pos : Z) (bases names : string) : row :=
  mkRow pos bases "IIII" "IIII" names None.

(** The tumor stream: two reads over positions 8 to 18; at position 10
    read [t1] carries the insertion [+2AC]. *)
Definition ex_tumor_rows : list row := [
  ex_row 8 "TT" "t1,t2"; ex_row 9 "AA" "t1,t2"; ex_row 10 "C+2ACC" "t1,t2";
  ex_row 11 "GG" "t1,t2"; ex_row 12 "TT" "t1,t2"; ex_row 13 "AA" "t1,t2";
  ex_row 14 "CC" "t1,t2"; ex_row 15 "GG" "t1,t2"; ex_row 16 "TT" "t1,t2";
  ex_row 17 "AA" "t1,t2"; ex_row 18 "CC" "t1,t2"
].

(** The normal stream: three reads over the same positions; at position 10
    read [n3] shows an [A]. *)
Definition ex_normal_rows : list row := [
  ex_row 8 "TTT" "n1,n2,n3"; ex_row 9 "AAA" "n1,n2,n3"; ex_row 10 "CCA" "n1,n2,n3";
  ex_row 11 "GGG" "n1,n2,n3"; ex_row 12 "TTT" "n1,n2,n3"; ex_row 13 "AAA" "n1,n2,n3";
  ex_row 14 "CCC" "n1,n2,n3"; ex_row 15 "GGG" "n1,n2,n3"; ex_row 16 "TTT" "n1,n2,n3";
  ex_row 17 "AAA" "n1,n2,n3"; ex_row 18 "CCC" "n1,n2,n3"
].


(** The state of a generator that has read the lines up to and including
    position [last] and stands at the [yield] reached on that line, if
    any. *)
Definition ex_gstate (is_tumor : bool) (rows : list row) (last : Z) : gstate Q :=
  let st0 := start ex_env ∅ ∅ in
  match feed ex_param ex_env is_tumor false st0
          (filter (λ r, row_pos r <? last) rows) with
  | (_, Py.Ok st) =>
      match filter (λ r, row_pos r =? last) rows with
      | r :: _ =>
          match process_row ex_param ex_env is_tumor false st r with
          | Py.Ok (Skipped st') | Py.Ok (Stored st') | Py.Ok (Yielded st' _) => st'
          | Py.Raise _ => st
          end
      | [] => st
      end
  | (_, Py.Raise _) => st0
  end.

(** The window dictionary of that state. *)
Definition ex_window (is_tumor : bool) (rows : list row) (last : Z)
  : gmap Z (Position Q) :=
  pileup_dict (ex_gstate is_tumor rows last).

(** The store when the merged stream hands position 10 to the main loop:
    the normal generator has read all its lines, the tumor generator is
    suspended at the [yield] it reached on the line of position 17. *)
Definition ex_store : store Q nat :=
  mkStore (ex_window false ex_normal_rows 18) (ex_window true ex_tumor_rows 17)
    ∅ ∅ ∅ 0%nat.

(** A confident BED that covers positions 100 to 199 of the contig only. *)
Definition ex_far_bed : IntervalTree.bed_tree := [("chr1"%string, [(100, 200)])].

(** Two VCF streams on one contig: the normal one has heterozygous calls at
    100 (A>G, quality 30) and 200 (A>C, quality 5), the tumor one at 100
    (A>G, quality 25) and 200 (A>T, quality 20). *)
Definition ex_normal_vcf : list (HetSnp.vcf_line Q) := [
  HetSnp.Header "##fileformat=VCFv4.2";
  HetSnp.Data "chr1 100 . A G 30 PASS . GT 0/1" "chr1" 100 "A" "G" (Some 30%Q) "0/1";
  HetSnp.Data "chr1 200 . A C 5 PASS . GT 0|1" "chr1" 200 "A" "C" (Some 5%Q) "0|1"
].

Definition ex_tumor_vcf : list (HetSnp.vcf_line Q) := [
  HetSnp.Header "##fileformat=VCFv4.2";
  HetSnp.Data "chr1 100 . A G 25 PASS . GT:GQ 0/1:40" "chr1" 100 "A" "G" (Some 25%Q)
    "0/1:40";
  HetSnp.Data "chr1 200 . A T 20 PASS . GT 1/0" "chr1" 200 "A" "T" (Some 20%Q) "1/0"
].

Definition ex_args (bed : IntervalTree.bed_tree) : args := {|
  mask_low_bq := false;
  tensor_sample_mode := false;
  arg_ctg_name := "chr1";
  arg_platform := "ont";
  arg_reference_sequence := "ACGTACGTACGTACGTACGT";
  arg_reference_start := 1;
  confident_bed_tree := bed;
  arg_candidates_type_dict := ∅;
  truths_variant_dict := ∅
|}.

End Examples.

(** * Facts about the Python layer *)

Module PyFacts.
Import Py.

Lemma bind_Ok {A B : Type} (m : result A) (k : A → result B) (b : B) :
  m ≫= k = Ok b ↔ ∃ a, m = Ok a ∧ k a = Ok b.
Proof.
  unfold mbind, result_bind, bind. destruct m as [a|e]; split.
  - eauto.
  - by intros (a' & [= ->] & ?).
  - discriminate.
  - by intros (a' & [=] & ?).
Qed.

Lemma bind_Raise {A B : Type} (m : result A) (k : A → result B) (e : exn) :
  m ≫= k = Raise e ↔ m = Raise e ∨ ∃ a, m = Ok a ∧ k a = Raise e.
Proof.
  unfold mbind, result_bind, bind. destruct m as [a|e']; split.
  - eauto.
  - intros [[=]|(a' & [= ->] & ?)]; done.
  - intros [= ->]. by left.
  - intros [[= ->]|(a' & [=] & ?)]; done.
Qed.

Lemma of_option_Ok {A : Type} (e : exn) (o : option A) (a : A) :
  of_option e o = Ok a ↔ o = Some a.
Proof. destruct o; simpl; split; congruence. Qed.

(** An invariant kept by every iteration is kept by the loop. *)
Lemma foldM_inv {A S : Type} (I : S → Prop) (f : S → A → result S) (l : list A) :
  (∀ s x s', x ∈ l → I s → f s x = Ok s' → I s') →
  ∀ s s', I s → foldM f s l = Ok s' → I s'.
Proof.
  induction l as [|x l IH]; intros Hstep s s' Hs; simpl.
  - by intros [= <-].
  - unfold bind. destruct (f s x) as [s1|] eqn:E; [|discriminate].
    apply IH; [|eauto using list_elem_of_here].
    intros ???? ; apply Hstep. by right.
Qed.

Lemma foldM_cons {A S : Type} (f : S → A → result S) (x : A) (l : list A) (s : S) :
  foldM f s (x :: l) = f s x ≫= λ s', foldM f s' l.
Proof. done. Qed.

Lemma foldM_two {A S : Type} (f : S → A → result S) (a b : A) (s st : S) :
  foldM f s [a; b] = Ok st ↔ ∃ s1, f s a = Ok s1 ∧ f s1 b = Ok st.
Proof.
  rewrite foldM_cons, bind_Ok. split.
  - intros (s1 & H1 & H2). rewrite foldM_cons, bind_Ok in H2.
    destruct H2 as (s2 & H2 & [= <-]). eauto.
  - intros (s1 & H1 & H2). exists s1. split; [done|].
    rewrite foldM_cons, bind_Ok. eauto.
Qed.

Lemma foldM_app {A S : Type} (f : S → A → result S) (l1 l2 : list A) (s : S) :
  foldM f s (l1 ++ l2) = bind (foldM f s l1) (λ s', foldM f s' l2).
Proof.
  revert s. induction l1 as [|x l1 IH]; intros s; simpl; [done|].
  unfold bind at 1 3. destruct (f s x); [apply IH|done].
Qed.

(** A loop whose iterations all return returns. *)
Lemma foldM_total {A S : Type} (I : S → Prop) (f : S → A → result S) (l : list A) :
  (∀ s x, x ∈ l → I s → ∃ s', f s x = Ok s' ∧ I s') →
  ∀ s, I s → ∃ s', foldM f s l = Ok s' ∧ I s'.
Proof.
  induction l as [|x l IH]; intros Hstep s Hs; simpl; [eauto|].
  destruct (Hstep s x) as (s1 & -> & Hs1); [by left|done|]. simpl.
  apply IH; [|done]. intros ????. apply Hstep; [by right|done].
Qed.

Lemma range_length a b : length (range a b) = Z.to_nat (b - a).
Proof. unfold range. by rewrite length_map, length_seq. Qed.

Lemma lookup_range a b (i : nat) :
  (i < Z.to_nat (b - a))%nat → range a b !! i = Some (a + Z.of_nat i).
Proof.
  intros Hi. unfold range. rewrite list_lookup_fmap, lookup_seq_lt by done. done.
Qed.

Lemma elem_of_range a b x : x ∈ range a b ↔ a ≤ x < b.
Proof.
  unfold range. rewrite list_elem_of_fmap. split.
  - intros (i & -> & Hi). apply elem_of_seq in Hi. lia.
  - intros Hx. exists (Z.to_nat (x - a)). split; [lia|]. apply elem_of_seq. lia.
Qed.

Lemma range_NoDup a b : NoDup (range a b).
Proof.
  unfold range. apply NoDup_fmap_2; [|apply NoDup_seq].
  intros i j Hij. lia.
Qed.

Lemma range_cons a b : a < b → range a b = a :: range (a + 1) b.
Proof.
  intros Hab. unfold range.
  replace (Z.to_nat (b - a)) with (S (Z.to_nat (b - (a + 1)))) by lia.
  simpl. f_equal; [lia|]. rewrite <- fmap_S_seq, <- list_fmap_compose.
  apply list_fmap_ext. intros ? i ?. simpl. lia.
Qed.

Lemma range_nil a b : b ≤ a → range a b = [].
Proof. intros. unfold range. replace (Z.to_nat (b - a)) with 0%nat by lia. done. Qed.

Lemma range_split a b p : a ≤ p < b → range a b = range a p ++ p :: range (p + 1) b.
Proof.
  intros Hp. remember (Z.to_nat (p - a)) as k eqn:Hk.
  revert a Hp Hk. induction k as [|k IH]; intros a Hp Hk.
  - assert (a = p) as -> by lia. rewrite (range_nil p p) by lia.
    simpl. apply range_cons. lia.
  - rewrite (range_cons a b), (range_cons a p) by lia. simpl. f_equal.
    apply IH; lia.
Qed.

(** [fromkeys] keeps one copy of every element, in order of first
    appearance. *)
Lemma fromkeys_aux_spec {K : Type} `{EqDecision K} (l : list K) : ∀ seen,
  NoDup (fromkeys_aux seen l)
  ∧ (∀ x, x ∈ fromkeys_aux seen l ↔ x ∈ l ∧ x ∉ seen)
  ∧ fromkeys_aux seen l `sublist_of` l.
Proof.
  induction l as [|x l IH]; intros seen; simpl.
  - split_and!; [constructor|set_solver|constructor].
  - case_bool_decide as Hx.
    + destruct (IH seen) as (Hnd & Hin & Hsub). split_and!; [done| |by constructor].
      intros y. rewrite Hin. set_solver.
    + destruct (IH (x :: seen)) as (Hnd & Hin & Hsub). split_and!.
      * constructor; [|done]. rewrite Hin. set_solver.
      * intros y. rewrite elem_of_cons, Hin. split.
        -- intros [->|[? ?]]; set_solver.
        -- intros [Hy Hs]. apply elem_of_cons in Hy as [->|Hy]; [by left|].
           destruct (decide (y = x)) as [->|]; [by left|right]. set_solver.
      * by constructor.
Qed.

Lemma fromkeys_NoDup {K : Type} `{EqDecision K} (l : list K) : NoDup (fromkeys l).
Proof. apply fromkeys_aux_spec. Qed.

Lemma elem_of_fromkeys {K : Type} `{EqDecision K} (l : list K) x :
  x ∈ fromkeys l ↔ x ∈ l.
Proof. unfold fromkeys. rewrite (proj1 (proj2 (fromkeys_aux_spec l []))). set_solver. Qed.

Lemma dict_get_set_eq {K V : Type} `{EqDecision K} (d : list (K * V)) k v :
  dict_get (dict_set d k v) k = Some v.
Proof.
  induction d as [|[k' v'] d IH]; simpl.
  - by rewrite decide_True.
  - destruct (decide (k' = k)); simpl; [by rewrite decide_True|by rewrite decide_False].
Qed.

Lemma dict_get_set_ne {K V : Type} `{EqDecision K} (d : list (K * V)) k k' v :
  k ≠ k' → dict_get (dict_set d k v) k' = dict_get d k'.
Proof.
  intros Hne. induction d as [|[k1 v1] d IH]; simpl.
  - by rewrite decide_False.
  - destruct (decide (k1 = k)) as [->|]; simpl.
    + by rewrite !decide_False.
    + destruct (decide (k1 = k')); [done|apply IH].
Qed.

Lemma dict_set_keys_NoDup {K V : Type} `{EqDecision K} (d : list (K * V)) k v :
  NoDup (d.*1) → NoDup ((dict_set d k v).*1).
Proof.
  induction d as [|[k1 v1] d IH]; simpl.
  - intros _. constructor; [set_solver|constructor].
  - intros [Hk1 Hd]%NoDup_cons. destruct (decide (k1 = k)) as [->|Hne]; simpl.
    + by constructor.
    + constructor; [|by apply IH].
      intros Hin. apply Hk1. clear IH Hk1 Hd.
      induction d as [|[k2 v2] d IH]; simpl in *; [set_solver|].
      destruct (decide (k2 = k)); simpl in *; set_solver.
Qed.

Lemma dict_get_Some_elem {K V : Type} `{EqDecision K} (d : list (K * V)) k v :
  dict_get d k = Some v → (k, v) ∈ d.
Proof.
  induction d as [|[k1 v1] d IH]; simpl; [done|].
  destruct (decide (k1 = k)) as [->|]; [intros [= ->]; by left|].
  intros ?. right. by apply IH.
Qed.

Lemma dict_get_elem_NoDup {K V : Type} `{EqDecision K} (d : list (K * V)) k v :
  NoDup (d.*1) → (k, v) ∈ d → dict_get d k = Some v.
Proof.
  induction d as [|[k1 v1] d IH]; simpl; [by intros _ ?%elem_of_nil|].
  intros [Hk1 Hd]%NoDup_cons [[= -> ->]|Hin]%elem_of_cons.
  - by rewrite decide_True.
  - rewrite decide_False; [by apply IH|].
    intros ->. apply Hk1. apply list_elem_of_fmap. by exists (k, v).
Qed.

Lemma append_cons (x : ascii) (a b : string) :
  (String x a ++ b)%string = String x (a ++ b).
Proof. done. Qed.

Lemma append_nil_l (b : string) : (EmptyString ++ b)%string = b.
Proof. done. Qed.

Lemma string_app_assoc (a b c : string) : ((a ++ b) ++ c = a ++ (b ++ c))%string.
Proof.
  induction a as [|x a IH]; [done|]. rewrite !append_cons. by f_equal.
Qed.

Lemma string_app_nil_r (a : string) : (a ++ "")%string = a.
Proof. induction a as [|x a IH]; [done|]. rewrite append_cons. by f_equal. Qed.

Lemma char_in_app (c : ascii) (a b : string) :
  char_in c (a ++ b) = char_in c a || char_in c b.
Proof.
  induction a as [|x a IH]; [done|]. rewrite append_cons. simpl.
  by rewrite IH, orb_assoc.
Qed.

(** Splitting at the first separator. *)
Lemma split_aux_app_sep (sep : ascii) (a rest : string) : ∀ cur,
  char_in sep a = false →
  split_aux sep (a ++ String sep rest) cur
  = string_of_list_ascii (rev cur ++ list_ascii_of_string a) :: split_aux sep rest [].
Proof.
  induction a as [|c a IH]; intros cur.
  - intros _. rewrite append_nil_l. simpl. by rewrite Ascii.eqb_refl, app_nil_r.
  - simpl. intros [Hc Ha]%orb_false_iff. rewrite ?append_cons. simpl.
    rewrite Ascii.eqb_sym, Hc.
    rewrite IH by done. simpl. by rewrite <- List.app_assoc.
Qed.

Lemma split_app_sep (sep : ascii) (a rest : string) :
  char_in sep a = false → split sep (a ++ String sep rest) = a :: split sep rest.
Proof.
  intros Ha. unfold split. rewrite split_aux_app_sep by done. simpl.
  by rewrite string_of_list_ascii_of_string.
Qed.

Lemma split_empty (sep : ascii) : split sep EmptyString = [EmptyString].
Proof. done. Qed.

(** A string that ends with the separator has an empty last field. *)
Lemma split_aux_last_sep (sep : ascii) (s : string) : ∀ cur,
  last (split_aux sep (s ++ String sep EmptyString) cur) = Some EmptyString.
Proof.
  induction s as [|c s IH]; intros cur.
  - rewrite append_nil_l. simpl. by rewrite Ascii.eqb_refl.
  - rewrite ?append_cons. simpl. destruct (Ascii.eqb c sep).
    + specialize (IH []). destruct (split_aux sep (s ++ String sep "") []) eqn:E;
        [discriminate|]. by rewrite last_cons, IH.
    + apply IH.
Qed.

Lemma split_last_sep (sep : ascii) (s : string) :
  last (split sep (s ++ String sep EmptyString)) = Some EmptyString.
Proof. apply split_aux_last_sep. Qed.

(** The decimal string of a natural number has digits only. *)
Lemma string_of_uint_digits (c : ascii) (d : Decimal.uint) :
  isdigit c = false → char_in c (NilEmpty.string_of_uint d) = false.
Proof.
  intros Hc. induction d as [|d IH|d IH|d IH|d IH|d IH|d IH|d IH|d IH|d IH|d IH];
    simpl; [done|..]; rewrite IH, orb_false_r;
    apply Ascii.eqb_neq; intros ->; discriminate Hc.
Qed.

Lemma str_nonneg_no_dash (n : Z) : 0 ≤ n → char_in "-" (str n) = false.
Proof.
  intros Hn. unfold str. destruct n as [|p|p]; [done| |lia].
  simpl. unfold NilZero.string_of_uint.
  destruct (Pos.to_uint p); try done; by apply string_of_uint_digits.
Qed.

End PyFacts.

(** * Properties of the paired merge *)

Module MergeFacts.
Import Merge.

#[local] Arguments merge_step : simpl never.

#[local] Instance event_le_total : Total event_le.
Proof.
  intros [p a] [q b]. unfold event_le; simpl.
  destruct (Z.lt_trichotomy p q) as [?|[?|?]]; [left; left; lia| |right; left; lia].
  subst. destruct a, b; [left|right|left|left]; right; split; auto; discriminate.
Qed.

#[local] Instance event_le_trans : Transitive event_le.
Proof.
  intros [p a] [q b] [r c]. unfold event_le; simpl.
  intros [?|[? ?]] [?|[? ?]]; [left; lia..|]. right. split; [lia|tauto].
Qed.

Lemma merge_step_tumor skip st pos :
  merge_step skip st (pos, true) =
  if bool_decide (pos ∈ normal_candidates_set st) || negb skip
  then (mkState (normal_candidates_set st ∖ {[pos]}) (tumor_candidates_set st), Some pos)
  else (st, None).
Proof. reflexivity. Qed.

Lemma merge_step_tumor_set skip st ev :
  tumor_candidates_set (merge_step skip st ev).1 = tumor_candidates_set st.
Proof. destruct ev as [p []]; unfold merge_step; simpl; [|done]. by case_match. Qed.

Lemma merge_loop_tumor_set skip evs : ∀ st,
  tumor_candidates_set (merge_loop skip st evs).1 = tumor_candidates_set st.
Proof.
  induction evs as [|ev evs IH]; intros st; simpl; [done|].
  pose proof (merge_step_tumor_set skip st ev) as Hs.
  destruct (merge_step skip st ev) as [st1 y] eqn:E1.
  specialize (IH st1). destruct (merge_loop skip st1 evs) as [st2 ys] eqn:E2.
  simpl in *. congruence.
Qed.

Lemma merge_loop_cons skip st ev evs :
  merge_loop skip st (ev :: evs) =
  ((merge_loop skip (merge_step skip st ev).1 evs).1,
   match (merge_step skip st ev).2 with
   | Some p => p :: (merge_loop skip (merge_step skip st ev).1 evs).2
   | None => (merge_loop skip (merge_step skip st ev).1 evs).2
   end).
Proof.
  simpl. destruct (merge_step skip st ev) as [st1 y]. simpl.
  by destruct (merge_loop skip st1 evs).
Qed.

(** A step adds to the set only the position of a normal event. *)
Lemma merge_step_set skip st q b p :
  p ∈ normal_candidates_set (merge_step skip st (q, b)).1 →
  p ∈ normal_candidates_set st ∨ (b = false ∧ p = q).
Proof.
  unfold merge_step. destruct b; simpl.
  - case_match; simpl; set_solver.
  - set_solver.
Qed.

(** A step yields only at a tumor event, and then its own position. *)
Lemma merge_step_yield skip st q b y :
  (merge_step skip st (q, b)).2 = Some y →
  b = true ∧ y = q ∧ (q ∈ normal_candidates_set st ∨ skip = false)
  ∧ q ∉ normal_candidates_set (merge_step skip st (q, b)).1.
Proof.
  unfold merge_step. destruct b; simpl; [|discriminate].
  destruct (bool_decide (q ∈ normal_candidates_set st) || negb skip) eqn:E;
    simpl; [|discriminate].
  intros [= <-]. split_and!; [done..| |set_solver].
  apply orb_true_iff in E as [E|E].
  - left. by apply bool_decide_eq_true in E.
  - right. by destruct skip.
Qed.

(** With the flag set, an emitted position is a tumor event whose position
    is in the set or was added by an earlier normal event. *)
Lemma merge_loop_emitted evs : ∀ st p,
  p ∈ (merge_loop true st evs).2 →
  ∃ pre post, evs = pre ++ (p, true) :: post ∧
    (p ∈ normal_candidates_set st ∨ (p, false) ∈ pre).
Proof.
  induction evs as [|[q b] evs IH]; intros st p.
  - simpl. intros H; by apply elem_of_nil in H.
  - rewrite merge_loop_cons. cbn [snd].
    assert (Hrest : p ∈ (merge_loop true (merge_step true st (q, b)).1 evs).2 →
              ∃ pre post, (q, b) :: evs = pre ++ (p, true) :: post ∧
                (p ∈ normal_candidates_set st ∨ (p, false) ∈ pre)).
    { intros Hys. destruct (IH _ _ Hys) as (pre & post & -> & Hin).
      exists ((q, b) :: pre), post. split; [done|].
      destruct Hin as [Hin|Hin]; [|right; by right].
      apply merge_step_set in Hin as [Hin|[-> ->]]; [by left|].
      right. by left. }
    destruct (merge_step true st (q, b)).2 as [y|] eqn:Ey; [|done].
    intros Hp. apply elem_of_cons in Hp as [->|Hp]; [|auto].
    apply merge_step_yield in Ey as (-> & -> & [Hin|Hc] & _); [|done].
    exists [], evs. split; [done|]. by left.
Qed.

(** Over a sorted event list the emitted positions strictly increase. *)
Lemma merge_loop_sorted evs : ∀ st,
  StronglySorted event_le evs →
  StronglySorted Z.lt (merge_loop true st evs).2.
Proof.
  induction evs as [|[q b] evs IH]; intros st Hs; [constructor|].
  apply StronglySorted_inv in Hs as [Hs Hall].
  rewrite merge_loop_cons. cbn [snd].
  destruct (merge_step true st (q, b)).2 as [y|] eqn:Ey; [|by apply IH].
  apply merge_step_yield in Ey as (-> & -> & _ & Hout).
  constructor; [by apply IH|]. apply Forall_forall. intros p Hp.
  rewrite Forall_forall in Hall.
  destruct (merge_loop_emitted _ _ _ Hp) as (pre & post & -> & Hin).
  assert (Hle : event_le (q, true) (p, true)) by (apply Hall; set_solver).
  destruct Hle as [Hlt|[Heq _]]; simpl in *; [done|]. subst p.
  destruct Hin as [Hin|Hin]; [done|].
  assert (Hle : event_le (q, true) (q, false)) by (apply Hall; set_solver).
  destruct Hle as [Hlt|[_ Hc]]; simpl in *; [lia|]. discriminate (Hc eq_refl).
Qed.

Lemma trailing_init_nil skip evs : trailing (merge_loop skip init evs).1 = [].
Proof.
  unfold trailing. rewrite merge_loop_tumor_set. simpl.
  by rewrite elements_empty.
Qed.

Lemma StronglySorted_lt_NoDup (l : list Z) : StronglySorted Z.lt l → NoDup l.
Proof.
  induction 1 as [|x l Hs IH Hall]; constructor; [|done].
  intros Hin. rewrite Forall_forall in Hall. specialize (Hall x Hin). lia.
Qed.

(** C1. In the paired merge a tumor event at [pos] yields [pos] exactly
    when [pos] is in the normal-seen set or the skip-if-empty-normal flag
    is false, and a yield erases [pos] from the set.  With the flag set and
    both streams sorted, the emitted positions strictly increase, so
    duplicate tumor candidates at one position give at most one emission;
    and every emitted position is a tumor event that comes after a normal
    event at the same position in the merged stream. *)
Theorem paired_merge_one_shot (normal tumor : list event) :
  Sorted event_le normal → Sorted event_le tumor →
  (∀ skip st pos,
     (merge_step skip st (pos, true)).2 =
       (if bool_decide (pos ∈ normal_candidates_set st ∨ skip = false)
        then Some pos else None))
  ∧ (∀ skip st pos y,
       (merge_step skip st (pos, true)).2 = Some y →
       pos ∉ normal_candidates_set (merge_step skip st (pos, true)).1)
  ∧ StronglySorted Z.lt (heapq_merge_generator_from normal tumor true)
  ∧ NoDup (heapq_merge_generator_from normal tumor true)
  ∧ (∀ pos,
       pos ∈ heapq_merge_generator_from normal tumor true →
       ∃ pre post, heapq_merge normal tumor = pre ++ (pos, true) :: post
                   ∧ (pos, false) ∈ pre).
Proof.
  intros Hn Ht.
  assert (Hsorted :
       StronglySorted Z.lt (heapq_merge_generator_from normal tumor true)).
  { unfold heapq_merge_generator_from.
    pose proof (trailing_init_nil true (heapq_merge normal tumor)) as Htr.
    pose proof (merge_loop_sorted (heapq_merge normal tumor) init) as Hso.
    destruct (merge_loop true init (heapq_merge normal tumor)) as [st ys].
    simpl in *. rewrite Htr, app_nil_r. apply Hso.
    apply Sorted_StronglySorted; [apply _|]. by apply Sorted_list_merge; [apply _|..]. }
  split_and!.
  - intros skip st pos. rewrite merge_step_tumor.
    destruct skip; simpl; rewrite ?orb_false_r, ?orb_true_r.
    + destruct (decide (pos ∈ normal_candidates_set st)) as [Hin|Hin].
      * rewrite !bool_decide_eq_true_2; [done|by left|done].
      * rewrite !bool_decide_eq_false_2; [done|intros [?|?]; done|done].
    + rewrite bool_decide_eq_true_2; [done|by right].
  - intros skip st pos y. rewrite merge_step_tumor.
    destruct (bool_decide (pos ∈ normal_candidates_set st) || negb skip); simpl;
      [set_solver|discriminate].
  - exact Hsorted.
  - by apply StronglySorted_lt_NoDup, Hsorted.
  - intros pos. unfold heapq_merge_generator_from.
    pose proof (trailing_init_nil true (heapq_merge normal tumor)) as Htr.
    pose proof (merge_loop_emitted (heapq_merge normal tumor) init pos) as Hem.
    destruct (merge_loop true init (heapq_merge normal tumor)) as [st ys].
    simpl in *. rewrite Htr, app_nil_r. intros Hp.
    destruct (Hem Hp) as (pre & post & Heq & [Hin|Hin]); [set_solver|eauto].
Qed.

Lemma paired_merge_one_shot_witness :
  heapq_merge_generator_from
    [(1, false); (3, false); (5, false)] [(1, true); (1, true); (2, true); (5, true)]
    true = [1; 5]
  ∧ NoDup (heapq_merge_generator_from
             [(1, false); (3, false); (5, false)]
             [(1, true); (1, true); (2, true); (5, true)] true).
Proof.
  split; [vm_compute; reflexivity|].
  apply (paired_merge_one_shot
           [(1, false); (3, false); (5, false)]
           [(1, true); (1, true); (2, true); (5, true)]).
  - repeat constructor; unfold event_le; simpl; lia.
  - repeat constructor; unfold event_le; simpl; try lia; right; split; auto.
Defined.

End MergeFacts.

(** * Read ordering *)

Module OrderingFacts.
Import Py PyFacts Tensor.

#[local] Instance nat_le_total : Total (≤)%nat.
Proof. intros x y. lia. Qed.

#[local] Instance entry_le_total : Total entry_le.
Proof.
  intros [[h1 o1] n1] [[h2 o2] n2]. unfold entry_le; simpl.
  destruct (Z.lt_trichotomy h1 h2) as [?|[?|?]]; [by left; left| |by right; left].
  destruct (Nat.le_ge_cases o1 o2); [left|right]; right; split; done.
Qed.

(** The names at a list of valid indices. *)
Lemma foldM_list_get {A : Type} (U : list A) (ixs : list nat) : ∀ acc,
  Forall (λ i, (i < length U)%nat) ixs →
  foldM (λ acc i, x ← list_get U i; Ok (acc ++ [x])) acc ixs
  = Ok (acc ++ omap (U !!.) ixs).
Proof.
  induction ixs as [|i ixs IH]; intros acc Hall; simpl.
  - by rewrite app_nil_r.
  - apply Forall_cons in Hall as [Hi Hall].
    destruct (lookup_lt_is_Some_2 U i Hi) as [x Hx].
    unfold list_get. rewrite Hx. simpl. rewrite IH by done.
    by rewrite <- app_assoc.
Qed.

Lemma omap_lookup_length {A : Type} (U : list A) (ixs : list nat) :
  Forall (λ i, (i < length U)%nat) ixs → length (omap (U !!.) ixs) = length ixs.
Proof.
  induction 1 as [|i ixs Hi Hall IH]; simpl; [done|].
  destruct (lookup_lt_is_Some_2 U i Hi) as [x ->]. simpl. by f_equal.
Qed.

(** Reading a list at strictly increasing indices keeps the order of the
    list. *)
Lemma omap_lookup_sublist {A : Type} (U : list A) : ∀ ixs,
  StronglySorted lt ixs → Forall (λ i, (i < length U)%nat) ixs →
  omap (U !!.) ixs `sublist_of` U.
Proof.
  induction U as [|x U IH]; intros ixs Hs Hall.
  - destruct ixs as [|i ixs]; [constructor|].
    apply Forall_cons in Hall as [Hi _]. simpl in Hi. lia.
  - destruct ixs as [|i ixs]; [apply sublist_nil_l|].
    apply StronglySorted_inv in Hs as [Hs Hlt].
    apply Forall_cons in Hall as [Hi Hall].
    assert (Hshift : ∀ js, Forall (λ j, (0 < j)%nat) js →
              omap ((x :: U) !!.) js = omap (U !!.) (pred <$> js)).
    { induction 1 as [|j js Hj _ IHjs]; simpl; [done|].
      destruct j as [|j]; [lia|]. simpl. destruct (U !! j); [f_equal|]; exact IHjs. }
    assert (Hpred : ∀ js, Forall (λ j, (0 < j)%nat) js → StronglySorted lt js →
              Forall (λ j, (j < length (x :: U))%nat) js →
              StronglySorted lt (pred <$> js)
              ∧ Forall (λ j, (j < length U)%nat) (pred <$> js)).
    { induction 1 as [|j js Hj Hjs IHjs]; simpl; [by split; constructor|].
      intros [Hs' Hlt']%StronglySorted_inv [Hj' Hall']%Forall_cons.
      destruct (IHjs Hs' Hall') as [IH1 IH2]. split.
      - constructor; [done|]. rewrite Forall_fmap.
        eapply Forall_impl; [apply Forall_and; split; [exact Hlt'|exact Hjs]|].
        simpl. intros k [? ?]. lia.
      - constructor; [simpl in *; lia|done]. }
    destruct i as [|i].
    + assert (Hpos : Forall (λ j, (0 < j)%nat) ixs)
        by (eapply Forall_impl; [exact Hlt|]; simpl; intros; lia).
      simpl. rewrite Hshift by done. apply sublist_skip.
      destruct (Hpred ixs Hpos Hs Hall). by apply IH.
    + assert (Hpos : Forall (λ j, (0 < j)%nat) (S i :: ixs)).
      { constructor; [lia|]. eapply Forall_impl; [exact Hlt|]; simpl; intros; lia. }
      rewrite Hshift by done. apply sublist_cons.
      destruct (Hpred (S i :: ixs) Hpos) as [H1 H2];
        [by constructor|by constructor|]. by apply IH.
Qed.

(** Sorting distinct numbers gives a strictly increasing list. *)
Lemma merge_sort_NoDup_lt (l : list nat) :
  NoDup l → StronglySorted lt (merge_sort (≤)%nat l).
Proof.
  intros Hnd.
  assert (Hs : StronglySorted (≤)%nat (merge_sort (≤)%nat l)).
  { apply Sorted_StronglySorted; [apply _|]. apply Sorted_merge_sort; apply _. }
  assert (Hnd' : NoDup (merge_sort (≤)%nat l)) by by rewrite merge_sort_Permutation.
  induction Hs as [|x l' Hs IH Hall]; [constructor|].
  apply NoDup_cons in Hnd' as [Hx Hnd']. constructor; [by apply IH|].
  rewrite Forall_forall in Hall |- *. intros y Hy.
  specialize (Hall y Hy). destruct (decide (x = y)) as [->|]; [done|lia].
Qed.

Section Subsample.
Context {F G : Type} `{PyRandom G} `{!PyRandomLaws G} (P : param F).

Lemma picked_spec (n : nat) (k : Z) :
  0 ≤ k < Z.of_nat n →
  length (picked n k) = Z.to_nat k
  ∧ StronglySorted lt (picked n k)
  ∧ Forall (λ i, (i < n)%nat) (picked n k).
Proof.
  intros Hk. assert (Hkn : (Z.to_nat k ≤ n)%nat) by lia. unfold picked. split_and!.
  - rewrite merge_sort_Permutation. by apply sample_length.
  - apply merge_sort_NoDup_lt. by apply sample_NoDup.
  - apply Forall_forall. intros i Hi. rewrite merge_sort_Permutation in Hi.
    by eapply sample_range.
Qed.

Lemma subsample_eq (g : G) (U : list string) (k : Z) :
  0 ≤ k < Z.of_nat (length U) →
  subsample g U k
  = Ok (omap (U !!.) (picked (length U) k),
        (sample (seed 0) (length U) (Z.to_nat k)).2).
Proof.
  intros Hk. unfold subsample.
  replace (k <? 0) with false by lia.
  destruct (picked_spec (length U) k Hk) as (_ & _ & Hall).
  unfold picked in *.
  destruct (sample (seed 0) (length U) (Z.to_nat k)) as [indices g'] eqn:Es.
  simpl in *. rewrite foldM_list_get by done. done.
Qed.

(** How many reads the ordering returns: all distinct names of the
    window, or [max_depth] of them when there are more and tensor-sample
    mode is off. *)
Lemma sorted_by_hap_read_name_length (g : G) (center_pos : Z)
    (haplotag_dict : gmap string Z) (pileup_dict : gmap Z (Position F))
    (hap_dict : gmap string Z) (max_depth : Z) (use_tensor_sample_mode : bool)
    (l : list read_entry) (g' : G) :
  0 ≤ max_depth →
  sorted_by_hap_read_name P g center_pos haplotag_dict pileup_dict hap_dict
    max_depth use_tensor_sample_mode = Ok (l, g') →
  length l =
    if use_tensor_sample_mode
    then length (fromkeys (nearby_read_names P center_pos pileup_dict))
    else (length (fromkeys (nearby_read_names P center_pos pileup_dict))
            `min` Z.to_nat max_depth)%nat.
Proof.
  intros Hk. unfold sorted_by_hap_read_name.
  set (U := fromkeys (nearby_read_names P center_pos pileup_dict)).
  intros Hrun. apply bind_Ok in Hrun as ([names g1] & Hnames & Hrun).
  injection Hrun as <- <-.
  rewrite merge_sort_Permutation, length_imap.
  destruct (max_depth <? Z.of_nat (length U)) eqn:E; simpl in Hnames.
  - destruct use_tensor_sample_mode; simpl in Hnames.
    + by injection Hnames as <- <-.
    + apply Z.ltb_lt in E. rewrite subsample_eq in Hnames by lia.
      injection Hnames as <- <-.
      destruct (picked_spec (length U) max_depth) as (Hlen & _ & Hall); [lia|].
      rewrite omap_lookup_length by done. lia.
  - apply Z.ltb_ge in E. injection Hnames as <- <-.
    destruct use_tensor_sample_mode; lia.
Qed.

(** The reads the ordering returns have distinct names. *)
Lemma sorted_by_hap_read_name_NoDup (g : G) (center_pos : Z)
    (haplotag_dict : gmap string Z) (pileup_dict : gmap Z (Position F))
    (hap_dict : gmap string Z) (max_depth : Z) (use_tensor_sample_mode : bool)
    (l : list read_entry) (g' : G) :
  0 ≤ max_depth →
  sorted_by_hap_read_name P g center_pos haplotag_dict pileup_dict hap_dict
    max_depth use_tensor_sample_mode = Ok (l, g') →
  NoDup (map (λ e : read_entry, e.2) l).
Proof.
  intros Hk. unfold sorted_by_hap_read_name.
  set (U := fromkeys (nearby_read_names P center_pos pileup_dict)).
  intros Hrun. apply bind_Ok in Hrun as ([names g1] & Hnames & Hrun).
  injection Hrun as <- <-.
  assert (Hnd : NoDup names).
  { destruct ((max_depth <? Z.of_nat (length U)) && negb use_tensor_sample_mode)
      eqn:E.
    - apply andb_true_iff in E as [E _]. apply Z.ltb_lt in E.
      rewrite subsample_eq in Hnames by lia. injection Hnames as <- <-.
      destruct (picked_spec (length U) max_depth) as (_ & Hs & Hall); [lia|].
      eapply sublist_NoDup; [|by apply omap_lookup_sublist].
      apply fromkeys_NoDup.
    - injection Hnames as <- <-. apply fromkeys_NoDup. }
  change (NoDup ((λ e : read_entry, e.2) <$>
                 merge_sort entry_le
                   (imap (λ order read_name,
                            (Z.max (default 0 (haplotag_dict !! read_name))
                                   (default 0 (hap_dict !! read_name)),
                             order, read_name)) names))).
  rewrite merge_sort_Permutation.
  replace (_ <$> imap _ names) with names; [done|].
  apply list_eq. intros i. rewrite list_lookup_fmap, list_lookup_imap.
  by destruct (names !! i).
Qed.

(** C6. When the distinct read names of the window outnumber
    [max_depth] and tensor-sample mode is off, the read ordering seeds
    the generator with the constant 0, draws [max_depth] indices without
    replacement, and keeps the names at the sorted indices: exactly
    [max_depth] distinct names, in their order of first appearance.  The
    list returned does not depend on the state the generator was in, so
    two runs on the same input return the same list; it is the kept
    names with their haplotype and rank, sorted by (haplotype, rank). *)
Theorem subsample_deterministic (g : G) (center_pos : Z)
    (haplotag_dict : gmap string Z) (pileup_dict : gmap Z (Position F))
    (hap_dict : gmap string Z) (max_depth : Z) :
  let U := fromkeys (nearby_read_names P center_pos pileup_dict) in
  let names := omap (U !!.) (picked (length U) max_depth) in
  let entries :=
    imap (λ order read_name,
            (Z.max (default 0 (haplotag_dict !! read_name))
                   (default 0 (hap_dict !! read_name)), order, read_name))
         names in
  0 ≤ max_depth < Z.of_nat (length U) →
  (∃ l g',
      sorted_by_hap_read_name P g center_pos haplotag_dict pileup_dict hap_dict
        max_depth false = Ok (l, g')
      ∧ g' = (sample (seed 0) (length U) (Z.to_nat max_depth)).2
      ∧ l = merge_sort entry_le entries
      ∧ Sorted entry_le l ∧ l ≡ₚ entries)
  ∧ length (sample (seed 0) (length U) (Z.to_nat max_depth)).1 = Z.to_nat max_depth
  ∧ NoDup (sample (seed 0) (length U) (Z.to_nat max_depth)).1
  ∧ length names = Z.to_nat max_depth
  ∧ NoDup names
  ∧ names `sublist_of` U
  ∧ (∀ g2 : G,
       sorted_by_hap_read_name P g2 center_pos haplotag_dict pileup_dict hap_dict
         max_depth false
       = sorted_by_hap_read_name P g center_pos haplotag_dict pileup_dict hap_dict
           max_depth false).
Proof.
  intros U names entries Hk.
  assert (Hkn : (Z.to_nat max_depth ≤ length U)%nat) by lia.
  destruct (picked_spec (length U) max_depth Hk) as (Hlen & Hsorted & Hall).
  assert (Hrun : ∀ g1 : G,
    sorted_by_hap_read_name P g1 center_pos haplotag_dict pileup_dict hap_dict
      max_depth false
    = Ok (merge_sort entry_le entries,
          (sample (seed 0) (length U) (Z.to_nat max_depth)).2)).
  { intros g1. unfold sorted_by_hap_read_name. fold U.
    replace (max_depth <? Z.of_nat (length U)) with true by lia. simpl.
    rewrite subsample_eq by done. done. }
  assert (Hsub : names `sublist_of` U) by by apply omap_lookup_sublist.
  split_and!.
  - eexists _, _. split; [apply Hrun|]. split_and!; [done..| |].
    + apply Sorted_merge_sort; apply _.
    + apply merge_sort_Permutation.
  - by apply sample_length.
  - by apply sample_NoDup.
  - unfold names. by rewrite omap_lookup_length.
  - eapply sublist_NoDup; [|exact Hsub]. apply fromkeys_NoDup.
  - done.
  - intros g2. by rewrite !Hrun.
Qed.
End Subsample.

(** The stand-in generator keeps the contract of [random.sample]. *)
#[global] Instance PyRandom_rotate_laws : PyRandomLaws nat.
Proof.
  assert (Hperm : ∀ g n, rotate g (seq 0 n) ≡ₚ seq 0 n).
  { intros g n. unfold rotate. rewrite Permutation_app_comm. by rewrite take_drop. }
  split; intros g n k; simpl.
  - intros Hk. rewrite length_take, length_rotate, length_seq. lia.
  - intros Hk. eapply sublist_NoDup; [|apply sublist_take].
    rewrite Hperm. apply NoDup_seq.
  - intros i Hk Hi. apply elem_of_take in Hi as (j & Hj & _).
    apply list_elem_of_lookup_2 in Hj. rewrite Hperm in Hj.
    apply elem_of_seq in Hj. lia.
Qed.

Import Examples.

Lemma subsample_deterministic_witness :
  0 ≤ 2 < Z.of_nat (length (fromkeys (nearby_read_names ex_param 10
                                       (ex_window false ex_normal_rows 12))))
  ∧ sorted_by_hap_read_name ex_param 5%nat 10 ∅ (ex_window false ex_normal_rows 12) ∅
      2 false
    = Ok ([(0, 0%nat, "n1"%string); (0, 1%nat, "n2"%string)], 1%nat)
  ∧ ∀ g2 : nat,
      sorted_by_hap_read_name ex_param g2 10 ∅ (ex_window false ex_normal_rows 12) ∅
        2 false
      = sorted_by_hap_read_name ex_param 5%nat 10 ∅
          (ex_window false ex_normal_rows 12) ∅ 2 false.
Proof.
  assert (H : 0 ≤ 2 < Z.of_nat (length (fromkeys (nearby_read_names ex_param 10
                                       (ex_window false ex_normal_rows 12)))))
    by (vm_compute; split; [discriminate|reflexivity]).
  split; [exact H|]. split; [vm_compute; reflexivity|].
  apply (subsample_deterministic (G := nat) ex_param 5%nat 10 ∅
           (ex_window false ex_normal_rows 12) ∅ 2 H).
Defined.

End OrderingFacts.

(** * The tensor builder *)

Module TensorFacts.
Import Py PyFacts Tensor.

(** Invert [m ≫= k = Ok _] in hypothesis [H], naming the intermediate
    value. *)
Ltac inv_bind H x Hx :=
  apply bind_Ok in H as (x & Hx & H); cbn beta in H.

Lemma list_set_Ok {A : Type} (l l' : list A) (i : nat) (v : A) :
  list_set l i v = Ok l' ↔ (i < length l)%nat ∧ l' = <[i := v]> l.
Proof.
  unfold list_set. destruct (i <? length l)%nat eqn:E.
  - apply Nat.ltb_lt in E. split; [by intros [= <-]|by intros [_ ->]].
  - apply Nat.ltb_ge in E. split; [discriminate|]. intros [? _]. lia.
Qed.

Lemma list_get_Ok {A : Type} (l : list A) (i : nat) (x : A) :
  list_get l i = Ok x ↔ l !! i = Some x.
Proof. unfold list_get. apply of_option_Ok. Qed.

Lemma set_cell_Ok tensor r c x tensor' :
  set_cell tensor r c x = Ok tensor' ↔
  ∃ row, tensor !! r = Some row ∧ (c < length row)%nat
         ∧ tensor' = <[r := <[c := x]> row]> tensor.
Proof.
  unfold set_cell. split.
  - intros H. inv_bind H row Hrow. inv_bind H row' Hrow'.
    apply list_get_Ok in Hrow. apply list_set_Ok in Hrow' as [Hc ->].
    apply list_set_Ok in H as [Hr ->]. eauto.
  - intros (row & Hrow & Hc & ->). apply bind_Ok. exists row.
    split; [by apply list_get_Ok|]. apply bind_Ok. exists (<[c := x]> row).
    split; [by apply list_set_Ok|]. apply list_set_Ok. split; [|done].
    by eapply lookup_lt_Some.
Qed.

Lemma set_cell_shaped d w tensor r c x tensor' :
  shaped d w tensor → set_cell tensor r c x = Ok tensor' → shaped d w tensor'.
Proof.
  intros [Hd Hw] (row & Hrow & Hc & ->)%set_cell_Ok. split.
  - by rewrite length_insert.
  - apply Forall_insert; [done|]. rewrite length_insert.
    by eapply (Forall_lookup_1 _ _ _ _ Hw).
Qed.

Section Shape.
Context {F : Type} (P : param F) (T : create_tensor).

Lemma place_read_shaped d w (pileup_dict : gmap Z (Position F)) p start_pos end_pos
    tensor ins item tensor' ins' :
  shaped d w tensor →
  place_read pileup_dict p start_pos end_pos (tensor, ins) item = Ok (tensor', ins') →
  shaped d w tensor'.
Proof.
  intros Hsh. unfold place_read. destruct item as [read_idx [[hap order] name]].
  destruct (pileup_dict !! p) as [x|]; [|by intros [= <- <-]].
  destruct (read_info x !! name) as [[ch ib]|]; [|by intros [= <- <-]].
  intros H. inv_bind H t1 Ht1. apply (set_cell_shaped d w) in Ht1; [|done].
  by destruct (_ && _); injection H as <- <-.
Qed.

Lemma place_position_shaped d w is_tumor hap_dict mask platform start_pos end_pos
    sorted pileup_dict tensor ins p pileup_dict' tensor' ins' :
  shaped d w tensor →
  place_position P T is_tumor hap_dict mask platform start_pos end_pos sorted
    (pileup_dict, tensor, ins) p = Ok (pileup_dict', tensor', ins') →
  shaped d w tensor'.
Proof.
  intros Hsh. unfold place_position. intros H. inv_bind H d1 Hd1.
  inv_bind H st Hst. destruct st as [t1 i1]. injection H as <- <- <-.
  eapply (foldM_inv (λ st, shaped d w st.1)) in Hst; [done| |done].
  intros [t i] item [t2 i2] _ Hs Hstep. simpl in *.
  by eapply place_read_shaped.
Qed.

Lemma write6_shaped d w (pileup_dict : gmap Z (Position F)) tensor r c v pileup_dict' tensor' :
  shaped d w tensor →
  write6 (pileup_dict, tensor) r c v = Ok (pileup_dict', tensor') →
  shaped d w tensor'.
Proof.
  intros Hsh. unfold write6. intros H. inv_bind H row Hrow. inv_bind H x Hx.
  destruct x as [l|p name].
  - inv_bind H l' Hl'. inv_bind H t1 Ht1. injection H as <- <-.
    by eapply set_cell_shaped.
  - inv_bind H y Hy. inv_bind H ci Hci. destruct ci as [ch ib].
    inv_bind H ch' Hch'. by injection H as <- <-.
Qed.

Lemma write_insert_shaped d w (pileup_dict : gmap Z (Position F)) tensor e pileup_dict' tensor' :
  shaped d w tensor →
  write_insert P T (pileup_dict, tensor) e = Ok (pileup_dict', tensor') →
  shaped d w tensor'.
Proof.
  intros Hsh. unfold write_insert. destruct e as [[[read_idx p] ins_base] center_p].
  intros H.
  eapply (foldM_inv (λ st, shaped d w st.2)) in H; [done| |done].
  intros [d1 t1] ins_idx [d2 t2] _ Hs Hstep. simpl in *.
  inv_bind Hstep c Hc. inv_bind Hstep v Hv. by eapply write6_shaped.
Qed.

(** What a call of [generate_tensor] that returns a tensor went through. *)
Lemma generate_tensor_Some mask_low_bq ctg_name center_pos sorted pileup_dict
    ref_seq reference_sequence reference_start platform bed is_tumor hap_dict
    pileup_dict' tensor alt_info :
  generate_tensor P T mask_low_bq ctg_name center_pos sorted pileup_dict ref_seq
    reference_sequence reference_start platform bed is_tumor hap_dict
  = Ok (pileup_dict', Some (tensor, alt_info)) →
  let tensor_shape :=
    if String.eqb platform "ont" then ont_input_shape P else input_shape P in
  let start_pos := center_pos - flankingBaseNum P in
  let end_pos := center_pos + flankingBaseNum P + 1 in
  ∃ reference_base d1 t1 insert_tuple t2 center,
    Py.index ref_seq (flankingBaseNum P) = Ok reference_base
    ∧ sorted ≠ []
    ∧ pass_confident_bed P bed ctg_name center_pos = true
    ∧ foldM (place_position P T is_tumor hap_dict mask_low_bq platform start_pos
               end_pos sorted)
        (pileup_dict,
         replicate (length sorted)
           (replicate (Z.to_nat tensor_shape.1.2)
              (Own (replicate (Z.to_nat tensor_shape.2) 0))),
         [])
        (range start_pos end_pos) = Ok (d1, t1, insert_tuple)
    ∧ foldM (write_insert P T) (d1, t1) insert_tuple = Ok (pileup_dict', t2)
    ∧ pileup_dict' !! center_pos = Some center
    ∧ alt_info_of center reference_base reference_sequence center_pos
        reference_start = Ok alt_info
    ∧ tensor = map (map (cell_value pileup_dict')) t2.
Proof.
  unfold generate_tensor. intros H. inv_bind H reference_base Href.
  destruct (length sorted =? 0)%nat eqn:Elen; [discriminate|].
  destruct (negb _) eqn:Ebed; [discriminate|].
  apply negb_false_iff in Ebed.
  inv_bind H st Hst. destruct st as [[d1 t1] ins].
  inv_bind H st2 Hst2. destruct st2 as [d2 t2].
  inv_bind H center Hcenter. inv_bind H ai Hai. injection H as <- <- <-.
  apply of_option_Ok in Hcenter.
  exists reference_base, d1, t1, ins, t2, center. split_and!; try done.
  intros ->. discriminate.
Qed.

(** The tensor returned has one row for each entry of the sorted read
    list and [tensor_shape[1]] cells in each row. *)
Lemma generate_tensor_shape mask_low_bq ctg_name center_pos sorted pileup_dict
    ref_seq reference_sequence reference_start platform bed is_tumor hap_dict
    pileup_dict' tensor alt_info :
  generate_tensor P T mask_low_bq ctg_name center_pos sorted pileup_dict ref_seq
    reference_sequence reference_start platform bed is_tumor hap_dict
  = Ok (pileup_dict', Some (tensor, alt_info)) →
  let tensor_shape :=
    if String.eqb platform "ont" then ont_input_shape P else input_shape P in
  length tensor = length sorted
  ∧ Forall (λ row, length row = Z.to_nat tensor_shape.1.2) tensor.
Proof.
  intros H tensor_shape.
  destruct (generate_tensor_Some _ _ _ _ _ _ _ _ _ _ _ _ _ _ _ H)
    as (rb & d1 & t1 & ins & t2 & center & _ & _ & _ & Hplace & Hwrite & _ & _ & ->).
  fold tensor_shape in Hplace.
  set (d := length sorted) in *. set (w := Z.to_nat tensor_shape.1.2) in *.
  assert (H0 : shaped d w (replicate d
             (replicate w (Own (replicate (Z.to_nat tensor_shape.2) 0))))).
  { split; [by rewrite length_replicate|].
    apply Forall_replicate. by rewrite length_replicate. }
  eapply (foldM_inv (λ st, shaped d w st.1.2)) in Hplace; [|clear Hplace|exact H0].
  2:{ intros [[d3 t3] i3] p [[d4 t4] i4] _ Hs Hstep. simpl in *.
      by eapply place_position_shaped. }
  eapply (foldM_inv (λ st, shaped d w st.2)) in Hwrite; [|clear Hwrite|exact Hplace].
  2:{ intros [d3 t3] e [d4 t4] _ Hs Hstep. simpl in *.
      by eapply write_insert_shaped. }
  destruct Hwrite as [Hd Hw]. simpl in *. split.
  - by rewrite length_map.
  - rewrite Forall_map. eapply Forall_impl; [exact Hw|].
    intros row Hrow. simpl. by rewrite length_map.
Qed.
End Shape.

Section AltInfo.
Context {F : Type} (P : param F) (T : create_tensor).

Lemma af_infos_empty : af_infos = EmptyString.
Proof. done. Qed.

(** Every entry of [base_list] adds one to [depth]. *)
Lemma alt_step_depth1 (reference_base : ascii) alt_dict depth bi :
  (alt_step reference_base (alt_dict, depth) bi).2 = depth + 1.
Proof.
  unfold alt_step. destruct bi as [base indel].
  destruct (char_in base "#*"); [done|].
  destruct indel as [|i0 rest].
  - by destruct (negb _).
  - by destruct (Ascii.eqb i0 "+").
Qed.

Lemma alt_step_depth (reference_base : ascii) (l : list Decode.base_info) :
  ∀ alt_dict depth,
    (fold_left (alt_step reference_base) l (alt_dict, depth)).2
    = depth + Z.of_nat (length l).
Proof.
  induction l as [|bi l IH]; intros alt_dict depth; [simpl; lia|].
  cbn [fold_left length].
  pose proof (alt_step_depth1 reference_base alt_dict depth bi) as H1.
  destruct (alt_step reference_base (alt_dict, depth) bi) as [a1 d1].
  simpl in H1. subst d1. rewrite IH. lia.
Qed.

(** The shape of the alt-info string: depth, alt spectrum, and the empty
    list of allele frequencies. *)
Lemma alt_info_of_form (center : Position F) (reference_base : ascii)
    (reference_sequence : string) (center_pos reference_start : Z)
    (alt_info : string) :
  alt_info_of center reference_base reference_sequence center_pos reference_start
  = Ok alt_info →
  ∃ alts : string,
    alt_info = (str (Z.of_nat (length (base_list center))) ++ "-" ++ alts ++ "-"
                ++ af_infos)%string.
Proof.
  unfold alt_info_of.
  pose proof (alt_step_depth reference_base (base_list center) [] 0) as Hd.
  destruct (fold_left (alt_step reference_base) (base_list center) ([], 0))
    as [alt_dict depth]. simpl in Hd. subst depth.
  intros H. inv_bind H items Hitems. injection H as <-. eauto.
Qed.

(** C10. In every alt-info string the builder returns, the list of
    allele frequencies that follows the second ['-'] is empty: the set it
    is made from is never added to.  The string is the depth, ['-'], the
    alt spectrum and a final ['-']; its last ['-']-separated field is
    empty, and it has exactly three fields, the third one empty, whenever
    the alt spectrum itself holds no ['-']. *)
Theorem alt_info_af_list_empty (mask_low_bq is_tumor : bool)
    (ctg_name ref_seq reference_sequence platform : string)
    (center_pos reference_start : Z) (sorted : list read_entry)
    (pileup_dict pileup_dict' : gmap Z (Position F)) (bed : IntervalTree.bed_tree)
    (hap_dict : gmap string Z) (tensor : list (list (list Z))) (alt_info : string) :
  generate_tensor P T mask_low_bq ctg_name center_pos sorted pileup_dict ref_seq
    reference_sequence reference_start platform bed is_tumor hap_dict
  = Ok (pileup_dict', Some (tensor, alt_info)) →
  af_infos = EmptyString
  ∧ ∃ (depth : Z) (alts : string),
      0 ≤ depth
      ∧ alt_info = (str depth ++ "-" ++ alts ++ "-" ++ af_infos)%string
      ∧ alt_info = (str depth ++ "-" ++ alts ++ "-")%string
      ∧ last (split "-" alt_info) = Some EmptyString
      ∧ (char_in "-" alts = false →
         split "-" alt_info = [str depth; alts; EmptyString]).
Proof.
  intros H. split; [done|].
  destruct (generate_tensor_Some P T _ _ _ _ _ _ _ _ _ _ _ _ _ _ _ H)
    as (rb & d1 & t1 & ins & t2 & center & _ & _ & _ & _ & _ & _ & Halt & _).
  apply alt_info_of_form in Halt as (alts & ->).
  exists (Z.of_nat (length (base_list center))), alts.
  rewrite af_infos_empty.
  split_and!; [lia|done|done| |].
  - replace (str (Z.of_nat (length (base_list center))) ++ "-" ++ alts ++ "-" ++ "")%string
      with ((str (Z.of_nat (length (base_list center))) ++ "-" ++ alts)
            ++ String "-" EmptyString)%string.
    + apply split_last_sep.
    + by rewrite !string_app_assoc.
  - intros Halts.
    change ("-" ++ alts ++ "-" ++ "")%string
      with (String "-" (alts ++ String "-" EmptyString)).
    rewrite split_app_sep by (apply str_nonneg_no_dash; lia).
    rewrite split_app_sep by done. done.
Qed.
End AltInfo.

Section Rows.
Context {F G : Type} `{PyRandom G} `{!PyRandomLaws G} (P : param F)
        (T : create_tensor).

(** C3, as the code has it.  The tensor built for a position and a
    sample has one row for every read of the sorted read list and no
    further row: [min(|U|, max_depth)] rows, [U] being the distinct read
    names of the window, when tensor-sample mode is off, and [|U|] rows
    when it is on.  Every row has [tensor_shape[1]] cells, which is
    [2F + 1] cells when the profile gives the tensor the width of the
    window.  No tensor is returned for an empty read list. *)
Theorem tensor_rows_follow_reads (g g' : G) (center_pos : Z)
    (haplotag_dict hap_dict : gmap string Z)
    (pileup_dict pileup_dict' : gmap Z (Position F)) (max_depth : Z)
    (use_tensor_sample_mode mask_low_bq is_tumor : bool)
    (ctg_name ref_seq reference_sequence platform : string) (reference_start : Z)
    (bed : IntervalTree.bed_tree) (sorted : list read_entry)
    (tensor : list (list (list Z))) (alt_info : string) :
  let U := fromkeys (nearby_read_names P center_pos pileup_dict) in
  let tensor_shape :=
    if String.eqb platform "ont" then ont_input_shape P else input_shape P in
  0 ≤ max_depth →
  sorted_by_hap_read_name P g center_pos haplotag_dict pileup_dict hap_dict
    max_depth use_tensor_sample_mode = Ok (sorted, g') →
  generate_tensor P T mask_low_bq ctg_name center_pos sorted pileup_dict ref_seq
    reference_sequence reference_start platform bed is_tumor hap_dict
  = Ok (pileup_dict', Some (tensor, alt_info)) →
  length tensor = length sorted
  ∧ length tensor =
      (if use_tensor_sample_mode then length U
       else (length U `min` Z.to_nat max_depth)%nat)
  ∧ (0 < length tensor)%nat
  ∧ Forall (λ row, length row = Z.to_nat tensor_shape.1.2) tensor
  ∧ (∀ c, Py.index ref_seq (flankingBaseNum P) = Ok c →
       generate_tensor P T mask_low_bq ctg_name center_pos [] pileup_dict ref_seq
         reference_sequence reference_start platform bed is_tumor hap_dict
       = Ok (pileup_dict, None))
  ∧ (0 ≤ flankingBaseNum P → tensor_shape.1.2 = 2 * flankingBaseNum P + 1 →
     Forall (λ row, Z.of_nat (length row) = 2 * flankingBaseNum P + 1) tensor).
Proof.
  intros U tensor_shape Hk Hsorted Hgen.
  pose proof (OrderingFacts.sorted_by_hap_read_name_length P _ _ _ _ _ _ _ _ _
                Hk Hsorted) as Hlen.
  destruct (generate_tensor_shape P T _ _ _ _ _ _ _ _ _ _ _ _ _ _ _ Hgen)
    as [Hrows Hcols].
  destruct (generate_tensor_Some P T _ _ _ _ _ _ _ _ _ _ _ _ _ _ _ Hgen)
    as (rb & d1 & t1 & ins & t2 & center & _ & Hne & _).
  split_and!.
  - done.
  - by rewrite Hrows.
  - rewrite Hrows. destruct sorted; [done|simpl; lia].
  - done.
  - intros c Hc. unfold generate_tensor. rewrite Hc. done.
  - intros HF Hw. eapply Forall_impl; [exact Hcols|].
    intros row Hrow. simpl in Hrow. rewrite Hrow. fold tensor_shape. lia.
Qed.
End Rows.

Import Examples.

Lemma tensor_rows_follow_reads_witness :
  ∃ sorted g' d' tensor alt_info,
    0 ≤ 3
    ∧ sorted_by_hap_read_name ex_param 0%nat 10 ∅ (ex_window true ex_tumor_rows 12) ∅
        3 false = Ok (sorted, g')
    ∧ generate_tensor ex_param ex_tables false "chr1" 10 sorted
        (ex_window true ex_tumor_rows 12) "TACGT" "ACGTACGTACGTACGTACGT" 1 "ont" []
        true ∅ = Ok (d', Some (tensor, alt_info))
    ∧ length tensor = length sorted
    ∧ length tensor = 2%nat.
Proof.
  eexists _, _, _, _, _.
  split; [lia|]. split; [vm_compute; reflexivity|].
  split; [vm_compute; reflexivity|].
  split; [|vm_compute; reflexivity].
  eapply (tensor_rows_follow_reads (G := nat) ex_param ex_tables 0%nat _ 10 ∅ ∅
            (ex_window true ex_tumor_rows 12) _ 3 false false true "chr1" "TACGT"
            "ACGTACGTACGTACGTACGT" "ont" 1 []).
  - lia.
  - vm_compute; reflexivity.
  - vm_compute; reflexivity.
Defined.

Lemma alt_info_af_list_empty_witness :
  ∃ d' tensor alt_info,
    generate_tensor ex_param ex_tables false "chr1" 10
      [(0, 0%nat, "t1"%string); (0, 1%nat, "t2"%string)]
      (ex_window true ex_tumor_rows 12) "TACGT" "ACGTACGTACGTACGTACGT" 1 "ont" []
      true ∅ = Ok (d', Some (tensor, alt_info))
    ∧ alt_info = "2-ICAC 1-"%string
    ∧ split "-" alt_info = ["2"; "ICAC 1"; ""]%string
    ∧ af_infos = EmptyString.
Proof.
  eexists _, _, _. split; [vm_compute; reflexivity|]. split; [reflexivity|].
  split; [reflexivity|].
  eapply (alt_info_af_list_empty ex_param ex_tables false true "chr1" "TACGT"
            "ACGTACGTACGTACGTACGT" "ont" 10 1
            [(0, 0%nat, "t1"%string); (0, 1%nat, "t2"%string)]
            (ex_window true ex_tumor_rows 12) _ [] ∅).
  vm_compute. reflexivity.
Defined.

(** C3 as stated fails: the tumor matrix depth of the profile is 3, and the
    tensor built for the two tumor reads of the window has two rows. *)
Lemma tensor_rows_counterexample :
  ∃ sorted g' d' tensor alt_info,
    tumor_matrix_depth_dict ex_param "ont" = Some 3
    ∧ sorted_by_hap_read_name ex_param 0%nat 10 ∅ (ex_window true ex_tumor_rows 12) ∅
        3 false = Ok (sorted, g')
    ∧ generate_tensor ex_param ex_tables false "chr1" 10 sorted
        (ex_window true ex_tumor_rows 12) "TACGT" "ACGTACGTACGTACGTACGT" 1 "ont" []
        true ∅ = Ok (d', Some (tensor, alt_info))
    ∧ length tensor = 2%nat
    ∧ Z.of_nat (length tensor) ≠ 3.
Proof.
  eexists _, _, _, _, _.
  split; [reflexivity|]. split; [vm_compute; reflexivity|].
  split; [vm_compute; reflexivity|].
  split; [vm_compute; reflexivity|vm_compute; discriminate].
Qed.

End TensorFacts.

(** * Where the inserted bases go *)

Module InsertFacts.
Import Py PyFacts Tensor TensorFacts.

Lemma name_at_inj (sorted : list read_entry) (r1 r2 : nat) (n : string) :
  NoDup (map (λ e : read_entry, e.2) sorted) →
  name_at sorted r1 = Some n → name_at sorted r2 = Some n → r1 = r2.
Proof.
  intros Hnd H1 H2. unfold name_at in *.
  eapply NoDup_lookup; [exact Hnd| |]; by rewrite list_lookup_fmap.
Qed.

Section Write.
Context {F : Type} (P : param F) (T : create_tensor).
Implicit Types (d : gmap Z (Position F)) (t : list (list cell)).

(** A write sets channel 6 of the cell it addresses. *)
Lemma write6_same d t r c v d' t' :
  write6 (d, t) r c v = Ok (d', t') → chan6 d' t' r c = Some v.
Proof.
  unfold write6, chan6. intros H. inv_bind H row Hrow. inv_bind H x Hx.
  apply list_get_Ok in Hrow, Hx. destruct x as [l|p name].
  - inv_bind H l' Hl'. inv_bind H t1 Ht1. injection H as <- <-.
    apply list_set_Ok in Hl' as [Hlen ->].
    apply set_cell_Ok in Ht1 as (row' & Hrow' & Hc & ->).
    rewrite list_lookup_insert_eq by (by eapply lookup_lt_Some). simpl.
    rewrite list_lookup_insert_eq by done. simpl.
    by rewrite list_lookup_insert_eq.
  - inv_bind H y Hy. inv_bind H ci Hci. destruct ci as [ch ib].
    inv_bind H ch' Hch'. injection H as <- <-.
    apply of_option_Ok in Hy, Hci. apply list_set_Ok in Hch' as [Hlen ->].
    rewrite Hrow. simpl. rewrite Hx. simpl.
    rewrite lookup_insert_eq. simpl. rewrite lookup_insert_eq.
    by rewrite list_lookup_insert_eq.
Qed.

(** A write keeps the layout of the tensor and the inserted sequences of
    the store. *)
Lemma write6_keeps start_pos sorted d t r c v d' t' :
  write6 (d, t) r c v = Ok (d', t') →
  (tensor_ok start_pos sorted t → tensor_ok start_pos sorted t')
  ∧ (∀ p name, ins_at d' p name = ins_at d p name).
Proof.
  unfold write6. intros H. inv_bind H row Hrow. inv_bind H x Hx.
  apply list_get_Ok in Hrow, Hx. destruct x as [l|p name].
  - inv_bind H l' Hl'. inv_bind H t1 Ht1. injection H as <- <-.
    apply set_cell_Ok in Ht1 as (row' & Hrow' & Hc & ->). split; [|done].
    intros Hok r2 row2 c2 x2 Hr2 Hc2.
    destruct (decide (r2 = r)) as [->|Hr].
    + rewrite list_lookup_insert_eq in Hr2 by (by eapply lookup_lt_Some).
      injection Hr2 as <-. destruct (decide (c2 = c)) as [->|Hcc].
      * rewrite list_lookup_insert_eq in Hc2 by done. by injection Hc2 as <-.
      * rewrite list_lookup_insert_ne in Hc2 by done. by eapply Hok.
    + rewrite list_lookup_insert_ne in Hr2 by done. by eapply Hok.
  - inv_bind H y Hy. inv_bind H ci Hci. destruct ci as [ch ib].
    inv_bind H ch' Hch'. injection H as <- <-.
    apply of_option_Ok in Hy, Hci. split; [done|].
    intros p2 n2. unfold ins_at. destruct (decide (p2 = p)) as [->|Hp].
    + rewrite lookup_insert_eq, Hy. simpl.
      destruct (decide (n2 = name)) as [->|Hn].
      * by rewrite lookup_insert_eq, Hci.
      * by rewrite lookup_insert_ne.
    + by rewrite lookup_insert_ne.
Qed.

(** A write leaves channel 6 of every other cell alone, the rows having
    distinct read names. *)
Lemma write6_other start_pos sorted d t r c v d' t' r2 c2 :
  NoDup (map (λ e : read_entry, e.2) sorted) →
  tensor_ok start_pos sorted t →
  write6 (d, t) r c v = Ok (d', t') →
  (r2, c2) ≠ (r, c) →
  chan6 d' t' r2 c2 = chan6 d t r2 c2.
Proof.
  intros Hnd Hok H Hne. unfold write6 in H. unfold chan6.
  inv_bind H row Hrow. inv_bind H x Hx.
  apply list_get_Ok in Hrow, Hx. destruct x as [l|p name].
  - inv_bind H l' Hl'. inv_bind H t1 Ht1. injection H as <- <-.
    apply set_cell_Ok in Ht1 as (row' & Hrow' & Hc & ->).
    rewrite Hrow in Hrow'. injection Hrow' as <-.
    destruct (decide (r2 = r)) as [->|Hr].
    + rewrite list_lookup_insert_eq by (by eapply lookup_lt_Some).
      rewrite Hrow. simpl. rewrite list_lookup_insert_ne by congruence. done.
    + by rewrite list_lookup_insert_ne.
  - inv_bind H y Hy. inv_bind H ci Hci. destruct ci as [ch ib].
    inv_bind H ch' Hch'. injection H as <- <-.
    apply of_option_Ok in Hy, Hci.
    destruct (t !! r2) as [row2|] eqn:Er2; [|done]. simpl.
    destruct (row2 !! c2) as [x2|] eqn:Ec2; [|done]. simpl.
    destruct x2 as [l2|p2 n2]; [done|]. simpl.
    pose proof (Hok _ _ _ _ Hrow Hx) as [Hp Hn].
    pose proof (Hok _ _ _ _ Er2 Ec2) as [Hp2 Hn2].
    destruct (decide (p2 = p)) as [->|Hpp]; [|by rewrite lookup_insert_ne].
    assert (c2 = c) as -> by lia.
    rewrite lookup_insert_eq, Hy. simpl.
    destruct (decide (n2 = name)) as [->|Hnn]; [|by rewrite lookup_insert_ne].
    exfalso. apply Hne. f_equal. by eapply name_at_inj.
Qed.

(** The inner loop of one entry, over any list of distinct indices. *)
Lemma write_loop_spec start_pos sorted (r : nat) (o : Z) (s : string)
    (L : list Z) : ∀ d t d' t',
  NoDup (map (λ e : read_entry, e.2) sorted) → 0 ≤ o →
  NoDup L → Forall (λ i, 0 ≤ i) L → tensor_ok start_pos sorted t →
  foldM (write_base T r o s) (d, t) L = Ok (d', t') →
  tensor_ok start_pos sorted t'
  ∧ (∀ p n, ins_at d' p n = ins_at d p n)
  ∧ (∀ i, i ∈ L →
       ∃ c v, index s i = Ok c ∧ ACGT_NUM T c = Some v
              ∧ chan6 d' t' r (Z.to_nat (i + o)) = Some v)
  ∧ (∀ r2 c2, (r2 ≠ r ∨ ∀ i, i ∈ L → c2 ≠ Z.to_nat (i + o)) →
       chan6 d' t' r2 c2 = chan6 d t r2 c2).
Proof.
  induction L as [|i L IH]; intros d t d' t' Hnd Ho HL Hpos Hok Hfold.
  - injection Hfold as <- <-. split_and!; [done..| |done].
    intros i ?%elem_of_nil. done.
  - apply NoDup_cons in HL as [Hi HL]. apply Forall_cons in Hpos as [Hi0 Hpos].
    rewrite foldM_cons in Hfold. apply bind_Ok in Hfold as ([d1 t1] & Hstep & Hfold).
    unfold write_base in Hstep. inv_bind Hstep c Hc. inv_bind Hstep v Hv.
    apply of_option_Ok in Hv.
    destruct (write6_keeps start_pos sorted _ _ _ _ _ _ _ Hstep) as [Hok1 Hins1].
    destruct (IH d1 t1 d' t' Hnd Ho HL Hpos (Hok1 Hok) Hfold)
      as (Hok' & Hins' & Hval & Hframe).
    split_and!.
    + done.
    + intros p n. by rewrite Hins', Hins1.
    + intros j [->|Hj]%elem_of_cons; [|by apply Hval].
      exists c, v. split_and!; [done..|].
      rewrite Hframe; [by eapply write6_same|]. right.
      intros j Hj Heq. rewrite Forall_forall in Hpos. specialize (Hpos j Hj).
      assert (i = j) by lia. by subst.
    + intros r2 c2 Hne. rewrite Hframe.
      * eapply write6_other; [done..|]. intros [= -> ->].
        destruct Hne as [?|Hne]; [done|]. by apply (Hne i); [left|].
      * destruct Hne as [?|Hne]; [by left|right]. intros j Hj. apply Hne. by right.
Qed.

(** One entry of [insert_tuple]: its inner loop writes the codes of the
    inserted bases into channel 6 of the columns [offset + ins_idx] of its
    row, and touches channel 6 of no other cell. *)
Lemma write_insert_spec start_pos sorted (e : insert_entry) d t d' t' :
  NoDup (map (λ e : read_entry, e.2) sorted) →
  0 ≤ offset_of e → tensor_ok start_pos sorted t →
  write_insert P T (d, t) e = Ok (d', t') →
  tensor_ok start_pos sorted t'
  ∧ (∀ p n, ins_at d' p n = ins_at d p n)
  ∧ (∀ i, 0 ≤ i < Z.min (Z.of_nat (String.length e.1.2))
                     (no_of_positions P - offset_of e) →
       ∃ c v, index e.1.2 i = Ok c ∧ ACGT_NUM T c = Some v
              ∧ chan6 d' t' e.1.1.1 (Z.to_nat (i + offset_of e)) = Some v)
  ∧ (∀ r2 c2, ¬ covers P e r2 c2 → chan6 d' t' r2 c2 = chan6 d t r2 c2).
Proof.
  destruct e as [[[r o] s] p0]. unfold offset_of. cbn [fst snd].
  intros Hnd Ho Hok Hw. unfold write_insert in Hw.
  destruct (write_loop_spec start_pos sorted r o s
              (range 0 (Z.min (Z.of_nat (String.length s)) (no_of_positions P - o)))
              d t d' t') as (H1 & H2 & H3 & H4);
    [done|done|apply range_NoDup| |done|exact Hw|].
  { apply Forall_forall. intros i Hi%elem_of_range. lia. }
  split_and!; [done..| |].
  - intros i Hi. apply H3. by apply elem_of_range.
  - intros r2 c2 Hcov. apply H4.
    destruct (decide (r2 = r)) as [->|]; [right|by left].
    intros i Hi%elem_of_range ->. apply Hcov. unfold covers. split; [done|].
    exists i. split; [lia|done].
Qed.

(** The whole loop over [insert_tuple]: a cell that no entry covers keeps
    its channel 6. *)
Lemma write_all_frame start_pos sorted (es : list insert_entry) : ∀ d t d' t',
  NoDup (map (λ e : read_entry, e.2) sorted) →
  Forall (λ e, 0 ≤ offset_of e) es → tensor_ok start_pos sorted t →
  foldM (write_insert P T) (d, t) es = Ok (d', t') →
  tensor_ok start_pos sorted t'
  ∧ (∀ p n, ins_at d' p n = ins_at d p n)
  ∧ (∀ r2 c2, (∀ e, e ∈ es → ¬ covers P e r2 c2) →
       chan6 d' t' r2 c2 = chan6 d t r2 c2).
Proof.
  induction es as [|e es IH]; intros d t d' t' Hnd Hpos Hok Hfold.
  - by injection Hfold as <- <-.
  - apply Forall_cons in Hpos as [He Hpos]. rewrite foldM_cons in Hfold.
    apply bind_Ok in Hfold as ([d1 t1] & Hstep & Hfold).
    destruct (write_insert_spec start_pos sorted e d t d1 t1 Hnd He Hok Hstep)
      as (Hok1 & Hins1 & _ & Hframe1).
    destruct (IH d1 t1 d' t' Hnd Hpos Hok1 Hfold) as (Hok' & Hins' & Hframe').
    split_and!; [done| |].
    + intros p n. by rewrite Hins', Hins1.
    + intros r2 c2 Hcov. rewrite Hframe', Hframe1; [done| |].
      * apply Hcov. by left.
      * intros e' He'. apply Hcov. by right.
Qed.

(** The last entry that covers a cell decides its channel 6. *)
Lemma write_all_last start_pos sorted (pre post : list insert_entry)
    (e : insert_entry) d t d' t' (i : Z) :
  NoDup (map (λ e : read_entry, e.2) sorted) →
  Forall (λ e, 0 ≤ offset_of e) (pre ++ e :: post) →
  tensor_ok start_pos sorted t →
  foldM (write_insert P T) (d, t) (pre ++ e :: post) = Ok (d', t') →
  0 ≤ i < Z.min (Z.of_nat (String.length e.1.2)) (no_of_positions P - offset_of e) →
  (∀ e', e' ∈ post → ¬ covers P e' e.1.1.1 (Z.to_nat (i + offset_of e))) →
  ∃ c v, index e.1.2 i = Ok c ∧ ACGT_NUM T c = Some v
         ∧ chan6 d' t' e.1.1.1 (Z.to_nat (i + offset_of e)) = Some v.
Proof.
  intros Hnd Hpos Hok Hfold Hi Hpost.
  apply Forall_app in Hpos as [Hpre Hpos]. apply Forall_cons in Hpos as [He Hpos].
  rewrite foldM_app in Hfold. apply bind_Ok in Hfold as ([d1 t1] & Hf1 & Hfold).
  rewrite foldM_cons in Hfold. apply bind_Ok in Hfold as ([d2 t2] & Hstep & Hf2).
  destruct (write_all_frame start_pos sorted pre d t d1 t1 Hnd Hpre Hok Hf1)
    as (Hok1 & _ & _).
  destruct (write_insert_spec start_pos sorted e d1 t1 d2 t2 Hnd He Hok1 Hstep)
    as (Hok2 & _ & Hval & _).
  destruct (write_all_frame start_pos sorted post d2 t2 d' t' Hnd Hpos Hok2 Hf2)
    as (_ & _ & Hframe).
  destruct (Hval i Hi) as (c & v & Hc & Hv & Hch).
  exists c, v. split_and!; [done..|]. by rewrite Hframe.
Qed.
End Write.

Section Place.
Context {F : Type} (P : param F) (T : create_tensor).
Implicit Types (d : gmap Z (Position F)) (t : list (list cell)).

Lemma set_cell_ok start_pos sorted t r c x t' :
  set_cell t r c x = Ok t' → cell_ok start_pos sorted r c x →
  tensor_ok start_pos sorted t → tensor_ok start_pos sorted t'.
Proof.
  intros Hset Hx Hok.
  apply set_cell_Ok in Hset as (row & Hrow & Hc & ->).
  intros r2 row2 c2 x2 Hr2 Hc2.
  destruct (decide (r2 = r)) as [->|Hr].
  - rewrite list_lookup_insert_eq in Hr2 by (by eapply lookup_lt_Some).
    injection Hr2 as <-. destruct (decide (c2 = c)) as [->|Hcc].
    + rewrite list_lookup_insert_eq in Hc2 by done. by injection Hc2 as <-.
    + rewrite list_lookup_insert_ne in Hc2 by done. by eapply Hok.
  - rewrite list_lookup_insert_ne in Hr2 by done. by eapply Hok.
Qed.

(** One read at one position: the cell is aliased to the list of the
    store, and the entry of the read, if any, is appended. *)
Lemma place_read_spec d p start_pos end_pos sorted t ins r e t' ins' :
  start_pos ≤ p → sorted !! r = Some e →
  place_read d p start_pos end_pos (t, ins) (r, e) = Ok (t', ins') →
  ins' = ins ++ option_list (entry_at d start_pos end_pos p (r, e))
  ∧ (tensor_ok start_pos sorted t → tensor_ok start_pos sorted t').
Proof.
  intros Hp He H. destruct e as [[hap ord] name].
  unfold place_read in H. unfold entry_at, ins_at.
  destruct (d !! p) as [x|] eqn:Ex; simpl.
  2:{ injection H as <- <-. by rewrite app_nil_r. }
  destruct (read_info x !! name) as [[rc ib]|] eqn:En; simpl.
  2:{ injection H as <- <-. by rewrite app_nil_r. }
  inv_bind H t1 Ht1.
  assert (Hk : tensor_ok start_pos sorted t → tensor_ok start_pos sorted t1).
  { eapply set_cell_ok; [exact Ht1|]. split; [lia|].
    unfold name_at. by rewrite He. }
  destruct (negb (String.eqb ib EmptyString) && (p <? end_pos - 1)).
  - by injection H as <- <-.
  - injection H as <- <-. by rewrite app_nil_r.
Qed.

Lemma place_reads_spec d p start_pos end_pos sorted
    (items : list (nat * read_entry)) : ∀ t ins t' ins',
  start_pos ≤ p → Forall (λ it, sorted !! it.1 = Some it.2) items →
  foldM (place_read d p start_pos end_pos) (t, ins) items = Ok (t', ins') →
  ins' = ins ++ omap (entry_at d start_pos end_pos p) items
  ∧ (tensor_ok start_pos sorted t → tensor_ok start_pos sorted t').
Proof.
  induction items as [|[r e] items IH]; intros t ins t' ins' Hp Hit Hfold.
  - injection Hfold as <- <-. by rewrite app_nil_r.
  - apply Forall_cons in Hit as [He Hit]. cbn [fst snd] in He.
    rewrite foldM_cons in Hfold.
    apply bind_Ok in Hfold as ([t1 ins1] & Hstep & Hfold).
    destruct (place_read_spec _ _ _ _ sorted _ _ _ _ _ _ Hp He Hstep) as [-> Hk1].
    destruct (IH _ _ _ _ Hp Hit Hfold) as [-> Hk2].
    split; [|by auto]. rewrite <- List.app_assoc. f_equal.
    change (omap (entry_at d start_pos end_pos p) ((r, e) :: items))
      with (match entry_at d start_pos end_pos p (r, e) with
            | Some y => y :: omap (entry_at d start_pos end_pos p) items
            | None => omap (entry_at d start_pos end_pos p) items
            end).
    by destruct (entry_at d start_pos end_pos p (r, e)).
Qed.

Lemma items_lookup (sorted : list read_entry) :
  Forall (λ it : nat * read_entry, sorted !! it.1 = Some it.2)
         (imap (λ i e, (i, e)) sorted).
Proof.
  apply Forall_lookup. intros i [r e] Hi.
  rewrite list_lookup_imap in Hi.
  destruct (sorted !! i) as [e'|] eqn:E; [|done]. by injection Hi as <- <-.
Qed.

(** What [entries_of] reads of the store. *)
Lemma entries_of_ext d1 d2 start_pos end_pos sorted p :
  (∀ n, ins_at d1 p n = ins_at d2 p n) →
  entries_of d1 start_pos end_pos sorted p = entries_of d2 start_pos end_pos sorted p.
Proof.
  intros Heq. unfold entries_of. apply list_omap_ext, Forall_Forall2_diag.
  apply Forall_forall. intros [r [[hap ord] name]] _. unfold entry_at.
  by rewrite Heq.
Qed.

Lemma ins_at_ext d1 d2 p n : d1 !! p = d2 !! p → ins_at d1 p n = ins_at d2 p n.
Proof. unfold ins_at. by intros ->. Qed.

(** One position of the placing loop. *)
Lemma place_position_spec is_tumor hap_dict mask_low_bq platform start_pos end_pos
    sorted d t ins p d' t' ins' :
  start_pos ≤ p →
  place_position P T is_tumor hap_dict mask_low_bq platform start_pos end_pos sorted
    (d, t, ins) p = Ok (d', t', ins') →
  (∀ q, q ≠ p → d' !! q = d !! q)
  ∧ ins' = ins ++ entries_of d' start_pos end_pos sorted p
  ∧ (tensor_ok start_pos sorted t → tensor_ok start_pos sorted t').
Proof.
  intros Hp H. unfold place_position in H.
  inv_bind H d1 Hd1. inv_bind H st Hst. destruct st as [t1 ins1].
  injection H as <- <- <-.
  destruct (place_reads_spec _ _ _ _ sorted _ _ _ _ _ Hp (items_lookup sorted) Hst)
    as [-> Hk].
  split_and!; [|done|done].
  intros q Hq. destruct (d !! p) as [x|] eqn:Ex.
  - destruct (negb (update_info x)).
    + inv_bind Hd1 x' Hx'. injection Hd1 as <-. by rewrite lookup_insert_ne.
    + by injection Hd1 as <-.
  - by injection Hd1 as <-.
Qed.

(** The placing loop, over any list of distinct positions of the window. *)
Lemma place_positions_spec is_tumor hap_dict mask_low_bq platform start_pos end_pos
    sorted (L : list Z) : ∀ d t ins d' t' ins',
  NoDup L → Forall (λ p, start_pos ≤ p) L →
  foldM (place_position P T is_tumor hap_dict mask_low_bq platform start_pos end_pos
           sorted) (d, t, ins) L = Ok (d', t', ins') →
  (∀ q, q ∉ L → d' !! q = d !! q)
  ∧ ins' = ins ++ concat (map (entries_of d' start_pos end_pos sorted) L)
  ∧ (tensor_ok start_pos sorted t → tensor_ok start_pos sorted t').
Proof.
  induction L as [|p L IH]; intros d t ins d' t' ins' HL Hge Hfold.
  - injection Hfold as <- <- <-. by rewrite app_nil_r.
  - apply NoDup_cons in HL as [Hp HL]. apply Forall_cons in Hge as [Hp0 Hge].
    rewrite foldM_cons in Hfold.
    apply bind_Ok in Hfold as ([[d1 t1] ins1] & Hstep & Hfold).
    destruct (place_position_spec _ _ _ _ _ _ _ _ _ _ _ _ _ _ Hp0 Hstep)
      as (Hd1 & -> & Hk1).
    destruct (IH _ _ _ _ _ _ HL Hge Hfold) as (Hd' & -> & Hk').
    split_and!.
    + intros q Hq. apply not_elem_of_cons in Hq as [Hqp Hq].
      by rewrite Hd', Hd1.
    + rewrite <- List.app_assoc. f_equal. cbn [map concat]. f_equal.
      apply entries_of_ext. intros n. apply ins_at_ext. symmetry. by apply Hd'.
    + by auto.
Qed.
End Place.

Section Anchor.
Context {F : Type} (P : param F) (T : create_tensor).
Implicit Types (d : gmap Z (Position F)) (t : list (list cell)).

Lemma elem_of_entries_of d start_pos end_pos sorted q (e : insert_entry) :
  e ∈ entries_of d start_pos end_pos sorted q →
  ∃ name, name_at sorted e.1.1.1 = Some name
          ∧ ins_at d q name = Some e.1.2
          ∧ e.1.2 ≠ EmptyString ∧ q < end_pos - 1
          ∧ offset_of e = q - start_pos.
Proof.
  unfold entries_of. intros ([r [[hap ord] name]] & Hit & He)%list_elem_of_omap.
  apply elem_of_lookup_imap in Hit as (i & y & [= -> <-] & Hy).
  unfold entry_at in He. destruct (ins_at d q name) as [ib|] eqn:Ei; [|done].
  destruct (negb (String.eqb ib EmptyString) && (q <? end_pos - 1)) eqn:Ec; [|done].
  injection He as <-. apply andb_true_iff in Ec as [Hne Hq].
  exists name. unfold name_at, offset_of. cbn [fst snd]. rewrite Hy.
  split_and!; [done|done| |lia|done].
  intros ->. by rewrite String.eqb_refl in Hne.
Qed.

(** The entries of one position come in the order of the rows: after the
    entry of row [r] come entries of other rows only. *)
Lemma entries_of_split d start_pos end_pos sorted p (r : nat) (e : read_entry) :
  sorted !! r = Some e →
  ∃ pre post,
    entries_of d start_pos end_pos sorted p
    = pre ++ option_list (entry_at d start_pos end_pos p (r, e)) ++ post
    ∧ ∀ e' : insert_entry, e' ∈ post → e'.1.1.1 ≠ r.
Proof.
  intros He. unfold entries_of.
  assert (Hlen : length (take r sorted) = r).
  { rewrite length_take. apply lookup_lt_Some in He. lia. }
  pose proof (take_drop_middle sorted r e He) as Hs.
  revert Hlen Hs. generalize (take r sorted) (drop (S r) sorted).
  intros l1 l2 Hlen <-.
  rewrite imap_app, omap_app, imap_cons, Hlen, Nat.add_0_r.
  eexists _, _. split.
  - f_equal.
    change (omap (entry_at d start_pos end_pos p) ((r, e) :: ?l))
      with (match entry_at d start_pos end_pos p (r, e) with
            | Some y => y :: omap (entry_at d start_pos end_pos p) l
            | None => omap (entry_at d start_pos end_pos p) l
            end).
    by destruct (entry_at d start_pos end_pos p (r, e)).
  - intros e' ([r' [[hap ord] name]] & Hit & He')%list_elem_of_omap.
    apply elem_of_lookup_imap in Hit as (i & y & Heq & Hy).
    simpl in Heq. injection Heq as -> <-.
    unfold entry_at in He'. destruct (ins_at d p name) as [ib|]; [|done].
    destruct (negb (String.eqb ib EmptyString) && (p <? end_pos - 1)); [|done].
    injection He' as <-. simpl. lia.
Qed.

Lemma chan6_tensor_at d t r c :
  tensor_at (map (map (cell_value d)) t) r c 6 = chan6 d t r c.
Proof.
  unfold tensor_at, chan6. rewrite list_lookup_fmap.
  destruct (t !! r) as [row|]; [|done]. simpl. rewrite list_lookup_fmap.
  by destruct (row !! c).
Qed.

Lemma elem_of_concat_map {A B : Type} (f : A → list B) (l : list A) (y : B) :
  y ∈ concat (map f l) ↔ ∃ x, x ∈ l ∧ y ∈ f x.
Proof.
  induction l as [|a l IH]; simpl.
  - split; [by intros ?%elem_of_nil|]. by intros (x & ?%elem_of_nil & _).
  - rewrite elem_of_app, IH. split.
    + intros [Hy|(x & Hx & Hy)]; [exists a|exists x]; split; try done;
        [by left|by right].
    + intros (x & [->|Hx]%elem_of_cons & Hy); [by left|right; eauto].
Qed.

Lemma initial_tensor_ok start_pos sorted (n w : nat) (l : list Z) :
  tensor_ok start_pos sorted (replicate n (replicate w (Own l))).
Proof.
  intros r row c x Hr Hc. apply lookup_replicate in Hr as [-> _].
  by apply lookup_replicate in Hc as [-> _].
Qed.

End Anchor.

Section Inserted.
Context {F : Type} (P : param F) (T : create_tensor).

(** The inserted sequence that [get_tensor_info] returns: the upper-cased
    bases of a [+] indel, and the empty string for every other base. *)
Lemma get_tensor_info_ins_base (base : ascii) (indel : string) (bq : Z)
    (ref_base : ascii) (mask_low_bq : bool) (read_mq : Z) (is_tumor : bool)
    (hp : Z) (read_channel : list Z) (ins_base query_base : string) :
  get_tensor_info P T (base, indel) bq ref_base mask_low_bq read_mq is_tumor hp
  = Ok (read_channel, ins_base, query_base) →
  ins_base = if char_in base "*#" then EmptyString
             else match indel with
                  | String "+" rest => upper rest
                  | _ => EmptyString
                  end.
Proof.
  unfold get_tensor_info. intros H. inv_bind H hap_type Hhap.
  destruct (char_in base "*#").
  - inv_bind H v Hv. inv_bind H rc Hrc. by injection H as _ <- _.
  - inv_bind H abu Habu. destruct abu as [[a b] u].
    inv_bind H rb Hrb. by injection H as _ <- _.
Qed.
End Inserted.

Section Pipeline.
Context {F G : Type} `{PyRandom G} `{!PyRandomLaws G} (P : param F)
        (T : create_tensor).

(** C2, as the code has it.  In the tensor built for the reads that the
    read ordering returns, the inserted bases of a read are written into
    channel 6 from the column of the insertion itself: for the read of
    row [r] that has the non-empty inserted sequence [ins_base] at window
    offset [o], the offset not being the last one of the window, base [i]
    of the sequence is in channel 6 of column [o + i], for every [i] below
    [min(len(ins_base), no_of_positions - o)].  The first base is at
    column [o], not [o + 1].  A base is overwritten by an insertion that
    the same read has at a later offset up to [o + i], so the read is
    taken to have none there. *)
Theorem insertion_written_from_anchor (g g' : G) (center_pos : Z)
    (haplotag_dict hap_dict : gmap string Z)
    (pileup_dict pileup_dict' : gmap Z (Position F)) (max_depth : Z)
    (use_tensor_sample_mode mask_low_bq is_tumor : bool)
    (ctg_name ref_seq reference_sequence platform : string) (reference_start : Z)
    (bed : IntervalTree.bed_tree) (sorted : list read_entry)
    (tensor : list (list (list Z))) (alt_info : string)
    (r : nat) (read_name ins_base : string) (o i : Z) :
  let start_pos := center_pos - flankingBaseNum P in
  let end_pos := center_pos + flankingBaseNum P + 1 in
  0 ≤ max_depth →
  sorted_by_hap_read_name P g center_pos haplotag_dict pileup_dict hap_dict
    max_depth use_tensor_sample_mode = Ok (sorted, g') →
  generate_tensor P T mask_low_bq ctg_name center_pos sorted pileup_dict ref_seq
    reference_sequence reference_start platform bed is_tumor hap_dict
  = Ok (pileup_dict', Some (tensor, alt_info)) →
  name_at sorted r = Some read_name →
  0 ≤ o → start_pos + o < end_pos - 1 →
  ins_at pileup_dict' (start_pos + o) read_name = Some ins_base →
  ins_base ≠ EmptyString →
  0 ≤ i < Z.min (Z.of_nat (String.length ins_base)) (no_of_positions P - o) →
  (∀ j s, 0 < j ≤ i → start_pos + o + j < end_pos - 1 →
          ins_at pileup_dict' (start_pos + o + j) read_name = Some s →
          s = EmptyString) →
  ∃ c v, index ins_base i = Ok c ∧ ACGT_NUM T c = Some v
         ∧ tensor_at tensor r (Z.to_nat (o + i)) 6 = Some v.
Proof.
  intros start_pos end_pos Hdepth Hsorted Hgen Hname Ho Hlast Hins Hne Hi Hlater.
  pose proof (OrderingFacts.sorted_by_hap_read_name_NoDup P _ _ _ _ _ _ _ _ _
                Hdepth Hsorted) as Hnd.
  destruct (generate_tensor_Some P T _ _ _ _ _ _ _ _ _ _ _ _ _ _ _ Hgen)
    as (rb & d1 & t1 & ins & t2 & center & _ & _ & _ & Hplace & Hwrite & _ & _ & ->).
  fold start_pos end_pos in Hplace. rewrite chan6_tensor_at.
  assert (Hge : Forall (λ q, start_pos ≤ q) (range start_pos end_pos)).
  { apply Forall_forall. intros q Hq%elem_of_range. lia. }
  destruct (place_positions_spec P T _ _ _ _ _ _ _ (range start_pos end_pos)
              _ _ _ _ _ _ (range_NoDup _ _) Hge Hplace)
    as (_ & Hins_eq & Hk).
  rewrite app_nil_l in Hins_eq.
  pose proof (Hk (initial_tensor_ok _ _ _ _ _)) as Hok1.
  assert (Hoff : Forall (λ e, 0 ≤ offset_of e) ins).
  { apply Forall_forall. intros e He. rewrite Hins_eq in He.
    apply elem_of_concat_map in He as (q & Hq%elem_of_range & He).
    apply elem_of_entries_of in He as (_ & _ & _ & _ & _ & ->). lia. }
  destruct (write_all_frame P T start_pos sorted ins d1 t1 pileup_dict' t2 Hnd Hoff
              Hok1 Hwrite) as (_ & Hsame & _).
  set (p := start_pos + o) in *.
  destruct (sorted !! r) as [[[hap ord] nm]|] eqn:Er;
    [|by unfold name_at in Hname; rewrite Er in Hname].
  assert (nm = read_name) as ->.
  { unfold name_at in Hname. rewrite Er in Hname. by injection Hname. }
  destruct (entries_of_split d1 start_pos end_pos sorted p r _ Er)
    as (pre & post & Hsplit & Hpost).
  assert (He0 : entry_at d1 start_pos end_pos p
                  (r, ((hap, ord, read_name) : read_entry))
                = Some (r, p - start_pos, ins_base, p)).
  { unfold entry_at. rewrite <- Hsame, Hins.
    apply String.eqb_neq in Hne. rewrite Hne.
    by rewrite (proj2 (Z.ltb_lt p (end_pos - 1)) Hlast). }
  rewrite He0 in Hsplit. simpl in Hsplit.
  rewrite (range_split start_pos end_pos p) in Hins_eq by (unfold p; lia).
  rewrite map_app, concat_app in Hins_eq. cbn [map concat] in Hins_eq.
  rewrite Hsplit in Hins_eq.
  rewrite <- !List.app_assoc in Hins_eq. cbn [app] in Hins_eq.
  rewrite List.app_assoc in Hins_eq.
  rewrite Hins_eq in Hoff, Hwrite.
  destruct (write_all_last P T start_pos sorted _ _ _ d1 t1 pileup_dict' t2 i Hnd
              Hoff Hok1 Hwrite) as (c & v & Hc & Hv & Hch).
  - unfold offset_of. cbn [fst snd]. unfold p. lia.
  - cbn [fst snd]. unfold offset_of. cbn [fst snd].
    intros e' [He'|He']%elem_of_app Hcov.
    + apply Hpost in He'. destruct e' as [[[r' o'] s'] p'].
      simpl in He'. by destruct Hcov as [-> _].
    + apply elem_of_concat_map in He' as (q & Hq%elem_of_range & He').
      apply elem_of_entries_of in He' as (name & Hn & Hq_ins & Hs & Hq_last & Hq_off).
      destruct e' as [[[r' o'] s'] p']. unfold offset_of in Hq_off.
      cbn [fst snd] in *. destruct Hcov as [-> (i' & Hi' & Hcol)]. subst o'.
      assert (name = read_name) as ->.
      { unfold name_at in Hn. rewrite Er in Hn. by injection Hn. }
      apply Hs, (Hlater (q - p)); [unfold p in *; lia|unfold p in *; lia|].
      rewrite <- Hq_ins, <- Hsame. f_equal. unfold p. lia.
  - exists c, v. cbn [fst snd] in *. split_and!; [done..|].
    rewrite <- Hch. f_equal. unfold offset_of. cbn [fst snd]. unfold p. lia.
Qed.
End Pipeline.

Import Examples.

Lemma insertion_written_from_anchor_witness :
  ∃ sorted g' d' tensor alt_info,
    sorted_by_hap_read_name ex_param 0%nat 10 ∅ (ex_window true ex_tumor_rows 12) ∅
      3 false = Ok (sorted, g')
    ∧ generate_tensor ex_param ex_tables false "chr1" 10 sorted
        (ex_window true ex_tumor_rows 12) "TACGT" "ACGTACGTACGTACGTACGT" 1 "ont" []
        true ∅ = Ok (d', Some (tensor, alt_info))
    ∧ name_at sorted 0 = Some "t1"%string
    ∧ ins_at d' (10 - 2 + 2) "t1" = Some "AC"%string
    ∧ ∃ c v, index "AC" 1 = Ok c ∧ ACGT_NUM ex_tables c = Some v
             ∧ tensor_at tensor 0 (Z.to_nat (2 + 1)) 6 = Some v.
Proof.
  eexists _, _, _, _, _.
  split; [vm_compute; reflexivity|]. split; [vm_compute; reflexivity|].
  split; [vm_compute; reflexivity|]. split; [vm_compute; reflexivity|].
  eapply (insertion_written_from_anchor (G := nat) ex_param ex_tables 0%nat _ 10 ∅ ∅
            (ex_window true ex_tumor_rows 12) _ 3 false false true "chr1" "TACGT"
            "ACGTACGTACGTACGTACGT" "ont" 1 [] _ _ _ 0%nat "t1" "AC" 2 1).
  - lia.
  - vm_compute; reflexivity.
  - vm_compute; reflexivity.
  - vm_compute; reflexivity.
  - lia.
  - vm_compute; reflexivity.
  - vm_compute; reflexivity.
  - discriminate.
  - vm_compute. split; [discriminate|reflexivity].
  - intros j s Hj _ Hs. assert (j = 1) as -> by lia.
    vm_compute in Hs. by injection Hs as <-.
Defined.

(** C2 as stated fails: read [t1] has the insertion [AC] at the center
    column 2 of the window; the claim puts [A] (code 1) in channel 6 of
    column 3 and [C] (code 2) in column 4, and the tensor has [A] in column
    2, [C] in column 3 and nothing in column 4. *)
Lemma insertion_column_counterexample :
  ∃ sorted g' d' tensor alt_info,
    sorted_by_hap_read_name ex_param 0%nat 10 ∅ (ex_window true ex_tumor_rows 12) ∅
      3 false = Ok (sorted, g')
    ∧ generate_tensor ex_param ex_tables false "chr1" 10 sorted
        (ex_window true ex_tumor_rows 12) "TACGT" "ACGTACGTACGTACGTACGT" 1 "ont" []
        true ∅ = Ok (d', Some (tensor, alt_info))
    ∧ flankingBaseNum ex_param = 2
    ∧ name_at sorted 0 = Some "t1"%string
    ∧ ins_at d' 10 "t1" = Some "AC"%string
    ∧ ACGT_NUM ex_tables "A" = Some 1
    ∧ ACGT_NUM ex_tables "C" = Some 2
    ∧ tensor_at tensor 0 2 6 = Some 1
    ∧ tensor_at tensor 0 3 6 = Some 2
    ∧ tensor_at tensor 0 4 6 = Some 0
    ∧ tensor_at tensor 0 3 6 ≠ ACGT_NUM ex_tables "A"
    ∧ tensor_at tensor 0 4 6 ≠ ACGT_NUM ex_tables "C".
Proof.
  eexists _, _, _, _, _.
  split; [vm_compute; reflexivity|]. split; [vm_compute; reflexivity|].
  repeat split; try (vm_compute; reflexivity); vm_compute; discriminate.
Qed.

End InsertFacts.

(** * The main loop and the confident-region check *)

Module PipelineFacts.
Import Py PyFacts Tensor TensorFacts Pipeline.

Section BedSkip.
Context {F G : Type} `{PyFloat F} `{PyRandom G} (P : param F) (T : create_tensor)
        (A : args).

(** When the test fails, [generate_tensor] returns [(None, None)] or
    raises; it leaves the store alone. *)
Lemma generate_tensor_bed_fail (pos : Z) sorted (pileup_dict : gmap Z (Position F))
    ref_seq is_tumor hap_dict pileup_dict' out :
  pass_confident_bed P (confident_bed_tree A) (arg_ctg_name A) pos = false →
  generate_tensor P T (mask_low_bq A) (arg_ctg_name A) pos sorted pileup_dict ref_seq
    (arg_reference_sequence A) (arg_reference_start A) (arg_platform A)
    (confident_bed_tree A) is_tumor hap_dict = Ok (pileup_dict', out) →
  out = None ∧ pileup_dict' = pileup_dict.
Proof.
  unfold generate_tensor. intros Hbed Hgen.
  inv_bind Hgen rb Hrb.
  destruct (length sorted =? 0)%nat; [by injection Hgen as <- <-|].
  rewrite Hbed in Hgen. simpl in Hgen. by injection Hgen as <- <-.
Qed.

Lemma sample_step_bed_fail (pos : Z) ref_seq s tid is_tumor s' tid' :
  pass_confident_bed P (confident_bed_tree A) (arg_ctg_name A) pos = false →
  sample_step P T A pos ref_seq (s, tid) is_tumor = Ok (s', tid') →
  tid' = tid.
Proof.
  intros Hbed. unfold sample_step. intros Hs.
  inv_bind Hs max_depth Hmd. inv_bind Hs so Hso. destruct so as [sorted g].
  inv_bind Hs go Hgo. destruct go as [pd out].
  apply generate_tensor_bed_fail in Hgo as [-> ->]; [|done].
  by destruct is_tumor; injection Hs as <- <-.
Qed.

(** C8 fails on the code: for a position present in both windows whose
    window misses the confident regions, the loop body does not skip the
    position.  Whenever both calls of the tensor builder return (with
    [(None, None)]), the lookup [tensor_infos_dict['normal']] that follows
    raises [KeyError]; so the body never returns, and the loop over the
    positions stops there instead of going on to the next candidates. *)
Theorem confident_bed_skip_raises (s : store F G) (pos : Z) (rest : list Z) :
  is_Some (normal_pileup_dict s !! pos) →
  is_Some (tumor_pileup_dict s !! pos) →
  pass_confident_bed P (confident_bed_tree A) (arg_ctg_name A) pos = false →
  (∀ r, emit_position P T A s pos ≠ Ok r)
  ∧ (∀ r, emit_positions P T A s (pos :: rest) ≠ Ok r)
  ∧ (∀ ref_seq st,
       ref_seq = upper (slice (arg_reference_sequence A)
                          (pos - arg_reference_start A - flankingBaseNum P)
                          (pos - arg_reference_start A + flankingBaseNum P + 1)) →
       foldM (sample_step P T A pos ref_seq) (s, []) [false; true] = Ok st →
       emit_position P T A s pos = Raise KeyError
       ∧ emit_positions P T A s (pos :: rest) = Raise KeyError).
Proof.
  intros Hn Ht Hbed.
  assert (Hkey : ∀ ref_seq st,
       ref_seq = upper (slice (arg_reference_sequence A)
                          (pos - arg_reference_start A - flankingBaseNum P)
                          (pos - arg_reference_start A + flankingBaseNum P + 1)) →
       foldM (sample_step P T A pos ref_seq) (s, []) [false; true] = Ok st →
       emit_position P T A s pos = Raise KeyError).
  { intros ref_seq [s2 tid2] -> Hfold. unfold emit_position.
    rewrite !bool_decide_eq_true_2 by done. simpl negb. simpl orb. cbv iota.
    rewrite Hfold.
    apply foldM_two in Hfold as ([s1 tid1] & H1 & H2).
    apply sample_step_bed_fail in H1 as ->; [|done].
    apply sample_step_bed_fail in H2 as ->; [|done]. done. }
  assert (Hno : ∀ r, emit_position P T A s pos ≠ Ok r).
  { intros r Hr. pose proof Hr as Hr'. unfold emit_position in Hr.
    rewrite !bool_decide_eq_true_2 in Hr by done.
    simpl negb in Hr. simpl orb in Hr. cbv iota in Hr.
    apply bind_Ok in Hr as (st & Hfold & _).
    erewrite Hkey in Hr'; [discriminate|reflexivity|exact Hfold]. }
  split_and!.
  - exact Hno.
  - intros r Hr. simpl in Hr. apply bind_Ok in Hr as (x & Hx & _). by eapply Hno.
  - intros ref_seq st Href Hfold. split; [by eapply Hkey|].
    simpl. by erewrite Hkey.
Qed.
End BedSkip.

Import Examples.

Lemma confident_bed_skip_raises_witness :
  is_Some (normal_pileup_dict ex_store !! 10)
  ∧ is_Some (tumor_pileup_dict ex_store !! 10)
  ∧ pass_confident_bed ex_param (confident_bed_tree (ex_args ex_far_bed)) "chr1" 10
    = false
  ∧ ∀ r, emit_position ex_param ex_tables (ex_args ex_far_bed) ex_store 10 ≠ Ok r.
Proof.
  assert (H1 : is_Some (normal_pileup_dict ex_store !! 10))
    by (vm_compute; eexists; reflexivity).
  assert (H2 : is_Some (tumor_pileup_dict ex_store !! 10))
    by (vm_compute; eexists; reflexivity).
  assert (H3 : pass_confident_bed ex_param (confident_bed_tree (ex_args ex_far_bed))
                 "chr1" 10 = false) by (vm_compute; reflexivity).
  split_and!; [done..|].
  exact (proj1 (confident_bed_skip_raises ex_param ex_tables (ex_args ex_far_bed)
                  ex_store 10 [] H1 H2 H3)).
Defined.

(** The failing input, evaluated: with the confident BED away from the
    window, position 10 ends the loop with [KeyError], also when further
    positions follow; with no BED the same position gives one record. *)
Lemma confident_bed_skip_failing_input :
  emit_position ex_param ex_tables (ex_args ex_far_bed) ex_store 10 = Raise KeyError
  ∧ emit_positions ex_param ex_tables (ex_args ex_far_bed) ex_store [10; 14]
    = Raise KeyError
  ∧ (∃ s' r, emit_position ex_param ex_tables (ex_args []) ex_store 10 = Ok (s', [r])
              ∧ rec_pos r = 10
              ∧ rec_normal_alt_info r = "3-XA 1-"%string
              ∧ rec_tumor_alt_info r = "2-ICAC 1-"%string).
Proof.
  split_and!; [vm_compute; reflexivity..|].
  eexists _, _. split; [vm_compute; reflexivity|]. done.
Qed.

End PipelineFacts.

(** * The pileup decoder and the allele-frequency gate *)

Module DecodeFacts.
Import Py PyFacts Decode.

#[local] Arguments char_in : simpl never.

(** ** The parse loop *)

Lemma read_advance_ge (rest : string) : ∀ idx adv idx' adv',
  read_advance rest idx adv = Ok (idx', adv') → (idx ≤ idx')%nat.
Proof.
  induction rest as [|c rest IH]; intros idx adv idx' adv'; simpl; [done|].
  destruct (isdigit c).
  - intros Hr. apply IH in Hr. lia.
  - intros [= <- <-]. lia.
Qed.

(** The fuel given to the parse loop is enough: more fuel changes
    nothing. *)
Lemma parse_loop_fuel (fuel : nat) : ∀ (s : string) (i : nat) (bl : list base_info) k,
  (String.length s - i ≤ fuel)%nat →
  parse_loop (fuel + k) s i bl = parse_loop fuel s i bl.
Proof.
  induction fuel as [|fuel IH]; intros s i bl k Hf.
  - simpl. destruct k as [|k]; [done|]. simpl.
    replace (i <? String.length s)%nat with false; [done|].
    symmetry. apply Nat.ltb_ge. lia.
  - cbn [Nat.add parse_loop].
    destruct (i <? String.length s)%nat eqn:Ei; [|done].
    apply Nat.ltb_lt in Ei.
    destruct (get s i) as [base|e]; [|done]. cbn [mbind result_bind bind].
    destruct (Ascii.eqb base "+" || Ascii.eqb base "-").
    + destruct (read_advance (suffix s (i + 1)) (i + 1) 0) as [[idx adv]|e] eqn:Er;
        [|done]. cbn [mbind result_bind bind].
      apply read_advance_ge in Er.
      destruct (set_last_indel bl _) as [bl'|e]; [|done].
      cbn [mbind result_bind bind]. apply IH. lia.
    + destruct (char_in base "ACGTNacgtn#*"); [apply IH; lia|].
      destruct (Ascii.eqb base "^"); apply IH; lia.
Qed.


Lemma substring_all (s : string) : substring 0 (String.length s) s = s.
Proof. induction s as [|c s IH]; simpl; [done|by rewrite IH]. Qed.

Lemma suffix_0 (s : string) : suffix s 0 = s.
Proof. unfold suffix, slice_nat. rewrite Nat.sub_0_r. apply substring_all. Qed.

Lemma suffix_S (c : ascii) (s : string) (i : nat) :
  suffix (String c s) (S i) = suffix s i.
Proof. done. Qed.

Lemma slice_nat_S (c : ascii) (s : string) (a b : nat) :
  slice_nat (String c s) (S a) (S b) = slice_nat s a b.
Proof. done. Qed.

Lemma read_advance_shift (rest : string) : ∀ idx adv,
  read_advance rest (S idx) adv
  = match read_advance rest idx adv with
    | Ok (i, a) => Ok (S i, a)
    | Raise e => Raise e
    end.
Proof.
  induction rest as [|c rest IH]; intros idx adv; simpl; [done|].
  destruct (isdigit c); [apply IH|done].
Qed.

(** The loop looks only at the characters from [base_idx] on. *)
Lemma parse_loop_shift (fuel : nat) : ∀ (c : ascii) (s : string) (i : nat) bl,
  parse_loop fuel (String c s) (S i) bl = parse_loop fuel s i bl.
Proof.
  induction fuel as [|fuel IH]; intros c s i bl; [done|].
  cbn [parse_loop]. change (S i <? String.length (String c s))%nat
    with (i <? String.length s)%nat.
  destruct (i <? String.length s)%nat; [|done].
  change (get (String c s) (S i)) with (get s i).
  destruct (get s i) as [base|e]; [|done]. cbn [mbind result_bind bind].
  destruct (Ascii.eqb base "+" || Ascii.eqb base "-").
  - change (S i + 1)%nat with (S (i + 1)). rewrite suffix_S, read_advance_shift.
    destruct (read_advance (suffix s (i + 1)) (i + 1) 0) as [[idx adv]|e] eqn:Er;
      [|done].
    apply read_advance_ge in Er. cbn [mbind result_bind bind].
    change (S idx + adv)%nat with (S (idx + adv)). rewrite slice_nat_S.
    destruct (set_last_indel bl _) as [bl'|e]; [|done].
    cbn [mbind result_bind bind].
    replace (S (idx + adv) - 1 + 1)%nat with (S (idx + adv - 1 + 1)) by lia.
    apply IH.
  - destruct (char_in base "ACGTNacgtn#*"); [apply IH|].
    destruct (Ascii.eqb base "^"); apply IH.
Qed.




(** ** Counting *)

Lemma dict_sum_set {K : Type} `{EqDecision K} (f : K → bool) (d : list (K * Z))
    (k : K) (n : Z) :
  dict_sum f (dict_add d k n) = dict_sum f d + (if f k then n else 0).
Proof.
  unfold dict_add. induction d as [|[k' v'] d IH]; simpl.
  - destruct (f k); lia.
  - destruct (decide (k' = k)) as [->|Hne]; simpl.
    + destruct (f k); lia.
    + rewrite IH. lia.
Qed.

Lemma dict_add_keys_NoDup {K : Type} `{EqDecision K} (d : list (K * Z)) k n :
  NoDup (d.*1) → NoDup ((dict_add d k n).*1).
Proof. apply dict_set_keys_NoDup. Qed.

Lemma dict_add_positive {K : Type} `{EqDecision K} (d : list (K * Z)) k n :
  0 < n → Forall (λ kv, 0 < kv.2) d → Forall (λ kv, 0 < kv.2) (dict_add d k n).
Proof.
  intros Hn Hall. unfold dict_add.
  assert (Hv : 0 < default 0 (dict_get d k) + n).
  { destruct (dict_get d k) as [v|] eqn:Eg; simpl; [|lia].
    apply dict_get_Some_elem in Eg. rewrite Forall_forall in Hall.
    specialize (Hall _ Eg). simpl in Hall. lia. }
  revert Hv. generalize (default 0 (dict_get d k) + n). intros v Hv.
  induction Hall as [|[k' v'] d Hkv Hall IH]; simpl.
  - by repeat constructor.
  - destruct (decide (k' = k)); constructor; done.
Qed.

Lemma dict_add_keys {K : Type} `{EqDecision K} (d : list (K * Z)) k n k' :
  k' ∈ (dict_add d k n).*1 → k' = k ∨ k' ∈ d.*1.
Proof.
  unfold dict_add. generalize (default 0 (dict_get d k) + n). intros v.
  induction d as [|[k1 v1] d IH]; simpl.
  - intros ?%list_elem_of_singleton. by left.
  - destruct (decide (k1 = k)) as [->|]; simpl; set_solver.
Qed.

(** The value a key has in a dictionary without repeated keys is the sum
    over that key. *)
Lemma dict_get_sum {K : Type} `{EqDecision K} (d : list (K * Z)) (k : K) :
  NoDup (d.*1) →
  default 0 (dict_get d k) = dict_sum (λ k', bool_decide (k' = k)) d.
Proof.
  induction d as [|[k1 v1] d IH]; simpl; [done|].
  intros [Hk1 Hd]%NoDup_cons. destruct (decide (k1 = k)) as [->|Hne].
  - rewrite bool_decide_eq_true_2 by done. simpl.
    assert (Hz : dict_sum (λ k', bool_decide (k' = k)) d = 0).
    { clear IH Hd. induction d as [|[k2 v2] d IH]; simpl; [done|].
      rewrite bool_decide_eq_false_2 by set_solver. rewrite IH; [done|set_solver]. }
    lia.
  - rewrite bool_decide_eq_false_2 by done. rewrite IH by done. lia.
Qed.

(** [Counter]: the counts of a test over the keys add up to the number of
    elements that pass the test. *)
Lemma Counter_sum (f : base_info → bool) (l : list base_info) :
  dict_sum f (Counter l) = reads_with f l.
Proof.
  unfold Counter, reads_with.
  assert (Hgen : ∀ d, dict_sum f (fold_left (λ d key, dict_add d key 1) l d)
                      = dict_sum f d + Z.of_nat (length (List.filter f l))).
  { induction l as [|x l IH]; intros d; simpl; [lia|].
    rewrite IH, dict_sum_set. destruct (f x); simpl; lia. }
  rewrite Hgen. simpl. lia.
Qed.

Lemma Counter_positive (l : list base_info) : Forall (λ kv, 0 < kv.2) (Counter l).
Proof.
  unfold Counter.
  assert (Hgen : ∀ d, Forall (λ kv : base_info * Z, 0 < kv.2) d →
            Forall (λ kv, 0 < kv.2) (fold_left (λ d key, dict_add d key 1) l d)).
  { induction l as [|x l IH]; intros d Hd; simpl; [done|].
    apply IH. by apply dict_add_positive. }
  apply Hgen. constructor.
Qed.

(** ** The loop over the counter *)

Lemma has_indel_cases (key : base_info) :
  match key1 key with
  | Some "+"%char => has_indel "+" key = true ∧ has_indel "-" key = false
  | Some "-"%char => has_indel "+" key = false ∧ has_indel "-" key = true
  | _ => has_indel "+" key = false ∧ has_indel "-" key = false
  end.
Proof.
  unfold has_indel. destruct (key1 key) as [c|]; [|done].
  destruct (Ascii.eqb c "+") eqn:E1.
  - apply Ascii.eqb_eq in E1 as ->. done.
  - destruct (Ascii.eqb c "-") eqn:E2.
    + apply Ascii.eqb_eq in E2 as ->. done.
    + apply Ascii.eqb_neq in E1, E2.
      destruct c as [[] [] [] [] [] [] [] []]; done.
Qed.

Lemma char_in_ACGT_ID (c : ascii) :
  char_in c "ACGT" = true → char_in c "ACGTID" = true.
Proof.
  destruct c as [[] [] [] [] [] [] [] []]; vm_compute; done.
Qed.

Lemma count_step_spec (pd : list (ascii * Z)) (depth : Z) (key : base_info)
    (count : Z) :
  0 < count → NoDup (pd.*1) → Forall (λ kv, 0 < kv.2) pd →
  Forall (λ k, char_in k "ACGTID" = true) (pd.*1) →
  let r := count_step (pd, depth) (key, count) in
  NoDup (r.1.*1)
  ∧ Forall (λ kv, 0 < kv.2) r.1
  ∧ Forall (λ k, char_in k "ACGTID" = true) (r.1.*1)
  ∧ r.2 = depth + (if in_depth key then count else 0)
  ∧ ∀ b, default 0 (dict_get r.1 b)
         = default 0 (dict_get pd b) + (if adds_to b key then count else 0).
Proof.
  intros Hc Hnd Hpos Hkeys. unfold count_step. cbv zeta.
  set (u := upper_char key.1).
  (* first the base, then the indel *)
  set (st1 := if char_in u "ACGT" then (dict_add pd u count, depth + count)
              else if char_in key.1 "#*" then (pd, depth + count) else (pd, depth)).
  assert (H1 : NoDup (st1.1.*1) ∧ Forall (λ kv, 0 < kv.2) st1.1
               ∧ Forall (λ k, char_in k "ACGTID" = true) (st1.1.*1)
               ∧ st1.2 = depth + (if in_depth key then count else 0)
               ∧ ∀ b, default 0 (dict_get st1.1 b)
                      = default 0 (dict_get pd b)
                        + (if Ascii.eqb u b && char_in b "ACGT" then count else 0)).
  { unfold st1, in_depth. fold u. destruct (char_in u "ACGT") eqn:Eu; cbn [fst snd orb].
    - split_and!; [by apply dict_add_keys_NoDup|by apply dict_add_positive| |done|].
      + apply Forall_forall. intros k Hk. apply dict_add_keys in Hk as [->|Hk].
        * by apply char_in_ACGT_ID.
        * rewrite Forall_forall in Hkeys. by apply Hkeys.
      + intros b. unfold dict_add. destruct (decide (u = b)) as [Heq|Hne].
        * rewrite <- Heq. rewrite dict_get_set_eq, Ascii.eqb_refl, Eu. done.
        * rewrite dict_get_set_ne by done.
          apply Ascii.eqb_neq in Hne. rewrite Hne. cbn [andb]. lia.
    - assert (Hb : ∀ b, (if Ascii.eqb u b && char_in b "ACGT" then count else 0) = 0).
      { intros b. destruct (Ascii.eqb u b) eqn:E; [|done].
        apply Ascii.eqb_eq in E. rewrite <- E. by rewrite Eu. }
      destruct (char_in key.1 "#*"); cbn [fst snd orb];
        (split_and!; [done|done|done|cbn; lia|intros b; rewrite Hb; lia]). }
  destruct st1 as [pd1 d1]. simpl in H1.
  destruct H1 as (Hnd1 & Hpos1 & Hkeys1 & Hd1 & Hval1).
  pose proof (has_indel_cases key) as Hcases.
  assert (Hadd : ∀ b, adds_to b key
                      = (Ascii.eqb u b && char_in b "ACGT")
                        || (Ascii.eqb b "I" && has_indel "+" key)
                        || (Ascii.eqb b "D" && has_indel "-" key)) by done.
  assert (Hexcl : ∀ b, Ascii.eqb u b && char_in b "ACGT" = true →
                       Ascii.eqb b "I" = false ∧ Ascii.eqb b "D" = false).
  { intros b [_ Hb]%andb_true_iff. split; apply Ascii.eqb_neq; intros ->; done. }
  assert (Hfinal : ∀ (letter : ascii),
            (letter = "I"%char ∨ letter = "D"%char) →
            (∀ b, (if adds_to b key then count else 0)
                  = (if Ascii.eqb u b && char_in b "ACGT" then count else 0)
                    + (if Ascii.eqb b letter then count else 0)) →
            NoDup ((dict_add pd1 letter count).*1)
            ∧ Forall (λ kv, 0 < kv.2) (dict_add pd1 letter count)
            ∧ Forall (λ k, char_in k "ACGTID" = true) ((dict_add pd1 letter count).*1)
            ∧ d1 = depth + (if in_depth key then count else 0)
            ∧ ∀ b, default 0 (dict_get (dict_add pd1 letter count) b)
                   = default 0 (dict_get pd b) + (if adds_to b key then count else 0)).
  { intros letter Hletter Hsplit.
    split_and!; [by apply dict_add_keys_NoDup|by apply dict_add_positive| |done|].
    - apply Forall_forall. intros k Hk. apply dict_add_keys in Hk as [->|Hk].
      + by destruct Hletter as [-> | ->].
      + rewrite Forall_forall in Hkeys1. by apply Hkeys1.
    - intros b. rewrite Hsplit. unfold dict_add.
      destruct (decide (letter = b)) as [->|Hne].
      + rewrite dict_get_set_eq, Ascii.eqb_refl. simpl. rewrite Hval1. lia.
      + rewrite dict_get_set_ne by done. rewrite Hval1.
        assert (Ascii.eqb b letter = false) as -> by (apply Ascii.eqb_neq; congruence).
        lia. }
  destruct (key1 key) as [c|] eqn:Ek.
  - destruct (Ascii.eqb c "+") eqn:E1.
    { apply Ascii.eqb_eq in E1 as ->. destruct Hcases as [Hi Hd]. simpl.
      apply (Hfinal "I"%char); [by left|]. intros b. rewrite Hadd, Hi, Hd.
      rewrite andb_false_r, andb_true_r, orb_false_r.
      destruct (Ascii.eqb u b && char_in b "ACGT") eqn:E.
      - destruct (Hexcl b E) as [-> _]. simpl. lia.
      - simpl. done. }
    destruct (Ascii.eqb c "-") eqn:E2.
    { apply Ascii.eqb_eq in E2 as ->. destruct Hcases as [Hi Hd]. simpl.
      apply (Hfinal "D"%char); [by right|]. intros b. rewrite Hadd, Hi, Hd.
      rewrite andb_false_r, andb_true_r, orb_false_r.
      destruct (Ascii.eqb u b && char_in b "ACGT") eqn:E.
      - destruct (Hexcl b E) as [_ ->]. simpl. lia.
      - simpl. done. }
    assert (Hother : match c with "+"%char | "-"%char => False | _ => True end).
    { apply Ascii.eqb_neq in E1, E2. destruct c as [[] [] [] [] [] [] [] []]; done. }
    assert (Hi : has_indel "+" key = false ∧ has_indel "-" key = false).
    { unfold has_indel. rewrite Ek, E1, E2. done. }
    destruct Hi as [Hi Hd].
    assert (Hres : (match c with
                    | "+"%char => (dict_add pd1 "I"%char count, d1)
                    | "-"%char => (dict_add pd1 "D"%char count, d1)
                    | _ => (pd1, d1)
                    end) = (pd1, d1)).
    { destruct c as [[] [] [] [] [] [] [] []]; done. }
    rewrite Hres. simpl. split_and!; [done..|].
    intros b. rewrite Hval1, Hadd, Hi, Hd. rewrite !andb_false_r, !orb_false_r. done.
  - assert (Hi : has_indel "+" key = false ∧ has_indel "-" key = false).
    { unfold has_indel. by rewrite Ek. }
    destruct Hi as [Hi Hd]. simpl. split_and!; [done..|].
    intros b. rewrite Hval1, Hadd, Hi, Hd. rewrite !andb_false_r, !orb_false_r. done.
Qed.

Lemma count_fold_spec (cs : list (base_info * Z)) :
  Forall (λ kv, 0 < kv.2) cs →
  ∀ (pd : list (ascii * Z)) (depth : Z),
    NoDup (pd.*1) → Forall (λ kv, 0 < kv.2) pd →
    Forall (λ k, char_in k "ACGTID" = true) (pd.*1) →
    let r := fold_left count_step cs (pd, depth) in
    NoDup (r.1.*1)
    ∧ Forall (λ kv, 0 < kv.2) r.1
    ∧ Forall (λ k, char_in k "ACGTID" = true) (r.1.*1)
    ∧ r.2 = depth + dict_sum in_depth cs
    ∧ ∀ b, default 0 (dict_get r.1 b)
           = default 0 (dict_get pd b) + dict_sum (adds_to b) cs.
Proof.
  induction 1 as [|[key count] cs Hc Hcs IH]; intros pd depth Hnd Hpos Hkeys.
  - simpl. split_and!; [done..|lia|intros; lia].
  - cbn [fold_left].
    destruct (count_step_spec pd depth key count Hc Hnd Hpos Hkeys)
      as (H1 & H2 & H3 & H4 & H5).
    destruct (count_step (pd, depth) (key, count)) as [pd1 d1]. simpl in *.
    destruct (IH pd1 d1 H1 H2 H3) as (I1 & I2 & I3 & I4 & I5).
    split_and!; [done..| |].
    + rewrite I4, H4. lia.
    + intros b. rewrite I5, H5. lia.
Qed.

Lemma reads_with_ext (f g : base_info → bool) (l : list base_info) :
  (∀ x, f x = g x) → reads_with f l = reads_with g l.
Proof.
  intros Hfg. unfold reads_with. f_equal. f_equal.
  induction l as [|x l IH]; simpl; [done|]. rewrite Hfg, IH. done.
Qed.

Lemma reads_with_nonneg (f : base_info → bool) (l : list base_info) :
  0 ≤ reads_with f l.
Proof. unfold reads_with. lia. Qed.

(** What [count_bases] computes, in the words of the specification. *)
Lemma count_bases_spec (base_list : list base_info) :
  let r := count_bases base_list in
  NoDup (r.1.*1)
  ∧ Forall (λ kv, 0 < kv.2) r.1
  ∧ Forall (λ k, char_in k "ACGTID" = true) (r.1.*1)
  ∧ r.2 = spec_depth base_list
  ∧ (∀ b, char_in b "ACGT" = true →
          default 0 (dict_get r.1 b) = spec_count b base_list)
  ∧ default 0 (dict_get r.1 "I"%char) = spec_ins_count base_list
  ∧ default 0 (dict_get r.1 "D"%char) = spec_del_count base_list.
Proof.
  unfold count_bases.
  destruct (count_fold_spec (Counter base_list) (Counter_positive base_list) [] 0)
    as (H1 & H2 & H3 & H4 & H5); [constructor..|].
  cbv zeta. split_and!; [done..| | | |].
  - rewrite H4, Counter_sum. unfold spec_depth. lia.
  - intros b Hb. rewrite H5, Counter_sum. simpl.
    unfold spec_count. apply reads_with_ext. intros key. unfold adds_to, is_base.
    rewrite Hb, andb_true_r.
    assert (Ascii.eqb b "I" = false) as -> by (apply Ascii.eqb_neq; intros ->; done).
    assert (Ascii.eqb b "D" = false) as -> by (apply Ascii.eqb_neq; intros ->; done).
    by rewrite !orb_false_r.
  - rewrite H5, Counter_sum. simpl. apply reads_with_ext. intros key.
    unfold adds_to.
    replace (char_in "I" "ACGT") with false by reflexivity.
    rewrite andb_false_r. cbn. by rewrite orb_false_r.
  - rewrite H5, Counter_sum. simpl. apply reads_with_ext. intros key.
    unfold adds_to.
    replace (char_in "D" "ACGT") with false by reflexivity.
    rewrite andb_false_r. cbn. done.
Qed.

(** ** The decision loop *)

Lemma insert_desc_perm (x : ascii * Z) (l : list (ascii * Z)) :
  insert_desc x l ≡ₚ x :: l.
Proof.
  induction l as [|y l IH]; simpl; [done|].
  destruct (x.2 <? y.2); [|done]. rewrite IH. apply Permutation_swap.
Qed.

Lemma sorted_desc_perm (l : list (ascii * Z)) : sorted_desc l ≡ₚ l.
Proof.
  induction l as [|x l IH]; simpl; [done|]. by rewrite insert_desc_perm, IH.
Qed.

Section Gate.
Context {F : Type} `{HF : PyFloat F} `{!PyFloatLaws F}.

(** The loop stops at the first entry that passes, so its result says
    whether any entry passes. *)
Lemma af_loop_spec (reference_base : ascii) (den : Z) (ts ti : F)
    (l : list (ascii * Z)) : ∀ ps pi : bool,
  let r := af_loop reference_base den ts ti l ps pi in
  r.1 || r.2 = true ↔
  ps || pi = true ∨ ∃ e, e ∈ l ∧ entry_passes reference_base den ts ti e.
Proof.
  induction l as [|[item count] l IH]; intros ps pi; cbn [af_loop]; cbv zeta.
  - split; [by left|]. intros [?|(e & ?%elem_of_nil & _)]; done.
  - destruct (ps || pi) eqn:Epp; [split; [by left|done]|].
    apply orb_false_iff in Epp as [-> ->].
    destruct (Ascii.eqb item reference_base) eqn:Eref.
    + apply Ascii.eqb_eq in Eref as ->. rewrite IH. simpl. split.
      * intros [?|(e & He & Hp)]; [done|]. right. exists e. split; [by right|done].
      * intros [?|(e & [->|He]%elem_of_cons & Hp)]; [done| |right; eauto].
        destruct Hp as [Hne _]. done.
    + apply Ascii.eqb_neq in Eref.
      destruct (char_in item "ID") eqn:Eid; rewrite IH; simpl.
      * split.
        -- intros [Hp|(e & He & Hp)].
           ++ right. exists (item, count). split; [by left|].
              split; [done|]. simpl. by rewrite Eid.
           ++ right. exists e. split; [by right|done].
        -- intros [?|(e & [->|He]%elem_of_cons & Hp)]; [done| |right; eauto].
           destruct Hp as [_ Hp]. simpl in Hp. rewrite Eid in Hp. by left.
      * split.
        -- intros [Hp|(e & He & Hp)].
           ++ right. exists (item, count). split; [by left|].
              split; [done|]. simpl. rewrite Eid. by rewrite orb_false_r in Hp.
           ++ right. exists e. split; [by right|done].
        -- intros [?|(e & [->|He]%elem_of_cons & Hp)]; [done| |right; eauto].
           destruct Hp as [_ Hp]. simpl in Hp. rewrite Eid in Hp.
           left. by rewrite Hp.
Qed.
Lemma ACGTID_cases (c : ascii) :
  char_in c "ACGTID" = true →
  (char_in c "ID" = false ∧ char_in c "ACGT" = true)
  ∨ (char_in c "ID" = true ∧ (c = "I"%char ∨ c = "D"%char)).
Proof.
  destruct c as [[] [] [] [] [] [] [] []]; vm_compute; intros; try done;
    first [left; done|right; split; [done|by left]|right; split; [done|by right]].
Qed.

Lemma ACGT_not_ID (c : ascii) :
  char_in c "ACGT" = true →
  char_in c "ID" = false ∧ c ≠ "I"%char ∧ c ≠ "D"%char.
Proof. destruct c as [[] [] [] [] [] [] [] []]; vm_compute; done. Qed.

(** The decoder without an external candidate set: the depth and the
    gate are those of the specification. *)
Lemma decode_gate (P : param F) (pos : Z) (pileup_bases : string)
    (reference_base : ascii) (ts ti : F) (candidates_type_dict : gmap Z string)
    (is_tumor : bool) (platform : string) (base_list : list base_info)
    (depth : option Z) (pass_af : bool) (af : F) :
  fpos ts = true → fpos ti = true → char_in reference_base "ACGT" = true →
  decode_pileup_bases P pos pileup_bases reference_base ts ti 0
    candidates_type_dict is_tumor platform = Ok (base_list, depth, pass_af, af) →
  parse_bases pileup_bases = Ok base_list
  ∧ depth = Some (spec_depth base_list)
  ∧ (pass_af = true ↔
     spec_pass_af reference_base ts ti
       (if 0 <? spec_depth base_list then spec_depth base_list else 1) base_list).
Proof.
  intros Hts Hti Href. unfold decode_pileup_bases. intros Hd.
  apply bind_Ok in Hd as (bl & Hparse & Hd). cbn beta in Hd.
  replace (negb (0 =? 0)) with false in Hd by reflexivity. cbn [andb] in Hd.
  destruct (count_bases_spec bl) as (Hnd & Hpos & Hkeys & Hdepth & Hcnt & Hins & Hdel).
  destruct (count_bases bl) as [pd dp]. cbn [fst snd] in *.
  rewrite Hts, Hti in Hd. cbn in Hd. subst dp.
  set (den := if 0 <? spec_depth bl then spec_depth bl else 1) in *.
  assert (Hden : 0 < den) by (unfold den; destruct (0 <? spec_depth bl) eqn:E; lia).
  pose proof (af_loop_spec reference_base den ts ti (sorted_desc pd) false false)
    as Hloop. cbv zeta in Hloop.
  destruct (af_loop reference_base den ts ti (sorted_desc pd) false false)
    as [ps pi]. cbn [fst snd] in Hloop.
  injection Hd as <- <- <- <-. split_and!; [done..|].
  rewrite Hloop. clear Hloop. split.
  - intros [?|([item count] & He & Hne & Hp)]; [done|].
    rewrite sorted_desc_perm in He. simpl in Hne, Hp.
    assert (Hget : default 0 (dict_get pd item) = count).
    { by rewrite (dict_get_elem_NoDup pd item count Hnd He). }
    assert (Hk : char_in item "ACGTID" = true).
    { rewrite Forall_forall in Hkeys. apply Hkeys.
      apply list_elem_of_fmap. by exists (item, count). }
    destruct (ACGTID_cases item Hk) as [[Hid Hb]|[Hid [-> | ->]]];
      rewrite Hid in Hp.
    + left. exists item. split_and!; [done..|]. by rewrite <- Hcnt, Hget.
    + right. left. by rewrite <- Hins, Hget.
    + right. right. by rewrite <- Hdel, Hget.
  - assert (Hin : ∀ b v, default 0 (dict_get pd b) = v →
              fgeb (fdiv_int v den) ts = true ∨ fgeb (fdiv_int v den) ti = true →
              0 ≤ v → (b, v) ∈ pd).
    { intros b v Hv Hge Hv0. destruct (decide (v = 0)) as [->|Hnz].
      - destruct Hge as [Hge|Hge];
          rewrite (fgeb_zero_pos den _ Hden) in Hge; done.
      - destruct (dict_get pd b) as [v'|] eqn:Eg; simpl in Hv; [|lia].
        subst v'. by apply dict_get_Some_elem. }
    intros [(b & Hb & Hne & Hge)|[Hge|Hge]]; right.
    + exists (b, spec_count b bl). split.
      * rewrite sorted_desc_perm. apply Hin; [by apply Hcnt|by left|].
        apply reads_with_nonneg.
      * split; [done|]. simpl. by destruct (ACGT_not_ID b Hb) as [-> _].
    + exists ("I"%char, spec_ins_count bl). split.
      * rewrite sorted_desc_perm. apply Hin; [done|by right|].
        apply reads_with_nonneg.
      * split; [|done]. simpl. intros <-. done.
    + exists ("D"%char, spec_del_count bl). split.
      * rewrite sorted_desc_perm. apply Hin; [done|by right|].
        apply reads_with_nonneg.
      * split; [|done]. simpl. intros <-. done.
Qed.
End Gate.

(** The rationals keep the law of the gate. *)
#[global] Instance PyFloat_Q_laws : PyFloatLaws Q.
Proof.
  split. intros d t Hd Ht. simpl in *.
  apply negb_true_iff, not_true_iff_false in Ht.
  apply not_true_iff_false. intros Hle. apply Ht. clear Ht.
  apply Qle_bool_iff in Hle. apply Qle_bool_iff.
  destruct d as [|p|p]; [lia| |lia].
  unfold Qle in *. simpl in *. lia.
Qed.

End DecodeFacts.

(** * The per-stream candidate generator *)

Module GeneratorFacts.
Import Py PyFacts Tensor TensorFacts Decode DecodeFacts Generator.

#[local] Instance Z_le_total : Total Z.le.
Proof. intros x y. lia. Qed.

Section Trim.
Context {F : Type}.

(** The trimming loop over a sorted list of keys removes the keys that
    lie more than the distance below the candidate, and stops at the
    first key that does not. *)
Lemma trim_loop_lookup (c dist : Z) (keys : list Z) :
  StronglySorted Z.le keys →
  ∀ (d : gmap Z (Position F)) (k : Z),
    trim_loop c dist keys d !! k
    = if bool_decide (k ∈ keys ∧ k < c - dist) then None else d !! k.
Proof.
  induction 1 as [|k0 keys Hs IH Hall]; intros d k; cbn [trim_loop].
  - rewrite bool_decide_eq_false_2; [done|]. intros [?%elem_of_nil _]. done.
  - rewrite Forall_forall in Hall. destruct (dist <? c - k0) eqn:E.
    + apply Z.ltb_lt in E. rewrite IH.
      destruct (decide (k = k0)) as [->|Hne].
      * rewrite lookup_delete_eq.
        rewrite (bool_decide_eq_true_2 (k0 ∈ k0 :: keys ∧ _)); [|split; [by left|lia]].
        by case_bool_decide.
      * rewrite lookup_delete_ne by done.
        apply (f_equal (λ b : bool, if b then None else d !! k)).
        apply bool_decide_ext. set_solver.
    + apply Z.ltb_ge in E. rewrite bool_decide_eq_false_2; [done|].
      intros [[->|Hin]%elem_of_cons Hlt]; [lia|]. specialize (Hall k Hin). lia.
Qed.

Lemma sorted_keys_spec (d : gmap Z (Position F)) :
  StronglySorted Z.le (sorted_keys d) ∧ ∀ k, k ∈ sorted_keys d ↔ is_Some (d !! k).
Proof.
  unfold sorted_keys. split.
  - apply Sorted_StronglySorted; [apply _|]. apply Sorted_merge_sort; apply _.
  - intros k. rewrite merge_sort_Permutation, elem_of_elements. apply elem_of_dom.
Qed.

(** Trimming for candidate [c]: exactly the entries below [c - dist] go. *)
Lemma trim_lookup (c dist : Z) (d : gmap Z (Position F)) (k : Z) :
  trim_loop c dist (sorted_keys d) d !! k
  = if bool_decide (k < c - dist) then None else d !! k.
Proof.
  destruct (sorted_keys_spec d) as [Hs Hin].
  rewrite trim_loop_lookup by done.
  destruct (d !! k) as [x|] eqn:Ek.
  - apply (f_equal (λ b : bool, if b then None else Some x)).
    apply bool_decide_ext. rewrite Hin, Ek. split; [tauto|]. eauto.
  - by repeat case_bool_decide.
Qed.
End Trim.

Section Rows.
Context {F : Type} `{PyFloat F} (P : param F) (E : env F).

Lemma process_row_Ok (is_tumor phasing_info_in_bam : bool) (st : gstate F)
    (r : row) (o : outcome F) :
  process_row P E is_tumor phasing_info_in_bam st r = Ok o →
  (∃ st', o = Skipped st'
          ∧ candidate_pos_list st' = candidate_pos_list st
          ∧ current_pos_index st' = current_pos_index st
          ∧ pileup_dict st' = pileup_dict st)
  ∨ (∃ base_list depth pass_af names,
       stored_as P E is_tumor st r o base_list depth pass_af names).
Proof.
  unfold process_row. intros Hp. inv_bind Hp pcr Hpcr.
  destruct (_ && _ && pcr); [injection Hp as <-; left; by exists st|].
  inv_bind Hp c0 Hc0.
  destruct (negb (char_in (upper_char c0) "ACGT")) eqn:Eref;
    [injection Hp as <-; left; by exists st|].
  apply negb_false_iff in Eref.
  inv_bind Hp dec Hdec. destruct dec as [[[base_list depth] pass_af] af].
  inv_bind Hp names Hnames. inv_bind Hp phased Hphased.
  destruct phased as [hd|]; [|injection Hp as <-; left; by exists st].
  destruct (negb (length names =? length base_list)%nat) eqn:Elen.
  { injection Hp as <-. left. by eexists. }
  apply negb_false_iff, Nat.eqb_eq in Elen.
  inv_bind Hp a1 Ha1. right. exists base_list, depth, pass_af, names.
  exists c0, af, hd, a1. split_and!; [done..| |].
  - clear Hp. rewrite Eref in Ha1. rewrite andb_true_r in Ha1.
    destruct (is_known_vcf_file_provided E); simpl in Ha1.
    { injection Ha1 as <-. split; [done|]. by intros [? _]. }
    destruct (has_pileup_candidates E =? 0) eqn:Eh; simpl in Ha1.
    2:{ injection Ha1 as <-. split; [done|]. intros (_ & Hh & _).
        rewrite Hh in Eh. done. }
    apply Z.eqb_eq in Eh. destruct pass_af.
    2:{ injection Ha1 as <-. split; [done|]. by intros (_ & _ & ? & _). }
    inv_bind Ha1 d Hd. apply of_option_Ok in Hd. injection Ha1 as <-. split.
    + intros Hge. split_and!; [done..|]. eauto.
    + intros (_ & _ & _ & d' & Hd' & Hge). congruence.
  - cbv zeta. cbn [candidate_pos_list current_pos_index pileup_dict] in Hp.
    assert (Hc : (if (a1 : bool) then candidate_pos_list st ++ [row_pos r]
                  else candidate_pos_list st)
                 = candidate_pos_list st ++ (if a1 then [row_pos r] else []))
      by (destruct a1; [done|by rewrite app_nil_r]).
    rewrite Hc in Hp. clear Hc.
    set (a2 := is_known_vcf_file_provided E && (has_pileup_candidates E =? 0)
               && bool_decide (row_pos r ∈ known_variants_set E)) in *.
    assert (Hc : (if a2
                  then (candidate_pos_list st ++ (if a1 then [row_pos r] else []))
                       ++ [row_pos r]
                  else candidate_pos_list st ++ (if a1 then [row_pos r] else []))
                 = candidate_pos_list st ++ (if a1 then [row_pos r] else [])
                   ++ (if a2 then [row_pos r] else [])).
    { destruct a2; [by rewrite <- List.app_assoc|by rewrite app_nil_r]. }
    rewrite Hc in Hp. clear Hc.
    destruct (_ !! current_pos_index st) as [c|] eqn:Ec.
    + destruct (extend_bp_distance P <? row_pos r - c) eqn:Ed; injection Hp as <-.
      * right. exists c. split_and!; [done..|]. by apply Z.ltb_lt.
      * left. split; [done|]. intros c' [= <-]. by apply Z.ltb_ge in Ed; lia.
    + injection Hp as <-. left. split; [done|]. intros c' [=].
Qed.
(** The final loop yields the candidates from the cursor on, in order,
    and leaves the cursor at the end of the list. *)
Lemma flush_spec (n : nat) : ∀ st : gstate F,
  n = (length (candidate_pos_list st) - current_pos_index st)%nat →
  (flush P n st).1 = drop (current_pos_index st) (candidate_pos_list st)
  ∧ candidate_pos_list (flush P n st).2 = candidate_pos_list st
  ∧ (current_pos_index st ≤ length (candidate_pos_list st) →
     current_pos_index (flush P n st).2 = length (candidate_pos_list st))%nat.
Proof.
  induction n as [|n IH]; intros st Hn; simpl.
  - split_and!; [|done|lia]. symmetry. apply drop_ge. lia.
  - destruct (candidate_pos_list st !! current_pos_index st) as [c|] eqn:Ec.
    2:{ apply lookup_ge_None in Ec. lia. }
    destruct (IH (resume P st c)) as (IH1 & IH2 & IH3); [simpl; lia|].
    destruct (flush P n (resume P st c)) as [ys st'] eqn:Ef. simpl in *.
    split_and!; [|done|intros; apply IH3; lia].
    rewrite IH1. symmetry. by apply drop_S.
Qed.

(** C4, as the code has it.  For a pileup line that is not passed over,
    the pending candidate [c] is yielded exactly when the position of the
    line exceeds [c] by more than [no_of_positions + extend_bp] (the
    distance [extend_bp_distance], which is [2F + 1 + extend_bp] and not
    [F + extend_bp]).  When the generator is resumed, every window entry
    with a key smaller than [c - (no_of_positions + extend_bp)] is
    removed, the others are kept, and the cursor moves on by one.  At the
    end of the stream the remaining candidates are all yielded, in
    order. *)
Theorem candidate_yield_rule (is_tumor phasing_info_in_bam : bool)
    (st : gstate F) (r : row) (o : outcome F) :
  process_row P E is_tumor phasing_info_in_bam st r = Ok o →
  extend_bp_distance P = no_of_positions P + extend_bp P
  ∧ (∀ st' c, o = Yielded st' c →
       candidate_pos_list st' !! current_pos_index st' = Some c
       ∧ row_pos r - c > no_of_positions P + extend_bp P
       ∧ is_Some (pileup_dict st' !! row_pos r))
  ∧ (∀ st', o = Stored st' →
       is_Some (pileup_dict st' !! row_pos r)
       ∧ ∀ c, candidate_pos_list st' !! current_pos_index st' = Some c →
              row_pos r - c ≤ no_of_positions P + extend_bp P)
  ∧ (∀ st' c k,
       candidate_pos_list (resume P st' c) = candidate_pos_list st'
       ∧ current_pos_index (resume P st' c) = S (current_pos_index st')
       ∧ pileup_dict (resume P st' c) !! k
         = if bool_decide (k < c - (no_of_positions P + extend_bp P)) then None
           else pileup_dict st' !! k)
  ∧ (∀ st' : gstate F,
       (flush P (length (candidate_pos_list st') - current_pos_index st') st').1
       = drop (current_pos_index st') (candidate_pos_list st')).
Proof.
  intros Hp. split; [done|].
  apply process_row_Ok in Hp as [(st1 & -> & _)|(bl & depth & pass_af & names & Hs)].
  - split_and!; [by intros ?? [=]|by intros ? [=]| |].
    + intros st' c k. split_and!; [done..|]. apply trim_lookup.
    + intros st'. by apply flush_spec.
  - destruct Hs as (c0 & af & hd & a1 & _ & _ & _ & _ & _ & Hout). cbv zeta in Hout.
    split_and!.
    + intros st' c ->. destruct Hout as [[[=] _]|(c' & [= -> ->] & Hc & Hd)].
      simpl. split_and!; [done|unfold extend_bp_distance in Hd; lia|].
      rewrite lookup_insert_eq. by eexists.
    + intros st' ->. destruct Hout as [[[= ->] Hno]|(c' & [=] & _)]. simpl. split.
      * rewrite lookup_insert_eq. by eexists.
      * intros c Hc. specialize (Hno c Hc). unfold extend_bp_distance in Hno. lia.
    + intros st' c k. split_and!; [done..|]. apply trim_lookup.
    + intros st'. by apply flush_spec.
Qed.
End Rows.

Section Gate.
Context {F : Type} `{HF : PyFloat F} `{!PyFloatLaws F} (P : param F) (E : env F).

End Gate.

Section Malformed.
Context {F : Type} `{HF : PyFloat F} (P : param F) (E : env F).



End Malformed.

Import Examples.

Lemma candidate_yield_rule_witness :
  ∃ st',
    process_row ex_param ex_env true false (ex_gstate true ex_tumor_rows 16)
      (ex_row 17 "AA" "t1,t2") = Ok (Yielded st' 10)
    ∧ row_pos (ex_row 17 "AA" "t1,t2") - 10
      > no_of_positions ex_param + extend_bp ex_param.
Proof.
  eexists. split; [vm_compute; reflexivity|].
  eapply (candidate_yield_rule ex_param ex_env true false
            (ex_gstate true ex_tumor_rows 16) (ex_row 17 "AA" "t1,t2")).
  - vm_compute. reflexivity.
  - reflexivity.
Defined.

(** C4 as stated fails: with [F = 2] and [extend_bp = 1] the candidate at
    position 10 is pending when the line of position 14 is read, and
    [14 - 10 > F + extend_bp]; the line is stored and nothing is yielded.
    The candidate is yielded on the line of position 17. *)
Lemma candidate_yield_counterexample :
  flankingBaseNum ex_param + extend_bp ex_param = 3
  ∧ candidate_pos_list (ex_gstate true ex_tumor_rows 13)
      !! current_pos_index (ex_gstate true ex_tumor_rows 13) = Some 10
  ∧ 14 - 10 > flankingBaseNum ex_param + extend_bp ex_param
  ∧ (∃ st', process_row ex_param ex_env true false (ex_gstate true ex_tumor_rows 13)
              (ex_row 14 "CC" "t1,t2") = Ok (Stored st'))
  ∧ (∃ st', process_row ex_param ex_env true false (ex_gstate true ex_tumor_rows 16)
              (ex_row 17 "AA" "t1,t2") = Ok (Yielded st' 10)).
Proof.
  split_and!; [vm_compute; reflexivity|vm_compute; reflexivity|vm_compute; reflexivity| |];
    eexists; vm_compute; reflexivity.
Qed.




End GeneratorFacts.

(** * Heterozygous SNP selection *)

Module HetSnpFacts.
Import Py PyFacts HetSnp.

Section Select.
Context {F : Type} `{HF : PyFloat F}.

(** What one line of the tumor VCF does to the state. *)
Lemma tumor_step_spec (contig_name : option string) (min_qual : F)
    (vd : list (Z * variant)) (st st' : tumor_state) (line : vcf_line F) :
  tumor_step contig_name min_qual vd st line = Ok st' →
  (* the line is kept *)
  (∃ pos ref_base alt_base qual row,
      het_call contig_name line pos ref_base alt_base qual row
      ∧ (match dict_get vd pos with
         | Some (r, a, _, _) => r = ref_base ∧ a = alt_base
         | None => fltb qual min_qual = false
         end)
      ∧ intersect_pos_set st' = {[pos]} ∪ intersect_pos_set st
      ∧ tumor_variant_dict st' = <[pos := row]> (tumor_variant_dict st)
      ∧ hetero_snp_not_found_in_tumor st' = hetero_snp_not_found_in_tumor st
      ∧ hetero_snp_not_match_in_tumor st' = hetero_snp_not_match_in_tumor st)
  (* or it is dropped *)
  ∨ (intersect_pos_set st' = intersect_pos_set st
     ∧ tumor_variant_dict st' = tumor_variant_dict st
     ∧ (∀ pos ref_base alt_base qual row,
          het_call contig_name line pos ref_base alt_base qual row →
          match dict_get vd pos with
          | Some (r, a, _, _) =>
              (r ≠ ref_base ∨ a ≠ alt_base)
              ∧ hetero_snp_not_match_in_tumor st'
                = hetero_snp_not_match_in_tumor st + 1
          | None =>
              fltb qual min_qual = true
              ∧ hetero_snp_not_found_in_tumor st'
                = hetero_snp_not_found_in_tumor st + 1
          end)).
Proof.
  unfold tumor_step. destruct line as [row|row ctg pos rb ab qual sample].
  { intros [= <-]. right. split_and!; [done..|].
    intros ????? (c & s & [=] & _). }
  destruct (other_contig contig_name ctg) eqn:Ectg.
  { intros [= <-]. right. split_and!; [done..|].
    intros ????? (c & s & Heq & Hc & _). injection Heq; intros; subst. congruence. }
  destruct (is_het_snp rb ab sample) eqn:Ehet.
  2:{ intros [= <-]. right. split_and!; [done..|].
      intros ????? (c & s & Heq & _ & Hh). injection Heq; intros; subst. congruence. }
  destruct qual as [qual|]; [|done]. cbn [of_option mbind result_bind bind].
  unfold dict_mem.
  destruct (dict_get vd pos) as [[[[r a] q0] row0]|] eqn:Evd; cbn [negb andb].
  - destruct (negb (String.eqb r rb) || negb (String.eqb a ab)) eqn:Emis.
    + intros [= <-]. right. cbn. split_and!; [done..|].
      intros ????? (c & s & Heq & _ & _). injection Heq; intros; subst. rewrite ?Evd.
      split; [|done]. apply orb_true_iff in Emis as [Em|Em];
        apply negb_true_iff, String.eqb_neq in Em; [by left|by right].
    + intros [= <-]. left. exists pos, rb, ab, qual, row. cbn.
      split_and!; [by exists ctg, sample| |done..].
      rewrite Evd. apply orb_false_iff in Emis as [E1 E2].
      apply negb_false_iff, String.eqb_eq in E1, E2. done.
  - destruct (fltb qual min_qual) eqn:Eq.
    + intros [= <-]. right. cbn. split_and!; [done..|].
      intros ????? (c & s & Heq & _ & _). injection Heq; intros; subst. rewrite ?Evd. done.
    + intros [= <-]. left. exists pos, rb, ab, qual, row. cbn.
      split_and!; [by exists ctg, sample| |done..]. by rewrite Evd.
Qed.

(** The positions retained by the loop over the tumor VCF. *)
Lemma tumor_fold_spec (contig_name : option string) (min_qual : F)
    (vd : list (Z * variant)) (lines : list (vcf_line F)) :
  ∀ st st' : tumor_state,
    foldM (tumor_step contig_name min_qual vd) st lines = Ok st' →
    (∀ pos, pos ∈ intersect_pos_set st → is_Some (tumor_variant_dict st !! pos)) →
    (∀ pos, pos ∈ intersect_pos_set st' → is_Some (tumor_variant_dict st' !! pos))
    ∧ ∀ pos,
        pos ∈ intersect_pos_set st' ↔
        pos ∈ intersect_pos_set st
        ∨ ∃ line ref_base alt_base qual row,
            line ∈ lines
            ∧ het_call contig_name line pos ref_base alt_base qual row
            ∧ match dict_get vd pos with
              | Some (r, a, _, _) => r = ref_base ∧ a = alt_base
              | None => fltb qual min_qual = false
              end.
Proof.
  induction lines as [|line lines IH]; intros st st' Hfold Hdom.
  - injection Hfold as <-. split; [done|]. intros pos. split; [by left|].
    intros [?|(l & ? & ? & ? & ? & ?%elem_of_nil & _)]; done.
  - rewrite foldM_cons in Hfold. apply bind_Ok in Hfold as (st1 & Hstep & Hfold).
    apply tumor_step_spec in Hstep.
    assert (Hdom1 : ∀ pos, pos ∈ intersect_pos_set st1 →
                           is_Some (tumor_variant_dict st1 !! pos)).
    { destruct Hstep as [(p & rb & ab & q & row & _ & _ & Hi & Ht & _)|(Hi & Ht & _)].
      - intros pos. rewrite Hi, Ht. intros [->%elem_of_singleton|Hin]%elem_of_union.
        + rewrite lookup_insert_eq. by eexists.
        + destruct (decide (p = pos)) as [->|Hne].
          * rewrite lookup_insert_eq. by eexists.
          * rewrite lookup_insert_ne by done. by apply Hdom.
      - intros pos. rewrite Hi, Ht. apply Hdom. }
    destruct (IH st1 st' Hfold Hdom1) as [Hdom' Hiff]. split; [done|].
    intros pos. rewrite Hiff. clear Hiff IH.
    destruct Hstep as [(p & rb & ab & q & row & Hcall & Hm & Hi & _)|(Hi & _ & Hdrop)].
    + rewrite Hi. split.
      * intros [[->%elem_of_singleton|Hin]%elem_of_union|(l & r1 & a1 & q1 & w1 & Hl & Hc & Hmm)].
        -- right. exists line, rb, ab, q, row. split_and!; [by left|done..].
        -- by left.
        -- right. exists l, r1, a1, q1, w1. split_and!; [by right|done..].
      * intros [Hin|(l & r1 & a1 & q1 & w1 & [->|Hl]%elem_of_cons & Hc & Hmm)].
        -- left. set_solver.
        -- left. destruct Hcall as (c & s & -> & _).
           destruct Hc as (c' & s' & Heq & _). injection Heq; intros; subst. set_solver.
        -- right. exists l, r1, a1, q1, w1. done.
    + rewrite Hi. split.
      * intros [Hin|(l & r1 & a1 & q1 & w1 & Hl & Hc & Hmm)]; [by left|].
        right. exists l, r1, a1, q1, w1. split_and!; [by right|done..].
      * intros [Hin|(l & r1 & a1 & q1 & w1 & [->|Hl]%elem_of_cons & Hc & Hmm)];
          [by left| |right; by exists l, r1, a1, q1, w1].
        exfalso. specialize (Hdrop _ _ _ _ _ Hc).
        destruct (dict_get vd pos) as [[[[r a] q0] row0]|].
        -- destruct Hmm as [-> ->]. destruct Hdrop as [[?|?] _]; done.
        -- destruct Hdrop as [Hd _]. congruence.
Qed.

(** The variant dictionary is not touched by the loop over the tumor VCF
    and holds the last heterozygous single-base call of each position. *)
Lemma take_py_length {A : Type} (k : Z) (l : list A) :
  0 ≤ k → length (take_py k l) = (Z.to_nat k `min` length l)%nat.
Proof.
  intros Hk. unfold take_py. replace (k <? 0) with false by lia.
  by rewrite length_take.
Qed.

Lemma insert_qual_perm (x : Z * F) (l : list (Z * F)) : insert_qual x l ≡ₚ x :: l.
Proof.
  induction l as [|y l IH]; simpl; [done|].
  destruct (fltb y.2 x.2); [|done]. rewrite IH. apply Permutation_swap.
Qed.

Lemma sorted_qual_perm (l : list (Z * F)) : sorted_qual l ≡ₚ l.
Proof. induction l as [|x l IH]; simpl; [done|]. by rewrite insert_qual_perm, IH. Qed.

End Select.

Import Examples.


End HetSnpFacts.

(** * The paired merge: which positions come out *)

Module MergeYield.
Import Merge.

#[local] Arguments merge_step : simpl never.
#[local] Existing Instance MergeFacts.event_le_total.
#[local] Existing Instance MergeFacts.event_le_trans.

(** Over a sorted event list, a position that is in the set or has a normal
    event, and that has a tumor event, is emitted. *)
Lemma merge_loop_complete evs : ∀ st p,
  StronglySorted event_le evs →
  p ∈ normal_candidates_set st ∨ (p, false) ∈ evs →
  (p, true) ∈ evs →
  p ∈ (merge_loop true st evs).2.
Proof.
  induction evs as [|[q b] evs IH]; intros st p Hs Hn Ht.
  - by apply elem_of_nil in Ht.
  - apply StronglySorted_inv in Hs as [Hs Hall]. rewrite Forall_forall in Hall.
    rewrite MergeFacts.merge_loop_cons. cbn [snd].
    destruct (decide ((q, b) = (p, true))) as [[= -> ->]|Hne].
    + assert (Hin : p ∈ normal_candidates_set st).
      { destruct Hn as [Hin|Hin]; [done|].
        apply elem_of_cons in Hin as [[=]|Hin].
        specialize (Hall _ Hin). destruct Hall as [Hlt|[_ Hc]]; simpl in *; [lia|].
        discriminate (Hc eq_refl). }
      rewrite MergeFacts.merge_step_tumor. rewrite bool_decide_eq_true_2 by done.
      simpl. by left.
    + apply elem_of_cons in Ht as [Ht|Ht]; [congruence|].
      assert (Hrec : p ∈ (merge_loop true (merge_step true st (q, b)).1 evs).2).
      { apply IH; [done| |done].
        destruct Hn as [Hin|Hin].
        - left. unfold merge_step. destruct b; simpl.
          + case_match; simpl; [|done]. apply elem_of_difference. split; [done|].
            intros ->%elem_of_singleton. done.
          + set_solver.
        - apply elem_of_cons in Hin as [[= <- <-]|Hin]; [|by right].
          left. unfold merge_step. simpl. set_solver. }
      destruct (merge_step true st (q, b)).2; [by right|done].
Qed.

(** With the flag off, every tumor event yields its position. *)
Lemma merge_loop_no_skip evs : ∀ st,
  (merge_loop false st evs).2 = (filter (λ e : event, e.2 = true) evs).*1.
Proof.
  induction evs as [|[q b] evs IH]; intros st; [done|].
  rewrite MergeFacts.merge_loop_cons. cbn [snd]. rewrite IH.
  destruct b.
  - rewrite MergeFacts.merge_step_tumor, orb_true_r.
    by rewrite filter_cons_True by done.
  - rewrite filter_cons_False by (simpl; congruence). done.
Qed.

(** The paired merge emits exactly the positions that both streams carry:
    for sorted streams, the normal one of normal events and the tumor one
    of tumor events, a position is emitted if and only if it is a normal
    event and a tumor event. *)
Theorem merge_emits_common_positions (normal tumor : list event) (pos : Z) :
  Sorted event_le normal → Sorted event_le tumor →
  Forall (λ e : event, e.2 = false) normal →
  Forall (λ e : event, e.2 = true) tumor →
  pos ∈ heapq_merge_generator_from normal tumor true
  ↔ (pos, false) ∈ normal ∧ (pos, true) ∈ tumor.
Proof.
  intros Hn Ht Hfn Hft. rewrite Forall_forall in Hfn, Hft.
  assert (Hmem : ∀ e, e ∈ heapq_merge normal tumor ↔ e ∈ normal ∨ e ∈ tumor).
  { intros e. unfold heapq_merge. rewrite merge_Permutation. apply elem_of_app. }
  assert (Hnormal : ∀ p, (p, false) ∈ heapq_merge normal tumor ↔ (p, false) ∈ normal).
  { intros p. rewrite Hmem. split; [|by left].
    intros [?|Hin]; [done|]. by apply Hft in Hin. }
  assert (Htumor : ∀ p, (p, true) ∈ heapq_merge normal tumor ↔ (p, true) ∈ tumor).
  { intros p. rewrite Hmem. split; [|by right].
    intros [Hin|?]; [|done]. by apply Hfn in Hin. }
  unfold heapq_merge_generator_from.
  pose proof (MergeFacts.trailing_init_nil true (heapq_merge normal tumor)) as Htr.
  pose proof (MergeFacts.merge_loop_emitted (heapq_merge normal tumor) init pos) as Hem.
  pose proof (merge_loop_complete (heapq_merge normal tumor) init pos) as Hco.
  destruct (merge_loop true init (heapq_merge normal tumor)) as [st ys].
  simpl in *. rewrite Htr, app_nil_r. split.
  - intros Hp. destruct (Hem Hp) as (pre & post & Heq & [Hin|Hin]); [set_solver|].
    split.
    + apply Hnormal. rewrite Heq. apply elem_of_app. by left.
    + apply Htumor. rewrite Heq. apply elem_of_app. right. by left.
  - intros [H1 H2]. apply Hco.
    + apply Sorted_StronglySorted; [apply _|]. by apply Sorted_list_merge; [apply _|..].
    + right. by apply Hnormal.
    + by apply Htumor.
Qed.

Lemma merge_emits_common_positions_witness :
  heapq_merge_generator_from
    [(1, false); (3, false); (5, false)] [(1, true); (1, true); (2, true); (5, true)]
    true = [1; 5]
  ∧ (5 ∈ heapq_merge_generator_from
           [(1, false); (3, false); (5, false)]
           [(1, true); (1, true); (2, true); (5, true)] true
     ↔ (5, false) ∈ [(1, false); (3, false); (5, false)]
       ∧ (5, true) ∈ [(1, true); (1, true); (2, true); (5, true)]).
Proof.
  split; [vm_compute; reflexivity|].
  apply (merge_emits_common_positions
           [(1, false); (3, false); (5, false)]
           [(1, true); (1, true); (2, true); (5, true)] 5).
  - repeat constructor; unfold event_le; simpl; lia.
  - repeat constructor; unfold event_le; simpl; try lia; right; split; auto.
  - repeat constructor.
  - repeat constructor.
Defined.

(** With the skip-if-normal-empty flag off, the paired merge emits the
    position of every tumor event, in the order of the merged stream and
    with the repetitions of the stream, whatever the normal stream holds;
    the final loop over the tumor set adds nothing. *)
Theorem merge_without_skip_yields_tumor (normal tumor : list event) :
  heapq_merge_generator_from normal tumor false
  = (filter (λ e : event, e.2 = true) (heapq_merge normal tumor)).*1.
Proof.
  unfold heapq_merge_generator_from.
  pose proof (MergeFacts.trailing_init_nil false (heapq_merge normal tumor)) as Htr.
  pose proof (merge_loop_no_skip (heapq_merge normal tumor) init) as Hys.
  destruct (merge_loop false init (heapq_merge normal tumor)) as [st ys].
  simpl in *. by rewrite Htr, app_nil_r.
Qed.

End MergeYield.

(** * The candidate generator: what a whole run yields *)

Module GeneratorYield.
Import Py PyFacts Tensor TensorFacts Decode DecodeFacts Generator GeneratorFacts.

Lemma sorted_NoDup_lt (l : list Z) :
  StronglySorted Z.le l → NoDup l → StronglySorted Z.lt l.
Proof.
  induction 1 as [|x l Hs IH Hall]; intros Hnd; [constructor|].
  apply NoDup_cons in Hnd as [Hx Hnd]. constructor; [by apply IH|].
  rewrite Forall_forall in Hall |- *. intros y Hy. specialize (Hall y Hy).
  destruct (decide (x = y)) as [->|]; [done|lia].
Qed.

Section Run.
Context {F : Type} `{PyFloat F} (P : param F) (E : env F).

(** What one line does to the candidate list and the cursor. *)
Lemma process_row_candidates (is_tumor phasing_info_in_bam : bool) (st : gstate F)
    (r : row) (o : outcome F) :
  process_row P E is_tumor phasing_info_in_bam st r = Ok o →
  current_pos_index (state_of o) = current_pos_index st
  ∧ (∃ new, candidate_pos_list (state_of o) = candidate_pos_list st ++ new
            ∧ (new = [] ∨ (new = [row_pos r] ∧ has_pileup_candidates E = 0)))
  ∧ (∀ st' c, o = Yielded st' c →
       candidate_pos_list st' !! current_pos_index st' = Some c).
Proof.
  intros Hp.
  apply process_row_Ok in Hp as [(st' & -> & Hc & Hi & _)|(bl & depth & pass_af & names & Hs)].
  { simpl. split_and!; [done| |by intros ?? [=]].
    exists []. rewrite app_nil_r. split; [done|by left]. }
  destruct Hs as (c0 & af & hd & a1 & _ & _ & _ & _ & Ha1 & Hout). cbv zeta in Hout.
  set (a2 := is_known_vcf_file_provided E && (has_pileup_candidates E =? 0)
             && bool_decide (row_pos r ∈ known_variants_set E)) in *.
  assert (Hnew : (if a1 then [row_pos r] else []) ++ (if a2 then [row_pos r] else [])
                 = [] ∨
                 ((if a1 then [row_pos r] else []) ++ (if a2 then [row_pos r] else [])
                  = [row_pos r] ∧ has_pileup_candidates E = 0)).
  { destruct a1 eqn:E1.
    - destruct (proj1 Ha1 eq_refl) as (Hk & Hh & _). right.
      unfold a2. rewrite Hk. simpl. done.
    - simpl. destruct a2 eqn:E2; [|by left]. right. split; [done|].
      unfold a2 in E2. apply andb_true_iff in E2 as [E2 _].
      apply andb_true_iff in E2 as [_ E2]. by apply Z.eqb_eq in E2. }
  destruct Hout as [[-> _]|(c & -> & Hc & _)]; simpl.
  - split_and!; [done|eauto|by intros ?? [=]].
  - split_and!; [done|eauto|]. by intros ?? [= <- <-].
Qed.

(** The loop over the lines yields the candidates from the cursor on, in
    order, and only appends to the list. *)
Lemma feed_spec (is_tumor phasing_info_in_bam : bool) (rows : list row) :
  ∀ (st st' : gstate F) (ys : list Z),
    (current_pos_index st ≤ length (candidate_pos_list st))%nat →
    feed P E is_tumor phasing_info_in_bam st rows = (ys, Ok st') →
    candidate_pos_list st `prefix_of` candidate_pos_list st'
    ∧ (current_pos_index st ≤ current_pos_index st'
       ≤ length (candidate_pos_list st'))%nat
    ∧ ys = take (current_pos_index st' - current_pos_index st)
             (drop (current_pos_index st) (candidate_pos_list st')).
Proof.
  induction rows as [|r rows IH]; intros st st' ys Hle Hfeed.
  - injection Hfeed as <- <-. split; [done|split; [lia|]].
    by rewrite Nat.sub_diag.
  - cbn [feed] in Hfeed.
    destruct (process_row P E is_tumor phasing_info_in_bam st r) as [o|e] eqn:Ep;
      [|discriminate].
    destruct (process_row_candidates _ _ _ _ _ Ep) as (Hi & (new & Hc & _) & Hy).
    assert (Hpre : candidate_pos_list st `prefix_of` candidate_pos_list (state_of o))
      by (rewrite Hc; by apply prefix_app_r).
    assert (Hle1 : (current_pos_index (state_of o)
                    ≤ length (candidate_pos_list (state_of o)))%nat).
    { rewrite Hi, Hc, length_app. lia. }
    destruct o as [st1|st1|st1 c]; simpl in *.
    + destruct (IH _ _ _ Hle1 Hfeed) as (Hp & Hl & ->). rewrite Hi in *.
      split; [by etrans|split; done].
    + destruct (IH _ _ _ Hle1 Hfeed) as (Hp & Hl & ->). rewrite Hi in *.
      split; [by etrans|split; done].
    + specialize (Hy st1 c eq_refl).
      destruct (feed P E is_tumor phasing_info_in_bam (resume P st1 c) rows)
        as [ys' res] eqn:Ef.
      injection Hfeed as <- ->.
      destruct (IH (resume P st1 c) st' ys') as (Hp & Hl & ->); [|done|].
      { simpl. apply lookup_lt_Some in Hy. lia. }
      simpl in Hp, Hl |- *. rewrite Hi in *.
      split; [by etrans|split; [lia|]].
      assert (Hc' : candidate_pos_list st' !! current_pos_index st = Some c)
        by (by eapply prefix_lookup_Some).
      rewrite (drop_S _ _ _ Hc').
      replace (current_pos_index st' - current_pos_index st)%nat
        with (S (current_pos_index st' - S (current_pos_index st))) by lia.
      done.
Qed.

(** No candidate is lost or repeated: a run that comes to its end has
    yielded every entry of the final candidate list from the cursor it
    started at, once and in the order of the list; the list it started
    with is a prefix of the final one, and the cursor ends at the end of
    the list, so the final loop stops. *)
Theorem run_yields_every_candidate (is_tumor phasing_info_in_bam : bool)
    (st st' : gstate F) (rows : list row) (ys : list Z) :
  (current_pos_index st ≤ length (candidate_pos_list st))%nat →
  run P E is_tumor phasing_info_in_bam st rows = (ys, Ok st') →
  ys = drop (current_pos_index st) (candidate_pos_list st')
  ∧ candidate_pos_list st `prefix_of` candidate_pos_list st'
  ∧ current_pos_index st' = length (candidate_pos_list st').
Proof.
  intros Hle Hrun. unfold run in Hrun.
  destruct (feed P E is_tumor phasing_info_in_bam st rows) as [ys1 res] eqn:Ef.
  destruct res as [st1|e]; [|discriminate].
  destruct (feed_spec _ _ _ _ _ _ Hle Ef) as (Hp & Hl & ->).
  destruct (flush_spec P (length (candidate_pos_list st1) - current_pos_index st1)
              st1 eq_refl) as (Hz & Hcz & Hiz).
  destruct (flush P _ st1) as [zs st2] eqn:Efl. simpl in *.
  injection Hrun as <- <-. rewrite Hz, Hcz. split_and!; [|done|apply Hiz; lia].
  transitivity
    (take (current_pos_index st1 - current_pos_index st)
       (drop (current_pos_index st) (candidate_pos_list st1))
     ++ drop (current_pos_index st1 - current_pos_index st)
          (drop (current_pos_index st) (candidate_pos_list st1)));
    [|apply take_drop].
  rewrite drop_drop. do 2 f_equal. lia.
Qed.

(** With a candidate set the allele-frequency test adds nothing: the
    candidate list is never appended to. *)
Lemma feed_candidates_fixed (is_tumor phasing_info_in_bam : bool) (rows : list row) :
  has_pileup_candidates E ≠ 0 →
  ∀ (st st' : gstate F) (ys : list Z),
    feed P E is_tumor phasing_info_in_bam st rows = (ys, Ok st') →
    candidate_pos_list st' = candidate_pos_list st.
Proof.
  intros Hh. induction rows as [|r rows IH]; intros st st' ys Hfeed.
  - by injection Hfeed as <- <-.
  - cbn [feed] in Hfeed.
    destruct (process_row P E is_tumor phasing_info_in_bam st r) as [o|e] eqn:Ep;
      [|discriminate].
    destruct (process_row_candidates _ _ _ _ _ Ep) as (_ & (new & Hc & Hnew) & _).
    destruct Hnew as [->|[_ ?]]; [|done]. rewrite app_nil_r in Hc.
    destruct o as [st1|st1|st1 c]; simpl in *.
    + by rewrite (IH _ _ _ Hfeed).
    + by rewrite (IH _ _ _ Hfeed).
    + destruct (feed P E is_tumor phasing_info_in_bam (resume P st1 c) rows)
        as [ys' res] eqn:Ef.
      injection Hfeed as <- ->. by rewrite (IH _ _ _ Ef).
Qed.

(** Given a candidate set, a run that comes to its end yields exactly the
    candidates of the set, in increasing order, whatever the pileup lines
    hold. *)
Theorem run_with_candidate_set (is_tumor phasing_info_in_bam : bool)
    (pileup_dict : gmap Z (Position F)) (hap_dict : gmap string Z)
    (st' : gstate F) (rows : list row) (ys : list Z) :
  has_pileup_candidates E ≠ 0 →
  run P E is_tumor phasing_info_in_bam (start E pileup_dict hap_dict) rows
  = (ys, Ok st') →
  ys = merge_sort (≤) (elements (candidates_pos_set E))
  ∧ StronglySorted Z.lt ys
  ∧ ∀ pos, pos ∈ ys ↔ pos ∈ candidates_pos_set E.
Proof.
  intros Hh Hrun.
  assert (Hys : ys = merge_sort (≤) (elements (candidates_pos_set E))).
  { assert (H0 : (current_pos_index (start E pileup_dict hap_dict)
                  ≤ length (candidate_pos_list (start E pileup_dict hap_dict)))%nat)
      by (simpl; lia).
    destruct (run_yields_every_candidate _ _ _ _ _ _ H0 Hrun) as (-> & _ & _).
    unfold run in Hrun.
    destruct (feed P E is_tumor phasing_info_in_bam (start E pileup_dict hap_dict)
                rows) as [ys1 res] eqn:Ef.
    destruct res as [st1|e]; [|discriminate].
    pose proof (feed_candidates_fixed _ _ _ Hh _ _ _ Ef) as Hfix.
    destruct (flush_spec P (length (candidate_pos_list st1) - current_pos_index st1)
                st1 eq_refl) as (_ & Hcz & _).
    destruct (flush P _ st1) as [zs st2] eqn:Efl. simpl in *.
    injection Hrun as _ <-. by rewrite Hcz, Hfix. }
  subst ys. split_and!; [done| |].
  - apply sorted_NoDup_lt.
    + apply Sorted_StronglySorted; [apply _|]. apply Sorted_merge_sort; apply _.
    + rewrite merge_sort_Permutation. apply NoDup_elements.
  - intros pos. by rewrite merge_sort_Permutation, elem_of_elements.
Qed.
(** The candidates stay in increasing order while lines of increasing
    positions are read. *)
Lemma feed_sorted (is_tumor phasing_info_in_bam : bool) (rows : list row) :
  ∀ (st st' : gstate F) (ys : list Z),
    StronglySorted Z.lt (candidate_pos_list st) →
    (∀ c r, c ∈ candidate_pos_list st → r ∈ rows → c < row_pos r) →
    StronglySorted Z.lt (map row_pos rows) →
    feed P E is_tumor phasing_info_in_bam st rows = (ys, Ok st') →
    StronglySorted Z.lt (candidate_pos_list st').
Proof.
  induction rows as [|r rows IH]; intros st st' ys Hs Hlt Hrows Hfeed.
  - by injection Hfeed as <- <-.
  - cbn [feed] in Hfeed. cbn [map] in Hrows.
    apply StronglySorted_inv in Hrows as [Hrows Hr]. rewrite Forall_forall in Hr.
    destruct (process_row P E is_tumor phasing_info_in_bam st r) as [o|e] eqn:Ep;
      [|discriminate].
    destruct (process_row_candidates _ _ _ _ _ Ep) as (_ & (new & Hc & Hnew) & _).
    assert (Hs1 : StronglySorted Z.lt (candidate_pos_list (state_of o))).
    { rewrite Hc. destruct Hnew as [->|[-> _]]; [by rewrite app_nil_r|].
      apply StronglySorted_app_2; [|done|repeat constructor].
      intros c1 c2 Hc1 ->%list_elem_of_singleton. apply Hlt; [done|by left]. }
    assert (Hlt1 : ∀ c r', c ∈ candidate_pos_list (state_of o) → r' ∈ rows →
                           c < row_pos r').
    { intros c r' Hin Hr'. rewrite Hc in Hin.
      apply elem_of_app in Hin as [Hin|Hin]; [apply Hlt; [done|by right]|].
      destruct Hnew as [->|[-> _]]; [by apply elem_of_nil in Hin|].
      apply list_elem_of_singleton in Hin as ->. apply Hr.
      by apply list_elem_of_fmap_2. }
    destruct o as [st1|st1|st1 c]; simpl in *; [by eapply IH..|].
    destruct (feed P E is_tumor phasing_info_in_bam (resume P st1 c) rows)
      as [ys' res] eqn:Ef.
    injection Hfeed as <- ->. by eapply (IH (resume P st1 c)).
Qed.

(** What a generator hands to the paired merge is sorted: over pileup
    lines of strictly increasing positions, a run that comes to its end
    yields strictly increasing positions, with or without a candidate
    set. *)
Theorem run_yields_increasing (is_tumor phasing_info_in_bam : bool)
    (pileup_dict : gmap Z (Position F)) (hap_dict : gmap string Z)
    (st' : gstate F) (rows : list row) (ys : list Z) :
  StronglySorted Z.lt (map row_pos rows) →
  run P E is_tumor phasing_info_in_bam (start E pileup_dict hap_dict) rows
  = (ys, Ok st') →
  StronglySorted Z.lt ys
  ∧ Sorted Merge.event_le (map (λ pos, (pos, is_tumor)) ys).
Proof.
  intros Hrows Hrun.
  assert (Hys : StronglySorted Z.lt ys).
  { destruct (decide (has_pileup_candidates E = 0)) as [Hh|Hh];
      [|by eapply run_with_candidate_set].
    assert (H0 : (current_pos_index (start E pileup_dict hap_dict)
                  ≤ length (candidate_pos_list (start E pileup_dict hap_dict)))%nat)
      by (simpl; lia).
    destruct (run_yields_every_candidate _ _ _ _ _ _ H0 Hrun) as (-> & _ & _).
    unfold run in Hrun.
    destruct (feed P E is_tumor phasing_info_in_bam (start E pileup_dict hap_dict)
                rows) as [ys1 res] eqn:Ef.
    destruct res as [st1|e]; [|discriminate].
    destruct (flush_spec P (length (candidate_pos_list st1) - current_pos_index st1)
                st1 eq_refl) as (_ & Hcz & _).
    destruct (flush P _ st1) as [zs st2] eqn:Efl. simpl in *.
    injection Hrun as _ <-. rewrite Hcz.
    assert (Hnil : candidate_pos_list (start E pileup_dict hap_dict) = []).
    { unfold start, has_pileup_candidates in *. simpl.
      assert (Hsz : size (candidates_pos_set E) = 0%nat) by lia.
      apply size_empty_inv in Hsz. apply leibniz_equiv in Hsz.
      by rewrite Hsz, elements_empty. }
    eapply feed_sorted; [| |exact Hrows|exact Ef].
    - rewrite Hnil. constructor.
    - intros c r Hin. rewrite Hnil in Hin. by apply elem_of_nil in Hin. }
  split; [done|]. clear Hrun.
  induction Hys as [|x l Hs IH Hall]; [constructor|]. cbn [map].
  constructor; [done|]. destruct l as [|y l]; [constructor|]. cbn [map].
  constructor. apply Forall_cons in Hall as [Hxy _]. left. simpl. lia.
Qed.
End Run.

Import Examples.

Lemma run_yields_every_candidate_witness :
  ∃ st',
    run ex_param ex_env true false (start ex_env ∅ ∅) ex_tumor_rows = ([10], Ok st')
    ∧ [10] = drop (current_pos_index (start ex_env ∅ ∅)) (candidate_pos_list st')
    ∧ candidate_pos_list (start ex_env ∅ ∅) `prefix_of` candidate_pos_list st'
    ∧ current_pos_index st' = length (candidate_pos_list st').
Proof.
  eexists. split; [vm_compute; reflexivity|].
  eapply (run_yields_every_candidate ex_param ex_env true false (start ex_env ∅ ∅)
            _ ex_tumor_rows [10]).
  - vm_compute. lia.
  - vm_compute. reflexivity.
Defined.

Lemma run_with_candidate_set_witness :
  has_pileup_candidates ex_env_candidates ≠ 0
  ∧ ∃ st',
      run ex_param ex_env_candidates true false (start ex_env_candidates ∅ ∅)
        ex_tumor_rows = ([9; 12], Ok st')
      ∧ [9; 12] = merge_sort (≤) (elements (candidates_pos_set ex_env_candidates)).
Proof.
  assert (Hh : has_pileup_candidates ex_env_candidates ≠ 0)
    by (vm_compute; discriminate).
  split; [exact Hh|]. eexists. split; [vm_compute; reflexivity|].
  eapply (run_with_candidate_set ex_param ex_env_candidates true false ∅ ∅ _
            ex_tumor_rows [9; 12] Hh).
  vm_compute. reflexivity.
Defined.

Lemma run_yields_increasing_witness :
  ∃ st',
    run ex_param ex_env true false (start ex_env ∅ ∅) ex_tumor_rows = ([10], Ok st')
    ∧ StronglySorted Z.lt [10].
Proof.
  eexists. split; [vm_compute; reflexivity|].
  eapply (run_yields_increasing ex_param ex_env true false ∅ ∅ _ ex_tumor_rows [10]).
  - vm_compute. repeat constructor.
  - vm_compute. reflexivity.
Defined.

End GeneratorYield.

(** * The tensor builder and the window store *)

Module StoreFacts.
Import Py PyFacts Tensor TensorFacts.

Lemma same_pileup_refl {F : Type} (x : Position F) : same_pileup x x.
Proof. by repeat split. Qed.

Lemma same_pileup_trans {F : Type} (x y z : Position F) :
  same_pileup x y → same_pileup y z → same_pileup x z.
Proof.
  intros (?&?&?&?&?&?&?&?) (?&?&?&?&?&?&?&?). repeat split; congruence.
Qed.

Lemma store_step_refl {F : Type} (a b : Z) (d : gmap Z (Position F)) :
  store_step a b d d.
Proof.
  intros p. split_and!; [|done|congruence].
  destruct (d !! p); constructor. apply same_pileup_refl.
Qed.

Lemma store_step_trans {F : Type} (a b : Z) (d1 d2 d3 : gmap Z (Position F)) :
  store_step a b d1 d2 → store_step a b d2 d3 → store_step a b d1 d3.
Proof.
  intros H12 H23 p. destruct (H12 p) as (Ha & Hb & Hc).
  destruct (H23 p) as (Ha' & Hb' & Hc'). split_and!.
  - destruct Ha as [x y Hxy|]; inversion Ha' as [y' z Hyz|]; subst; constructor.
    by eapply same_pileup_trans.
  - intros Hp. by rewrite Hb', Hb.
  - intros x z Hx Hz Hu. destruct Ha as [x0 y Hxy|]; [|done].
    inversion Ha' as [y' z' Hyz Hy' Hz'|]; subst.
    injection Hx as ->. rewrite Hz in Hz'. injection Hz' as <-.
    eapply Hc'; [done..|]. by eapply Hc.
Qed.

(** Replacing an entry of the window by one that differs in [update_info]
    and [read_info] only, and does not clear [update_info]. *)
Lemma store_step_insert {F : Type} (a b p : Z) (d : gmap Z (Position F))
    (x x' : Position F) :
  a ≤ p < b → d !! p = Some x → same_pileup x x' →
  (update_info x = true → update_info x' = true) →
  store_step a b d (<[p := x']> d).
Proof.
  intros Hp Hx Hs Hu q. destruct (decide (q = p)) as [->|Hq].
  - rewrite lookup_insert_eq, Hx. split_and!; [by constructor|by intros []|].
    intros ? ? [= <-] [= <-]. done.
  - rewrite lookup_insert_ne by done. split_and!; [|done|congruence].
    destruct (d !! q); constructor. apply same_pileup_refl.
Qed.

Section Store.
Context {F : Type} (P : param F) (T : create_tensor).
Implicit Types (d : gmap Z (Position F)) (t : list (list cell)).

Lemma update_infos_same (x x' : Position F) is_tumor hap_dict mask_low_bq platform :
  update_infos P T x is_tumor hap_dict mask_low_bq platform = Ok x' →
  same_pileup x x' ∧ update_info x' = true.
Proof.
  unfold update_infos. intros H. inv_bind H ri Hri. injection H as <-.
  by repeat split.
Qed.

Lemma set_cell_shared_in a b t r c x t' :
  set_cell t r c x = Ok t' →
  (∀ p name, x = Shared p name → a ≤ p < b) →
  shared_in a b t → shared_in a b t'.
Proof.
  intros (row & Hrow & Hc & ->)%set_cell_Ok Hx Hin r2 row2 c2 p name Hr2 Hc2.
  destruct (decide (r2 = r)) as [->|Hr].
  - rewrite list_lookup_insert_eq in Hr2 by (by eapply lookup_lt_Some).
    injection Hr2 as <-. destruct (decide (c2 = c)) as [->|Hcc].
    + rewrite list_lookup_insert_eq in Hc2 by done. injection Hc2 as ->.
      by eapply Hx.
    + rewrite list_lookup_insert_ne in Hc2 by done. by eapply Hin.
  - rewrite list_lookup_insert_ne in Hr2 by done. by eapply Hin.
Qed.

Lemma place_read_shared_in a b d p t ins item t' ins' :
  a ≤ p < b → shared_in a b t →
  place_read d p a b (t, ins) item = Ok (t', ins') → shared_in a b t'.
Proof.
  intros Hp Hin. unfold place_read. destruct item as [read_idx [[hap order] name]].
  destruct (d !! p) as [x|]; [|by intros [= <- <-]].
  destruct (read_info x !! name) as [[ch ib]|]; [|by intros [= <- <-]].
  intros H. inv_bind H t1 Ht1.
  assert (shared_in a b t1).
  { eapply set_cell_shared_in; [exact Ht1| |done]. by intros ?? [= <- <-]. }
  by destruct (_ && _); injection H as <- <-.
Qed.

Lemma place_position_store is_tumor hap_dict mask_low_bq platform a b sorted
    d t ins p d' t' ins' :
  a ≤ p < b →
  place_position P T is_tumor hap_dict mask_low_bq platform a b sorted (d, t, ins) p
  = Ok (d', t', ins') →
  store_step a b d d' ∧ (shared_in a b t → shared_in a b t')
  ∧ (∀ x', d' !! p = Some x' → update_info x' = true).
Proof.
  intros Hp H. unfold place_position in H.
  inv_bind H d1 Hd1. inv_bind H st Hst. destruct st as [t1 ins1].
  injection H as <- <- <-.
  assert (Hd : store_step a b d d1 ∧ ∀ x', d1 !! p = Some x' → update_info x' = true).
  { destruct (d !! p) as [x|] eqn:Ex.
    - destruct (negb (update_info x)) eqn:Eu.
      + inv_bind Hd1 x' Hx'. injection Hd1 as <-.
        apply update_infos_same in Hx' as [Hs Hu]. split.
        * by eapply store_step_insert.
        * intros x2. rewrite lookup_insert_eq. by intros [= <-].
      + injection Hd1 as <-. split; [apply store_step_refl|].
        intros x2. rewrite Ex. intros [= <-]. by apply negb_false_iff in Eu.
    - injection Hd1 as <-. split; [apply store_step_refl|].
      intros x2. by rewrite Ex. }
  destruct Hd as [Hd Hu]. split_and!; [done| |done].
  intros Hin.
  eapply (foldM_inv (λ st, shared_in a b st.1)) in Hst; [done| |done].
  intros [t2 i2] item [t3 i3] _ Hs Hstep. simpl in *.
  by eapply place_read_shared_in.
Qed.

Lemma place_positions_store is_tumor hap_dict mask_low_bq platform a b sorted
    (L : list Z) : ∀ d t ins d' t' ins',
  Forall (λ p, a ≤ p < b) L →
  foldM (place_position P T is_tumor hap_dict mask_low_bq platform a b sorted)
    (d, t, ins) L = Ok (d', t', ins') →
  store_step a b d d' ∧ (shared_in a b t → shared_in a b t')
  ∧ (∀ p x', p ∈ L → d' !! p = Some x' → update_info x' = true).
Proof.
  induction L as [|p L IH]; intros d t ins d' t' ins' HL Hfold.
  - injection Hfold as <- <- <-. split_and!; [apply store_step_refl|done|].
    by intros ?? ?%elem_of_nil.
  - apply Forall_cons in HL as [Hp HL]. rewrite foldM_cons in Hfold.
    apply bind_Ok in Hfold as ([[d1 t1] ins1] & Hstep & Hfold).
    destruct (place_position_store _ _ _ _ _ _ _ _ _ _ _ _ _ _ Hp Hstep)
      as (Hs1 & Hin1 & Hu1).
    destruct (IH _ _ _ _ _ _ HL Hfold) as (Hs2 & Hin2 & Hu2).
    split_and!; [by eapply store_step_trans|by auto|].
    intros q x' [->|Hq]%elem_of_cons Hx'; [|by eapply Hu2].
    destruct (Hs2 p) as (Ha & _ & Hc). rewrite Hx' in Ha.
    inversion Ha as [x1 ? Hxx Hx1|]; subst. symmetry in Hx1.
    eapply Hc; [done..|]. by apply Hu1.
Qed.

Lemma write6_store a b d t r c v d' t' :
  shared_in a b t → write6 (d, t) r c v = Ok (d', t') →
  store_step a b d d' ∧ shared_in a b t'.
Proof.
  intros Hin H. unfold write6 in H. inv_bind H row Hrow. inv_bind H x Hx.
  apply list_get_Ok in Hrow, Hx. destruct x as [l|p name].
  - inv_bind H l' Hl'. inv_bind H t1 Ht1. injection H as <- <-.
    split; [apply store_step_refl|].
    eapply set_cell_shared_in; [exact Ht1|done|done].
  - inv_bind H y Hy. inv_bind H ci Hci. destruct ci as [ch ib].
    inv_bind H ch' Hch'. injection H as <- <-. apply of_option_Ok in Hy.
    split; [|done]. eapply store_step_insert; [by eapply Hin|done| |done].
    by repeat split.
Qed.

Lemma write_insert_store a b d t e d' t' :
  shared_in a b t → write_insert P T (d, t) e = Ok (d', t') →
  store_step a b d d' ∧ shared_in a b t'.
Proof.
  intros Hin H. unfold write_insert in H.
  destruct e as [[[read_idx p] ins_base] center_p].
  eapply (foldM_inv (λ st, store_step a b d st.1 ∧ shared_in a b st.2)) in H;
    [done| |split; [apply store_step_refl|done]].
  intros [d1 t1] ins_idx [d2 t2] _ [Hs1 Hi1] Hstep. simpl in *.
  unfold write_base in Hstep. inv_bind Hstep ch Hch. inv_bind Hstep v Hv.
  destruct (write6_store _ _ _ _ _ _ _ _ _ Hi1 Hstep) as [Hs2 Hi2].
  split; [by eapply store_step_trans|done].
Qed.

Lemma generate_tensor_store_step (mask_low_bq is_tumor : bool)
    (ctg_name ref_seq reference_sequence platform : string)
    (center_pos reference_start : Z) (sorted : list read_entry)
    (pileup_dict pileup_dict' : gmap Z (Position F)) (bed : IntervalTree.bed_tree)
    (hap_dict : gmap string Z) (out : option (list (list (list Z)) * string)) :
  let start_pos := center_pos - flankingBaseNum P in
  let end_pos := center_pos + flankingBaseNum P + 1 in
  generate_tensor P T mask_low_bq ctg_name center_pos sorted pileup_dict ref_seq
    reference_sequence reference_start platform bed is_tumor hap_dict
  = Ok (pileup_dict', out) →
  store_step start_pos end_pos pileup_dict pileup_dict'
  ∧ (out = None → pileup_dict' = pileup_dict)
  ∧ (∀ p x', out ≠ None → start_pos ≤ p < end_pos →
             pileup_dict' !! p = Some x' → update_info x' = true).
Proof.
  intros start_pos end_pos Hgen.
  destruct out as [[tensor alt_info]|].
  - destruct (generate_tensor_Some P T _ _ _ _ _ _ _ _ _ _ _ _ _ _ _ Hgen)
      as (rb & d1 & t1 & ins & t2 & center & _ & _ & _ & Hplace & Hwrite & _).
    fold start_pos end_pos in Hplace.
    assert (Hge : Forall (λ q, start_pos ≤ q < end_pos) (range start_pos end_pos)).
    { apply Forall_forall. by intros q Hq%elem_of_range. }
    destruct (place_positions_store _ _ _ _ _ _ _ _ _ _ _ _ _ _ Hge Hplace)
      as (Hs1 & Hin1 & Hu1).
    assert (Hin0 : shared_in start_pos end_pos
              (replicate (length sorted)
                 (replicate (Z.to_nat
                    (if String.eqb platform "ont" then ont_input_shape P
                     else input_shape P).1.2)
                    (Own (replicate (Z.to_nat
                       (if String.eqb platform "ont" then ont_input_shape P
                        else input_shape P).2) 0))))).
    { intros r row c p name Hr Hc. apply lookup_replicate in Hr as [-> _].
      by apply lookup_replicate in Hc as [? _]. }
    eapply (foldM_inv (λ st, store_step start_pos end_pos d1 st.1
                             ∧ shared_in start_pos end_pos st.2)) in Hwrite;
      [|clear Hwrite|split; [apply store_step_refl|by apply Hin1]].
    2:{ intros [d3 t3] e [d4 t4] _ [Hs3 Hi3] Hstep. simpl in *.
        destruct (write_insert_store _ _ _ _ _ _ _ Hi3 Hstep) as [Hs4 Hi4].
        split; [by eapply store_step_trans|done]. }
    destruct Hwrite as [Hs2 _]. simpl in Hs2. split_and!.
    + by eapply store_step_trans.
    + done.
    + intros p x' _ Hp Hx'. destruct (Hs2 p) as (Ha & _ & Hc).
      rewrite Hx' in Ha. inversion Ha as [x1 ? Hxx Hx1|]; subst.
      symmetry in Hx1. eapply Hc; [done..|].
      eapply Hu1; [|done]. by apply elem_of_range.
  - assert (pileup_dict' = pileup_dict) as ->.
    { unfold generate_tensor in Hgen. inv_bind Hgen rb Hrb.
      destruct (length sorted =? 0)%nat; [by injection Hgen as <-|].
      destruct (negb _); [by injection Hgen as <-|].
      inv_bind Hgen st Hst. destruct st as [[d1 t1] ins].
      inv_bind Hgen st2 Hst2. destruct st2 as [d2 t2].
      inv_bind Hgen center Hcenter. inv_bind Hgen ai Hai. discriminate. }
    split_and!; [apply store_step_refl|done|done].
Qed.



(** The depth written into the alt-info string is the number of reads
    that the generator stored at the center position, the reads marked
    ['N'], ['*'] and ['#'] among them: the first ['-']-separated field of
    the string is that number, whatever the store held in [read_info]. *)
Theorem alt_info_depth_counts_reads (mask_low_bq is_tumor : bool)
    (ctg_name ref_seq reference_sequence platform : string)
    (center_pos reference_start : Z) (sorted : list read_entry)
    (pileup_dict pileup_dict' : gmap Z (Position F)) (bed : IntervalTree.bed_tree)
    (hap_dict : gmap string Z) (tensor : list (list (list Z))) (alt_info : string) :
  generate_tensor P T mask_low_bq ctg_name center_pos sorted pileup_dict ref_seq
    reference_sequence reference_start platform bed is_tumor hap_dict
  = Ok (pileup_dict', Some (tensor, alt_info)) →
  ∃ center fields,
    pileup_dict !! center_pos = Some center
    ∧ split "-" alt_info
      = str (Z.of_nat (length (base_list center))) :: fields
    ∧ fields ≠ [].
Proof.
  intros Hgen.
  destruct (generate_tensor_store_step _ _ _ _ _ _ _ _ _ _ _ _ _ _ Hgen)
    as (Hs & _ & _).
  destruct (generate_tensor_Some P T _ _ _ _ _ _ _ _ _ _ _ _ _ _ _ Hgen)
    as (rb & d1 & t1 & ins & t2 & center' & _ & _ & _ & _ & _ & Hc & Halt & _).
  destruct (Hs center_pos) as (Ha & _). rewrite Hc in Ha.
  inversion Ha as [center ? Hsame Hcenter|]; subst. symmetry in Hcenter.
  destruct Hsame as (_ & _ & _ & Hbl & _).
  apply alt_info_of_form in Halt as (alts & ->). rewrite <- Hbl.
  exists center. eexists. split; [done|].
  change ("-" ++ alts ++ "-" ++ af_infos)%string
    with (String "-" (alts ++ "-" ++ af_infos)).
  rewrite split_app_sep by (apply str_nonneg_no_dash; lia).
  split; [reflexivity|].
  unfold split. destruct (alts ++ "-" ++ af_infos)%string; [done|].
  simpl. destruct (Ascii.eqb _ _); [done|].
  generalize [a]. generalize s. clear. intros s. induction s as [|c s IH]; intros l.
  - done.
  - simpl. destruct (Ascii.eqb _ _); [done|apply IH].
Qed.
End Store.

Import Examples.


Lemma alt_info_depth_counts_reads_witness :
  ∃ d' tensor alt_info center fields,
    generate_tensor ex_param ex_tables false "chr1" 10
      [(0, 0%nat, "n1"%string); (0, 1%nat, "n2"%string); (0, 2%nat, "n3"%string)]
      (ex_window false ex_normal_rows 12) "TACGT" "ACGTACGTACGTACGTACGT" 1 "ont" []
      false ∅ = Ok (d', Some (tensor, alt_info))
    ∧ ex_window false ex_normal_rows 12 !! 10 = Some center
    ∧ split "-" alt_info = str (Z.of_nat (length (base_list center))) :: fields
    ∧ fields ≠ [].
Proof.
  eexists _, _, _.
  assert (Hgen : generate_tensor ex_param ex_tables false "chr1" 10
      [(0, 0%nat, "n1"%string); (0, 1%nat, "n2"%string); (0, 2%nat, "n3"%string)]
      (ex_window false ex_normal_rows 12) "TACGT" "ACGTACGTACGTACGTACGT" 1 "ont" []
      false ∅ = Ok (_, Some (_, _))) by (vm_compute; reflexivity).
  destruct (alt_info_depth_counts_reads ex_param ex_tables false false "chr1" "TACGT"
              "ACGTACGTACGTACGTACGT" "ont" 10 1 _ _ _ [] ∅ _ _ Hgen)
    as (center & fields & H1 & H2 & H3).
  exists center, fields. split; [exact Hgen|]. split; [exact H1|].
  split; [exact H2|exact H3].
Defined.

End StoreFacts.

(** * The main loop: what one position writes *)

Module OutputFacts.
Import Py PyFacts Tensor TensorFacts Pipeline.

Section Body.
Context {F G : Type} `{PyFloat F} `{PyRandom G} (P : param F) (T : create_tensor)
        (A : args).


End Body.

Import Examples.


End OutputFacts.

(** * The pileup decoder: reading a well-formed column *)

Module ParseFacts.
Import Py PyFacts Decode DecodeFacts.

#[local] Arguments char_in : simpl never.

(** One iteration of the outer loop. *)
Lemma parse_loop_S (fuel : nat) (pileup_bases : string) (base_idx : nat)
    (base_list : list base_info) :
  parse_loop (S fuel) pileup_bases base_idx base_list
  = if (base_idx <? String.length pileup_bases)%nat then
      base ← get pileup_bases base_idx;
      if Ascii.eqb base "+" || Ascii.eqb base "-" then
        '(idx, advance) ← read_advance (suffix pileup_bases (base_idx + 1))
                            (base_idx + 1) 0;
        base_list ← set_last_indel base_list
          (String base (slice_nat pileup_bases idx (idx + advance)));
        parse_loop fuel pileup_bases (idx + advance - 1 + 1) base_list
      else if char_in base "ACGTNacgtn#*" then
        parse_loop fuel pileup_bases (base_idx + 1) (base_list ++ [(base, EmptyString)])
      else if Ascii.eqb base "^" then
        parse_loop fuel pileup_bases (base_idx + 1 + 1) base_list
      else
        parse_loop fuel pileup_bases (base_idx + 1) base_list
    else Ok base_list.
Proof. reflexivity. Qed.

#[local] Arguments parse_loop : simpl never.

Lemma string_length_app (a b : string) :
  String.length (a ++ b) = (String.length a + String.length b)%nat.
Proof.
  induction a as [|c a IH]; [by rewrite append_nil_l|].
  rewrite append_cons. simpl. by rewrite IH.
Qed.

(** Any fuel from the length of the string on gives the same parse. *)
Lemma parse_loop_enough (fuel : nat) (s : string) (bl : list base_info) :
  (String.length s ≤ fuel)%nat → parse_loop fuel s 0 bl = parse_from s bl.
Proof.
  intros Hf. unfold parse_from.
  replace fuel with (String.length s + (fuel - String.length s))%nat by lia.
  apply parse_loop_fuel. lia.
Qed.

Lemma base_not_sign (b : ascii) :
  char_in b "ACGTNacgtn#*" = true → Ascii.eqb b "+" || Ascii.eqb b "-" = false.
Proof.
  destruct b as [[] [] [] [] [] [] [] []]; vm_compute; congruence.
Qed.

(** A base character adds an entry without an indel. *)
Lemma parse_from_base (b : ascii) (s : string) (bl : list base_info) :
  char_in b "ACGTNacgtn#*" = true →
  parse_from (String b s) bl = parse_from s (bl ++ [(b, EmptyString)]).
Proof.
  intros Hb. unfold parse_from. cbn [String.length]. rewrite parse_loop_S.
  change (0 <? S (String.length s))%nat with true. cbv iota.
  change (get (String b s) 0) with (Ok (A := ascii) b).
  cbn [mbind result_bind bind]. rewrite (base_not_sign b Hb), Hb.
  change (0 + 1)%nat with 1%nat. apply parse_loop_shift.
Qed.

(** The end-of-read mark is stepped over. *)
Lemma parse_from_dollar (s : string) (bl : list base_info) :
  parse_from (String "$" s) bl = parse_from s bl.
Proof.
  unfold parse_from. cbn [String.length]. rewrite parse_loop_S.
  change (0 <? S (String.length s))%nat with true. cbv iota.
  change (get (String "$" s) 0) with (Ok (A := ascii) "$"%char).
  cbn [mbind result_bind bind].
  change (Ascii.eqb "$" "+" || Ascii.eqb "$" "-") with false.
  change (char_in "$" "ACGTNacgtn#*") with false.
  change (Ascii.eqb "$" "^") with false. cbv iota.
  change (0 + 1)%nat with 1%nat. apply parse_loop_shift.
Qed.

(** The start-of-read mark is stepped over together with the character
    that follows it, whatever that character is. *)
Lemma parse_from_caret (q : ascii) (s : string) (bl : list base_info) :
  parse_from (String "^" (String q s)) bl = parse_from s bl.
Proof.
  unfold parse_from. cbn [String.length]. rewrite parse_loop_S.
  change (0 <? S (S (String.length s)))%nat with true. cbv iota.
  change (get (String "^" (String q s)) 0) with (Ok (A := ascii) "^"%char).
  cbn [mbind result_bind bind].
  change (Ascii.eqb "^" "+" || Ascii.eqb "^" "-") with false.
  change (char_in "^" "ACGTNacgtn#*") with false.
  change (Ascii.eqb "^" "^") with true. cbv iota.
  change (0 + 1 + 1)%nat with 2%nat. rewrite !parse_loop_shift.
  apply parse_loop_enough. lia.
Qed.

(** The inner loop over a run of digits that a non-digit ends. *)
Lemma read_advance_run (digits : string) : ∀ (c : ascii) (tail : string) idx adv,
  string_forall isdigit digits = true → isdigit c = false →
  read_advance (digits ++ String c tail) idx adv
  = Ok ((idx + String.length digits)%nat, digits_value adv digits).
Proof.
  induction digits as [|d digits IH]; intros c tail idx adv Hd Hc.
  - rewrite append_nil_l. simpl. rewrite Hc. by rewrite Nat.add_0_r.
  - rewrite append_cons. simpl in Hd |- *.
    apply andb_true_iff in Hd as [-> Hd]. rewrite IH by done.
    do 2 f_equal. lia.
Qed.

(** The loop looks only at the characters from [base_idx] on. *)
Lemma parse_loop_drop (fuel : nat) (pre : string) : ∀ (s : string) (i : nat) bl,
  parse_loop fuel (pre ++ s) (String.length pre + i) bl = parse_loop fuel s i bl.
Proof.
  induction pre as [|c pre IH]; intros s i bl.
  - by rewrite append_nil_l.
  - rewrite append_cons. cbn [String.length Nat.add].
    rewrite parse_loop_shift. apply IH.
Qed.

Lemma substring_app_l (a b : string) :
  substring 0 (String.length a) (a ++ b) = a.
Proof.
  induction a as [|c a IH]; [rewrite append_nil_l; by destruct b|].
  rewrite append_cons. simpl. by rewrite IH.
Qed.

Lemma slice_nat_drop (pre : string) : ∀ (s : string) (a b : nat),
  slice_nat (pre ++ s) (String.length pre + a) (String.length pre + b)
  = slice_nat s a b.
Proof.
  induction pre as [|c pre IH]; intros s a b.
  - by rewrite append_nil_l.
  - rewrite append_cons. cbn [String.length Nat.add]. rewrite slice_nat_S. apply IH.
Qed.

Lemma set_last_indel_snoc (bl : list base_info) (b : ascii) (i0 indel : string) :
  set_last_indel (bl ++ [(b, i0)]) indel = Ok (bl ++ [(b, indel)]).
Proof.
  unfold set_last_indel. rewrite reverse_snoc. by rewrite reverse_cons, reverse_involutive.
Qed.

(** An indel after a base: the sign and the sequence become the indel of
    the last entry, and the parse goes on after the sequence. *)
Lemma parse_from_indel (sign : ascii) (digits seq rest : string)
    (bl : list base_info) (b : ascii) (i0 : string) :
  sign = "+"%char ∨ sign = "-"%char →
  string_forall isdigit digits = true →
  digits_value 0 digits = String.length seq →
  (∃ c seq', seq = String c seq' ∧ isdigit c = false) →
  parse_from (String sign (digits ++ seq ++ rest)) (bl ++ [(b, i0)])
  = parse_from rest (bl ++ [(b, String sign seq)]).
Proof.
  intros Hsign Hd Hv (c & seq' & -> & Hc).
  unfold parse_from at 1. cbn [String.length]. rewrite parse_loop_S.
  change (0 <? S ?n)%nat with true. cbv iota.
  change (get (String sign ?x) 0) with (Ok (A := ascii) sign).
  cbn [mbind result_bind bind].
  replace (Ascii.eqb sign "+" || Ascii.eqb sign "-") with true
    by (by destruct Hsign as [->| ->]).
  change (0 + 1)%nat with 1%nat. rewrite suffix_S, suffix_0.
  rewrite append_cons, read_advance_run by done.
  cbn [mbind result_bind bind]. rewrite Hv.
  change (1 + String.length digits)%nat with (S (String.length digits)).
  change (S (String.length digits) + String.length (String c seq'))%nat
    with (S (String.length digits + String.length (String c seq'))).
  rewrite slice_nat_S.
  replace (slice_nat (digits ++ String c (seq' ++ rest)) (String.length digits)
             (String.length digits + String.length (String c seq')))
    with (String c seq').
  2:{ rewrite <- (Nat.add_0_r (String.length digits)) at 1.
      rewrite slice_nat_drop. unfold slice_nat. rewrite Nat.sub_0_r.
      rewrite <- append_cons. by rewrite substring_app_l. }
  rewrite set_last_indel_snoc. cbn [mbind result_bind bind].
  replace (S (String.length digits + String.length (String c seq')) - 1 + 1)%nat
    with (S (String.length (digits ++ String c seq') + 0))
    by (rewrite string_length_app; lia).
  rewrite parse_loop_shift.
  replace (digits ++ String c (seq' ++ rest))%string
    with ((digits ++ String c seq') ++ rest)%string
    by (by rewrite string_app_assoc, append_cons).
  rewrite parse_loop_drop. apply parse_loop_enough.
  rewrite !string_length_app. simpl. lia.
Qed.

(** One well-formed read. *)
Lemma parse_from_read (r : column_read) (rest : string) (bl : list base_info) :
  well_formed r →
  parse_from (write_read r ++ rest) bl = parse_from rest (bl ++ [decoded r]).
Proof.
  destruct r as [start b indel fin]. unfold well_formed, write_read, decoded.
  cbn [cr_start cr_base cr_indel cr_end]. intros [Hb Hi].
  assert (Hstart : ∀ s,
            parse_from ((match start with
                         | Some q => String "^" (String q EmptyString)
                         | None => EmptyString
                         end) ++ s) bl = parse_from s bl).
  { intros s. destruct start as [q|]; [|by rewrite append_nil_l].
    rewrite !append_cons, append_nil_l. apply parse_from_caret. }
  rewrite string_app_assoc, Hstart, append_cons, parse_from_base by done.
  assert (Hend : ∀ bl', parse_from ((if fin then "$" else "") ++ rest) bl'
                        = parse_from rest bl').
  { intros bl'. destruct fin; [|by rewrite append_nil_l].
    rewrite append_cons, append_nil_l. apply parse_from_dollar. }
  destruct indel as [[[sign digits] seq]|].
  - destruct Hi as (Hsign & Hd & Hv & Hseq).
    rewrite string_app_assoc, append_cons, !string_app_assoc.
    rewrite parse_from_indel by done. apply Hend.
  - rewrite string_app_assoc, append_nil_l. apply Hend.
Qed.

Lemma parse_from_column (rs : list column_read) : ∀ bl,
  Forall well_formed rs →
  parse_from (write_column rs) bl = Ok (bl ++ map decoded rs).
Proof.
  induction rs as [|r rs IH]; intros bl Hwf.
  - by rewrite app_nil_r.
  - apply Forall_cons in Hwf as [Hr Hwf]. cbn [write_column fold_right map].
    rewrite parse_from_read by done. fold (write_column rs).
    rewrite IH by done. by rewrite <- List.app_assoc.
Qed.

(** The decoder reads back a well-formed pileup column: it returns one
    entry for each read, in order, with the base as written and, for a read
    with an indel, the sign followed by the inserted or deleted sequence.
    The start-of-read mark takes the mapping-quality character with it,
    whatever that character is, and the end-of-read mark is dropped. *)
Theorem parse_bases_reads_column (rs : list column_read) :
  Forall well_formed rs →
  parse_bases (write_column rs) = Ok (map decoded rs).
Proof. intros Hwf. apply (parse_from_column rs [] Hwf). Qed.

(** An indel that no base precedes makes the decoder raise [IndexError]:
    there is no last entry of [base_list] to attach it to. *)
Theorem parse_bases_leading_indel (sign c : ascii) (digits tail : string) :
  sign = "+"%char ∨ sign = "-"%char →
  string_forall isdigit digits = true → isdigit c = false →
  parse_bases (String sign (digits ++ String c tail)) = Raise IndexError.
Proof.
  intros Hsign Hd Hc. unfold parse_bases. cbn [String.length]. rewrite parse_loop_S.
  change (0 <? S ?n)%nat with true. cbv iota.
  change (get (String sign ?x) 0) with (Ok (A := ascii) sign).
  cbn [mbind result_bind bind].
  replace (Ascii.eqb sign "+" || Ascii.eqb sign "-") with true
    by (by destruct Hsign as [->| ->]).
  change (0 + 1)%nat with 1%nat. rewrite suffix_S, suffix_0.
  rewrite read_advance_run by done. done.
Qed.

Lemma reads_with_none (f : base_info → bool) (bl : list base_info) :
  Forall (λ bi, f bi = false) bl → reads_with f bl = 0.
Proof.
  intros Hall. unfold reads_with.
  induction Hall as [|bi bl Hbi Hall IH]; [done|]. simpl. by rewrite Hbi.
Qed.

Section Reference.
Context {F : Type} `{HF : PyFloat F} `{!PyFloatLaws F}.

(** A column without an alternative never passes the gate: with positive
    thresholds and no candidate set, when every read of the column shows
    the reference base or a character outside [{A,C,G,T}] once
    uppercased (['N'], ['*'], ['#']) and none carries an indel, the
    decoder returns [pass_af = False]. *)
Theorem reference_column_never_passes (P : param F) (pos : Z)
    (pileup_bases : string) (reference_base : ascii) (ts ti : F)
    (candidates_type_dict : gmap Z string) (is_tumor : bool) (platform : string)
    (base_list : list base_info) (depth : option Z) (pass_af : bool) (af : F) :
  fpos ts = true → fpos ti = true → char_in reference_base "ACGT" = true →
  decode_pileup_bases P pos pileup_bases reference_base ts ti 0
    candidates_type_dict is_tumor platform = Ok (base_list, depth, pass_af, af) →
  Forall (λ bi : base_info,
            (upper_char bi.1 = reference_base
             ∨ char_in (upper_char bi.1) "ACGT" = false)
            ∧ bi.2 = EmptyString) base_list →
  pass_af = false.
Proof.
  intros Hts Hti Href Hdec Hall.
  destruct (decode_gate P _ _ _ _ _ _ _ _ _ _ _ _ Hts Hti Href Hdec)
    as (_ & _ & Hiff).
  destruct pass_af; [|done]. exfalso.
  set (den := if 0 <? spec_depth base_list then spec_depth base_list else 1) in *.
  assert (Hden : 0 < den) by (unfold den; destruct (0 <? spec_depth base_list) eqn:E; lia).
  destruct (proj1 Hiff eq_refl) as [(b & Hb & Hne & Hge)|[Hge|Hge]].
  - assert (Hz : spec_count b base_list = 0).
    { apply reads_with_none. eapply Forall_impl; [exact Hall|].
      intros bi [[Hr|Hn] _]; unfold is_base; apply Ascii.eqb_neq.
      - congruence.
      - intros Heq. rewrite Heq in Hn. congruence. }
    rewrite Hz, fgeb_zero_pos in Hge by done. done.
  - assert (Hz : spec_ins_count base_list = 0).
    { apply reads_with_none. eapply Forall_impl; [exact Hall|].
      intros bi [_ Hi]. unfold has_indel, key1. by rewrite Hi. }
    rewrite Hz, fgeb_zero_pos in Hge by done. done.
  - assert (Hz : spec_del_count base_list = 0).
    { apply reads_with_none. eapply Forall_impl; [exact Hall|].
      intros bi [_ Hi]. unfold has_indel, key1. by rewrite Hi. }
    rewrite Hz, fgeb_zero_pos in Hge by done. done.
Qed.
End Reference.

Import Examples.

Lemma parse_bases_reads_column_witness :
  write_column ex_column = "^+A$c+2ACG-1t*"%string
  ∧ parse_bases (write_column ex_column)
    = Ok [("A"%char, ""%string); ("c"%char, "+AC"%string); ("G"%char, "-t"%string);
          ("*"%char, ""%string)].
Proof.
  split; [vm_compute; reflexivity|].
  apply (parse_bases_reads_column ex_column).
  repeat constructor; try (by left); try (by right); by eexists _, _.
Defined.

Lemma parse_bases_leading_indel_witness :
  parse_bases "+1AC" = Raise IndexError.
Proof.
  apply (parse_bases_leading_indel "+" "A" "1" "C"); [by left|reflexivity..].
Defined.

Lemma reference_column_never_passes_witness :
  ∃ pass_af af,
    decode_pileup_bases ex_param 9 "A$a*N" "A" (1 # 20)%Q (1 # 20)%Q 0 ∅ true "ont"
    = Ok ([("A"%char, ""%string); ("a"%char, ""%string); ("*"%char, ""%string);
           ("N"%char, ""%string)], Some 3, pass_af, af)
    ∧ pass_af = false.
Proof.
  eexists _, _.
  assert (Hdec :
    decode_pileup_bases ex_param 9 "A$a*N" "A" (1 # 20)%Q (1 # 20)%Q 0 ∅ true "ont"
    = Ok ([("A"%char, ""%string); ("a"%char, ""%string); ("*"%char, ""%string);
           ("N"%char, ""%string)], Some 3, _, _)) by (vm_compute; reflexivity).
  split; [exact Hdec|].
  apply (reference_column_never_passes (HF := PyFloat_Q) ex_param 9 "A$a*N" "A"
           (1 # 20)%Q (1 # 20)%Q ∅ true "ont" _ _ _ _ eq_refl eq_refl eq_refl Hdec).
  repeat (apply Forall_cons; split;
          [split; [first [left; reflexivity|right; reflexivity]|reflexivity]|]).
  by apply Forall_nil.
Defined.

End ParseFacts.

(** * Heterozygous SNP selection: the file that is written *)

Module HetSnpOutput.
Import Py PyFacts HetSnp HetSnpFacts.

Lemma list_to_map_omap_lookup (d : gmap Z string) (l : list Z) (pos : Z) (row : string) :
  (list_to_map (omap (λ pos, row ← d !! pos; Some (pos, row)) l) : gmap Z string)
    !! pos = Some row
  ↔ pos ∈ l ∧ d !! pos = Some row.
Proof.
  induction l as [|p l IH]; simpl.
  - rewrite lookup_empty. split; [done|]. intros [?%elem_of_nil _]. done.
  - destruct (d !! p) as [r|] eqn:Ep; simpl.
    + destruct (decide (p = pos)) as [->|Hne].
      * rewrite lookup_insert_eq. split.
        -- intros [= <-]. split; [by left|done].
        -- intros [_ Hr]. congruence.
      * rewrite lookup_insert_ne by done. rewrite IH. split.
        -- intros [? ?]. split; [by right|done].
        -- intros [[->|?]%elem_of_cons ?]; done.
    + rewrite IH. split.
      * intros [? ?]. split; [by right|done].
      * intros [[->|?]%elem_of_cons Hr]; [congruence|done].
Qed.

(** Reading a map at a list of its keys. *)
Lemma omap_lookup_keys (m : gmap Z string) (keys : list Z) :
  (∀ k, k ∈ keys → is_Some (m !! k)) →
  Forall2 (λ pos row, m !! pos = Some row) keys (omap (λ pos, m !! pos) keys).
Proof.
  induction keys as [|k keys IH]; intros Hk; [constructor|].
  destruct (Hk k) as [row Hrow]; [by left|].
  change (omap (λ pos, m !! pos) (k :: keys))
    with (match m !! k with
          | Some y => y :: omap (λ pos, m !! pos) keys
          | None => omap (λ pos, m !! pos) keys
          end).
  rewrite Hrow. constructor; [done|]. apply IH. intros; apply Hk; by right.
Qed.

Section Output.
Context {F : Type} `{HF : PyFloat F}.

(** The loop over the normal VCF copies every header line, in order. *)
Lemma normal_fold_header (contig_name : option string) (lines : list (vcf_line F)) :
  ∀ st st' : normal_state,
    foldM (normal_step contig_name) st lines = Ok st' →
    header st'
    = header st ++ map (λ row, (row ++ String "010" EmptyString)%string)
                       (header_rows lines).
Proof.
  induction lines as [|line lines IH]; intros st st' Hfold.
  - injection Hfold as <-. by rewrite app_nil_r.
  - rewrite foldM_cons in Hfold. apply bind_Ok in Hfold as (st1 & Hstep & Hfold).
    rewrite (IH _ _ Hfold). clear IH Hfold. unfold normal_step in Hstep.
    destruct line as [row|row ctg pos rb ab qual sample]; simpl.
    + injection Hstep as <-. simpl. by rewrite <- List.app_assoc.
    + destruct (other_contig contig_name ctg); [by injection Hstep as <-|].
      destruct (is_het_snp rb ab sample); [|by injection Hstep as <-].
      destruct qual as [q|]; [|done]. by injection Hstep as <-.
Qed.

(** The file that is written: the header lines of the normal VCF, in
    their order (those of the tumor VCF are dropped), then one line for
    every selected position, in strictly increasing order of position,
    each the tumor line kept for that position; every line ends with a
    newline. *)
Theorem output_is_header_then_sorted_rows (var_pct_full min_qual : F)
    (contig_name : option string) (normal_vcf tumor_vcf : list (vcf_line F))
    (sel : selection) :
  select_hetero_snp_for_phasing var_pct_full min_qual contig_name normal_vcf
    tumor_vcf = Ok sel →
  ∃ (positions : list Z) (rows : list string),
    output_lines sel
    = map (λ row, (row ++ String "010" EmptyString)%string)
          (header_rows normal_vcf ++ rows)
    ∧ StronglySorted Z.lt positions
    ∧ (∀ pos, pos ∈ positions ↔ is_Some (pass_variant_dict sel !! pos))
    ∧ Forall2 (λ pos row, pass_variant_dict sel !! pos = Some row
                          ∧ tumor_variant_dict (sel_tumor sel) !! pos = Some row)
              positions rows.
Proof.
  unfold select_hetero_snp_for_phasing. intros Hsel.
  apply bind_Ok in Hsel as (n & Hn & Hsel). cbn beta in Hsel.
  apply bind_Ok in Hsel as (t & Ht & Hsel). cbn beta in Hsel.
  injection Hsel as <-. cbn [output_lines pass_variant_dict sel_tumor].
  set (pass := (list_to_map _ : gmap Z string)).
  set (keys := merge_sort (≤) (elements (dom pass))).
  assert (Hkeys : ∀ k, k ∈ keys ↔ is_Some (pass !! k)).
  { intros k. unfold keys. by rewrite merge_sort_Permutation, elem_of_elements,
      elem_of_dom. }
  assert (Hall := omap_lookup_keys pass keys (λ k Hk, proj1 (Hkeys k) Hk)).
  exists keys, (omap (λ pos, pass !! pos) keys). split_and!.
  - rewrite map_app. f_equal.
    by rewrite (normal_fold_header _ _ _ _ Hn).
  - assert (Hs : StronglySorted Z.le keys).
    { apply Sorted_StronglySorted; [apply _|]. apply Sorted_merge_sort; apply _. }
    assert (Hnd : NoDup keys).
    { unfold keys. rewrite merge_sort_Permutation. apply NoDup_elements. }
    clear -Hs Hnd. induction Hs as [|x l Hs IH Hall]; [constructor|].
    apply NoDup_cons in Hnd as [Hx Hnd]. constructor; [by apply IH|].
    rewrite Forall_forall in Hall |- *. intros y Hy. specialize (Hall y Hy).
    destruct (decide (x = y)) as [->|]; [done|lia].
  - done.
  - eapply Forall2_impl; [exact Hall|]. intros pos row Hrow. split; [done|].
    unfold pass in Hrow. by apply list_to_map_omap_lookup in Hrow as [_ ?].
Qed.

(** With the default fraction nothing is dropped for low quality: when
    [int(var_pct_full * N)] is 0 for both quality dictionaries, both
    low-quality sets are empty, no position is counted as low quality,
    and the positions written are exactly the retained ones. *)
Theorem zero_fraction_drops_nothing (var_pct_full min_qual : F)
    (contig_name : option string) (normal_vcf tumor_vcf : list (vcf_line F))
    (sel : selection) :
  select_hetero_snp_for_phasing var_pct_full min_qual contig_name normal_vcf
    tumor_vcf = Ok sel →
  fmul_trunc var_pct_full
    (Z.of_nat (length (normal_qual_dict (sel_normal sel)))) = 0 →
  fmul_trunc var_pct_full
    (Z.of_nat (length (tumor_qual_dict (sel_tumor sel)))) = 0 →
  normal_low_qual_set sel = ∅ ∧ tumor_low_qual_set sel = ∅
  ∧ low_qual_count sel = 0%nat
  ∧ dom (pass_variant_dict sel) = intersect_pos_set (sel_tumor sel).
Proof.
  unfold select_hetero_snp_for_phasing. intros Hsel.
  apply bind_Ok in Hsel as (n & Hn & Hsel). cbn beta in Hsel.
  apply bind_Ok in Hsel as (t & Ht & Hsel). cbn beta in Hsel.
  injection Hsel as <-.
  cbn [sel_normal sel_tumor normal_low_qual_set tumor_low_qual_set low_qual_count
       pass_variant_dict].
  intros Hzn Hzt.
  destruct (tumor_fold_spec contig_name min_qual (variant_dict n) tumor_vcf
              (mkTumor [] ∅ ∅ 0 0) t Ht) as [Hdom _].
  { simpl. intros pos ?%not_elem_of_empty. done. }
  assert (Hnl : low_qual_set var_pct_full (normal_qual_dict n) = ∅).
  { unfold low_qual_set. by rewrite Hzn. }
  assert (Htl : low_qual_set var_pct_full (tumor_qual_dict t) = ∅).
  { unfold low_qual_set. by rewrite Hzt. }
  rewrite Hnl, Htl. split_and!; [done|done| |].
  - induction (elements (intersect_pos_set t)) as [|x l IH]; [done|].
    rewrite filter_cons_False; [done|].
    intros [?%not_elem_of_empty|?%not_elem_of_empty]; done.
  - apply set_eq. intros pos. rewrite elem_of_dom. split.
    + intros [row Hrow]. apply list_to_map_omap_lookup in Hrow as [Hin _].
      apply list_elem_of_filter in Hin as [_ Hin]. by apply elem_of_elements in Hin.
    + intros Hin. destruct (Hdom pos Hin) as [row Hrow]. exists row.
      apply list_to_map_omap_lookup. split; [|done].
      apply list_elem_of_filter. split; [|by apply elem_of_elements].
      intros [?%not_elem_of_empty|?%not_elem_of_empty]; done.
Qed.
End Output.

Import Examples.

Lemma output_is_header_then_sorted_rows_witness :
  ∃ sel positions rows,
    select_hetero_snp_for_phasing 0%Q 10%Q (Some "chr1"%string) ex_normal_vcf
      ex_tumor_vcf = Ok sel
    ∧ output_lines sel
      = map (λ row, (row ++ String "010" EmptyString)%string)
            (header_rows ex_normal_vcf ++ rows)
    ∧ StronglySorted Z.lt positions
    ∧ (∀ pos, pos ∈ positions ↔ is_Some (pass_variant_dict sel !! pos))
    ∧ Forall2 (λ pos row, pass_variant_dict sel !! pos = Some row
                          ∧ tumor_variant_dict (sel_tumor sel) !! pos = Some row)
              positions rows.
Proof.
  eexists.
  assert (Hsel : select_hetero_snp_for_phasing 0%Q 10%Q (Some "chr1"%string)
                   ex_normal_vcf ex_tumor_vcf = Ok _) by (vm_compute; reflexivity).
  destruct (output_is_header_then_sorted_rows (HF := PyFloat_Q) 0%Q 10%Q
              (Some "chr1"%string) ex_normal_vcf ex_tumor_vcf _ Hsel)
    as (positions & rows & H1 & H2 & H3 & H4).
  exists positions, rows. split; [exact Hsel|]. split; [exact H1|].
  split; [exact H2|]. split; [exact H3|exact H4].
Defined.

Lemma zero_fraction_drops_nothing_witness :
  ∃ sel,
    select_hetero_snp_for_phasing 0%Q 10%Q (Some "chr1"%string) ex_normal_vcf
      ex_tumor_vcf = Ok sel
    ∧ normal_low_qual_set sel = ∅ ∧ tumor_low_qual_set sel = ∅
    ∧ low_qual_count sel = 0%nat
    ∧ dom (pass_variant_dict sel) = intersect_pos_set (sel_tumor sel).
Proof.
  eexists.
  assert (Hsel : select_hetero_snp_for_phasing 0%Q 10%Q (Some "chr1"%string)
                   ex_normal_vcf ex_tumor_vcf = Ok _) by (vm_compute; reflexivity).
  split; [exact Hsel|].
  apply (zero_fraction_drops_nothing (HF := PyFloat_Q) 0%Q 10%Q (Some "chr1"%string)
           ex_normal_vcf ex_tumor_vcf _ Hsel); vm_compute; reflexivity.
Defined.

End HetSnpOutput.

(** * The preparation steps: candidates BED, chunks, reference window *)

Module SetupFacts.
Import Py PyFacts Generator Setup.

Lemma bed_step_other (ctg : string) (st : bed_state) (row : bed_row) :
  bed_ctg row ≠ ctg → bed_step ctg st row = st.
Proof. intros Hne. unfold bed_step. apply String.eqb_neq in Hne. by rewrite Hne. Qed.

Lemma bed_step_same (ctg : string) (st : bed_state) (row : bed_row) :
  bed_ctg row = ctg →
  bed_step ctg st row
  = mkBedState
      (Some match b_ctg_start st with
            | None => bed_start row + 1
            | Some s => Z.min (bed_start row + 1) s
            end)
      (Z.max (bed_end row + 1) (b_ctg_end st))
      ({[center_of row]} ∪ b_pos_set st)
      (<[center_of row := variant_type_of row]> (b_type_dict st)).
Proof. intros <-. unfold bed_step. by rewrite String.eqb_refl. Qed.

(** [center] in terms of the two columns of the row. *)
Lemma center_of_eq (row : bed_row) :
  center_of row = bed_start row + (bed_end row - bed_start row) / 2.
Proof.
  unfold center_of.
  replace (bed_end row + 1 - (bed_start row + 1)) with (bed_end row - bed_start row)
    by lia.
  lia.
Qed.

Lemma bed_fold_none (ctg : string) (rows : list bed_row) : ∀ st,
  (∀ r, r ∈ rows → bed_ctg r ≠ ctg) → fold_left (bed_step ctg) rows st = st.
Proof.
  induction rows as [|r rows IH]; intros st Hall; [done|]. simpl.
  rewrite bed_step_other by (apply Hall; by left).
  apply IH. intros r' Hr'. apply Hall. by right.
Qed.

(** [candidates_pos_set] after the loop: what it held, and the centers of
    the rows of the contig. *)
Lemma bed_fold_pos (ctg : string) (rows : list bed_row) : ∀ st x,
  x ∈ b_pos_set (fold_left (bed_step ctg) rows st)
  ↔ x ∈ b_pos_set st ∨ ∃ r, r ∈ rows ∧ bed_ctg r = ctg ∧ center_of r = x.
Proof.
  induction rows as [|r rows IH]; intros st x; simpl.
  - split; [by left|]. intros [?|(r & ?%elem_of_nil & _)]; done.
  - rewrite IH. destruct (decide (bed_ctg r = ctg)) as [Hr|Hr].
    + rewrite bed_step_same by done. cbn [b_pos_set].
      rewrite elem_of_union, elem_of_singleton. split.
      * intros [[->|?]|(r' & ? & ? & ?)].
        -- right. exists r. split; [by left|done].
        -- by left.
        -- right. exists r'. split; [by right|done].
      * intros [?|(r' & [->|?]%elem_of_cons & ? & ?)].
        -- left. by right.
        -- left. by left.
        -- right. by exists r'.
    + rewrite bed_step_other by done. split.
      * intros [?|(r' & ? & ? & ?)]; [by left|].
        right. exists r'. split; [by right|done].
      * intros [?|(r' & [->|?]%elem_of_cons & ? & ?)]; [by left|done|].
        right. by exists r'.
Qed.

(** Every key of [candidates_type_dict] is a member of
    [candidates_pos_set] and the other way round. *)
Lemma bed_fold_dom (ctg : string) (rows : list bed_row) : ∀ st,
  dom (b_type_dict st) = b_pos_set st →
  dom (b_type_dict (fold_left (bed_step ctg) rows st))
  = b_pos_set (fold_left (bed_step ctg) rows st).
Proof.
  induction rows as [|r rows IH]; intros st Hdom; [done|]. simpl. apply IH.
  destruct (decide (bed_ctg r = ctg)) as [Hr|Hr].
  - rewrite bed_step_same by done. cbn [b_pos_set b_type_dict].
    by rewrite dom_insert_L, Hdom.
  - by rewrite bed_step_other.
Qed.

(** A type found after the loop was there before or is that of a row of
    the contig with this center. *)
Lemma bed_fold_types (ctg : string) (rows : list bed_row) : ∀ st x t,
  b_type_dict (fold_left (bed_step ctg) rows st) !! x = Some t →
  b_type_dict st !! x = Some t
  ∨ ∃ r, r ∈ rows ∧ bed_ctg r = ctg ∧ center_of r = x ∧ variant_type_of r = t.
Proof.
  induction rows as [|r rows IH]; intros st x t; simpl; [by left|].
  intros [Hst|(r' & ? & ? & ? & ?)]%IH.
  - destruct (decide (bed_ctg r = ctg)) as [Hr|Hr].
    + rewrite bed_step_same in Hst by done. cbn [b_type_dict] in Hst.
      apply lookup_insert_Some in Hst as [[? ?]|[? ?]]; [|by left].
      right. exists r. split; [by left|done].
    + rewrite bed_step_other in Hst by done. by left.
  - right. exists r'. split; [by right|done].
Qed.

(** [ctg_end] never decreases and reaches the end of every row of the
    contig. *)
Lemma bed_fold_end (ctg : string) (rows : list bed_row) : ∀ st,
  b_ctg_end st ≤ b_ctg_end (fold_left (bed_step ctg) rows st)
  ∧ ∀ r, r ∈ rows → bed_ctg r = ctg →
         bed_end r + 1 ≤ b_ctg_end (fold_left (bed_step ctg) rows st).
Proof.
  induction rows as [|r rows IH]; intros st; simpl.
  - split; [lia|]. by intros r ?%elem_of_nil.
  - specialize (IH (bed_step ctg st r)).
    destruct (decide (bed_ctg r = ctg)) as [Hr|Hr].
    + rewrite bed_step_same in IH |- * by done. destruct IH as [Hmono Hall].
      cbn [b_ctg_end] in Hmono.
      split; [lia|]. intros r' [->|Hr']%elem_of_cons Hc; [lia|by apply Hall].
    + rewrite bed_step_other in IH |- * by done. destruct IH as [Hmono Hall].
      split; [done|]. intros r' [->|Hr']%elem_of_cons Hc; [done|by apply Hall].
Qed.

(** [ctg_start] never increases, is at most the start of every row of the
    contig, and is the value it had or the start of one of these rows. *)
Lemma bed_fold_start (ctg : string) (rows : list bed_row) : ∀ st,
  (∀ s, b_ctg_start st = Some s →
        ∃ s', b_ctg_start (fold_left (bed_step ctg) rows st) = Some s' ∧ s' ≤ s)
  ∧ (∀ r, r ∈ rows → bed_ctg r = ctg →
          ∃ s', b_ctg_start (fold_left (bed_step ctg) rows st) = Some s'
                ∧ s' ≤ bed_start r + 1)
  ∧ (∀ s', b_ctg_start (fold_left (bed_step ctg) rows st) = Some s' →
           b_ctg_start st = Some s'
           ∨ ∃ r, r ∈ rows ∧ bed_ctg r = ctg ∧ bed_start r + 1 = s').
Proof.
  induction rows as [|r rows IH]; intros st; simpl.
  - split_and!.
    + intros s Hs. exists s. split; [done|lia].
    + by intros r ?%elem_of_nil.
    + intros s' Hs'. by left.
  - specialize (IH (bed_step ctg st r)).
    destruct (decide (bed_ctg r = ctg)) as [Hr|Hr].
    + rewrite bed_step_same in IH |- * by done. destruct IH as (Hmono & Hall & Hatt).
      cbn [b_ctg_start] in Hmono, Hatt. split_and!.
      * intros s Hs. destruct (Hmono _ eq_refl) as (s' & Hs' & Hle).
        exists s'. split; [done|]. rewrite Hs in Hle. lia.
      * intros r' [->|Hr']%elem_of_cons Hc; [|by apply Hall].
        destruct (Hmono _ eq_refl) as (s' & Hs' & Hle). exists s'. split; [done|].
        destruct (b_ctg_start st); lia.
      * intros s' [Hs'|(r' & ? & ? & ?)]%Hatt.
        -- injection Hs' as Hs'. destruct (b_ctg_start st) as [s|] eqn:Es.
           ++ destruct (Z.min_spec (bed_start r + 1) s) as [[_ Hm]|[_ Hm]].
              ** right. exists r. split; [by left|]. split; [done|lia].
              ** left. f_equal. lia.
           ++ right. exists r. split; [by left|done].
        -- right. exists r'. split; [by right|done].
    + rewrite bed_step_other in IH |- * by done. destruct IH as (Hmono & Hall & Hatt).
      split_and!.
      * done.
      * intros r' [->|Hr']%elem_of_cons Hc; [done|by apply Hall].
      * intros s' [Hs'|(r' & ? & ? & ?)]%Hatt; [by left|].
        right. exists r'. split; [by right|done].
Qed.

(** The loop over the candidates BED and the filter that follows it, for a
    BED with a row of the contig. *)
Lemma read_candidates_bed_spec (ctg : string) (rows : list bed_row) (row : bed_row) :
  row ∈ rows → bed_ctg row = ctg →
  ∃ s,
    read_candidates_bed ctg rows
    = (BInt s, b_ctg_end (fold_left (bed_step ctg) rows (mkBedState None 0 ∅ ∅)),
       filter (λ item, s ≤ item
                       ∧ item ≤ b_ctg_end (fold_left (bed_step ctg) rows
                                             (mkBedState None 0 ∅ ∅)))
              (b_pos_set (fold_left (bed_step ctg) rows (mkBedState None 0 ∅ ∅))),
       b_type_dict (fold_left (bed_step ctg) rows (mkBedState None 0 ∅ ∅)))
    ∧ b_ctg_start (fold_left (bed_step ctg) rows (mkBedState None 0 ∅ ∅)) = Some s.
Proof.
  intros Hin Hc.
  destruct (bed_fold_start ctg rows (mkBedState None 0 ∅ ∅)) as (_ & Hall & _).
  destruct (Hall row Hin Hc) as (s & Hs & _). exists s.
  unfold read_candidates_bed. by rewrite Hs.
Qed.

(** A row of the contig that spans two positions or more always gives a
    candidate: its center [start + (end - start) // 2] passes the range
    filter and has a variant type. *)
Theorem wide_row_gives_candidate (ctg_name : string) (rows : list bed_row)
    (row : bed_row) (ctg_start : bound) (ctg_end : Z) (candidates_pos_set : gset Z)
    (candidates_type_dict : gmap Z string) :
  read_candidates_bed ctg_name rows
  = (ctg_start, ctg_end, candidates_pos_set, candidates_type_dict) →
  row ∈ rows → bed_ctg row = ctg_name → bed_start row + 2 ≤ bed_end row →
  bed_start row + (bed_end row - bed_start row) / 2 ∈ candidates_pos_set
  ∧ is_Some (candidates_type_dict
               !! (bed_start row + (bed_end row - bed_start row) / 2)).
Proof.
  intros Hread Hin Hc Hwide. rewrite <- center_of_eq.
  destruct (read_candidates_bed_spec ctg_name rows row Hin Hc) as (s & Heq & Hs).
  rewrite Heq in Hread. injection Hread as <- <- <- <-.
  set (st := fold_left (bed_step ctg_name) rows (mkBedState None 0 ∅ ∅)) in *.
  assert (Hpos : center_of row ∈ b_pos_set st).
  { apply bed_fold_pos. right. by exists row. }
  split.
  - apply elem_of_filter. split; [|done].
    destruct (bed_fold_start ctg_name rows (mkBedState None 0 ∅ ∅)) as (_ & Hall & _).
    destruct (Hall row Hin Hc) as (s' & Hs' & Hle). fold st in Hs'.
    rewrite Hs in Hs'. injection Hs' as <-.
    destruct (bed_fold_end ctg_name rows (mkBedState None 0 ∅ ∅)) as [_ Hend].
    specialize (Hend row Hin Hc). fold st in Hend.
    rewrite center_of_eq.
    assert (1 ≤ (bed_end row - bed_start row) / 2)
      by (apply Z.div_le_lower_bound; lia).
    assert ((bed_end row - bed_start row) / 2 ≤ bed_end row - bed_start row)
      by (apply Z.div_le_upper_bound; lia).
    lia.
  - apply elem_of_dom. unfold st. rewrite bed_fold_dom; [done|].
    cbn [b_type_dict b_pos_set]. by rewrite dom_empty_L.
Qed.

(** What the candidate set holds: every candidate is the center of a row
    of the contig, lies within [[ctg_start, ctg_end]], and has the variant
    type of a row with this center; [ctg_start] is the least start (plus
    one) of the rows of the contig and [ctg_end] is at least the end (plus
    one) of each of them. *)
Theorem candidates_come_from_rows (ctg_name : string) (rows : list bed_row)
    (ctg_start : bound) (ctg_end : Z) (candidates_pos_set : gset Z)
    (candidates_type_dict : gmap Z string) (x : Z) :
  read_candidates_bed ctg_name rows
  = (ctg_start, ctg_end, candidates_pos_set, candidates_type_dict) →
  x ∈ candidates_pos_set →
  ∃ (s : Z) (row lowest : bed_row),
    ctg_start = BInt s ∧ s ≤ x ≤ ctg_end
    ∧ row ∈ rows ∧ bed_ctg row = ctg_name ∧ center_of row = x
    ∧ candidates_type_dict !! x = Some (variant_type_of row)
    ∧ lowest ∈ rows ∧ bed_ctg lowest = ctg_name ∧ s = bed_start lowest + 1
    ∧ ∀ r, r ∈ rows → bed_ctg r = ctg_name →
           s ≤ bed_start r + 1 ∧ bed_end r + 1 ≤ ctg_end.
Proof.
  unfold read_candidates_bed.
  set (st := fold_left (bed_step ctg_name) rows (mkBedState None 0 ∅ ∅)).
  destruct (b_ctg_start st) as [s|] eqn:Es; intros [= <- <- <- <-] Hx;
    apply elem_of_filter in Hx as [Hrange Hx]; [|done].
  assert (Hdom : dom (b_type_dict st) = b_pos_set st).
  { unfold st. rewrite bed_fold_dom; [done|].
    cbn [b_type_dict b_pos_set]. by rewrite dom_empty_L. }
  assert (Ht : is_Some (b_type_dict st !! x)) by (apply elem_of_dom; by rewrite Hdom).
  destruct Ht as [t Ht].
  destruct (bed_fold_types ctg_name rows _ x t Ht)
    as [Hinit|(row & Hin & Hc & Hcen & Hvt)]; [cbn [b_type_dict] in Hinit; by rewrite lookup_empty in Hinit|].
  destruct (bed_fold_start ctg_name rows (mkBedState None 0 ∅ ∅)) as (_ & Hall & Hatt).
  destruct (Hatt s Es) as [Hinit|(lowest & Hlin & Hlc & Hls)]; [done|].
  destruct (bed_fold_end ctg_name rows (mkBedState None 0 ∅ ∅)) as [_ Hend].
  exists s, row, lowest. split_and!; try done; try lia.
  - by rewrite Hvt.
  - intros r Hr Hrc. destruct (Hall r Hr Hrc) as (s' & Hs' & Hle).
    fold st in Hs'. rewrite Es in Hs'. injection Hs' as <-.
    split; [done|]. by apply Hend.
Qed.

(** A row of the contig that spans one position or none and has the least
    start among the rows of the contig gives no candidate: its center is
    its start, one below [ctg_start], and the range filter removes it.  Its
    variant type stays in [candidates_type_dict]. *)
Theorem lowest_narrow_row_gives_none (ctg_name : string) (rows : list bed_row)
    (row : bed_row) (ctg_start : bound) (ctg_end : Z) (candidates_pos_set : gset Z)
    (candidates_type_dict : gmap Z string) :
  read_candidates_bed ctg_name rows
  = (ctg_start, ctg_end, candidates_pos_set, candidates_type_dict) →
  row ∈ rows → bed_ctg row = ctg_name →
  (∀ r, r ∈ rows → bed_ctg r = ctg_name → bed_start row ≤ bed_start r) →
  bed_start row ≤ bed_end row ≤ bed_start row + 1 →
  ctg_start = BInt (bed_start row + 1)
  ∧ center_of row = bed_start row
  ∧ (bed_start row ∉ candidates_pos_set)
  ∧ is_Some (candidates_type_dict !! bed_start row).
Proof.
  intros Hread Hin Hc Hlow Hnarrow.
  destruct (read_candidates_bed_spec ctg_name rows row Hin Hc) as (s & Heq & Hs).
  rewrite Heq in Hread. injection Hread as <- <- <- <-.
  set (st := fold_left (bed_step ctg_name) rows (mkBedState None 0 ∅ ∅)) in *.
  destruct (bed_fold_start ctg_name rows (mkBedState None 0 ∅ ∅)) as (_ & Hall & Hatt).
  destruct (Hall row Hin Hc) as (s' & Hs' & Hle). fold st in Hs'.
  rewrite Hs in Hs'. injection Hs' as <-.
  destruct (Hatt s Hs) as [Hinit|(lowest & Hlin & Hlc & Hls)]; [done|].
  specialize (Hlow lowest Hlin Hlc).
  assert (Hseq : s = bed_start row + 1) by lia.
  assert (Hcen : center_of row = bed_start row).
  { rewrite center_of_eq.
    assert ((bed_end row - bed_start row) / 2 = 0)
      by (apply Z.div_small; lia).
    lia. }
  split_and!.
  - by rewrite Hseq.
  - done.
  - intros [Hrange _]%elem_of_filter. lia.
  - rewrite <- Hcen. apply elem_of_dom. unfold st. rewrite bed_fold_dom.
    + apply bed_fold_pos. right. by exists row.
    + cbn [b_type_dict b_pos_set]. by rewrite dom_empty_L.
Qed.

(** A BED without a row of the contig leaves [ctg_start] at
    [float('inf')], [ctg_end] at 0 and both the candidate set and the type
    dictionary empty. *)
Theorem bed_without_contig_rows (ctg_name : string) (rows : list bed_row) :
  (∀ r, r ∈ rows → bed_ctg r ≠ ctg_name) →
  read_candidates_bed ctg_name rows = (BInf, 0, ∅, ∅).
Proof.
  intros Hall. unfold read_candidates_bed. rewrite bed_fold_none by done.
  cbn [b_ctg_start b_ctg_end b_pos_set b_type_dict]. by f_equal.
Qed.

(** The chunks of the whole-genome branch cover the contig: with
    [chunk_num] positive, every position from 0 to [contig_length] lies in
    the range [[ctg_start, ctg_end]] of one of the chunks 0 to
    [chunk_num - 1]. *)
Theorem chunks_cover_contig (contig_length chunk_num p : Z) :
  0 < chunk_num → 0 ≤ p ≤ contig_length →
  ∃ chunk_id ctg_start ctg_end,
    0 ≤ chunk_id < chunk_num
    ∧ chunk_range chunk_id contig_length chunk_num = Some (ctg_start, ctg_end)
    ∧ ctg_start ≤ p ≤ ctg_end.
Proof.
  intros Hn Hp. unfold chunk_range, chunk_size.
  destruct (chunk_num =? 0) eqn:En; [lia|]. cbn [mbind option_bind].
  set (size := if negb (contig_length mod chunk_num =? 0)
               then contig_length / chunk_num + 1 else contig_length / chunk_num).
  assert (Hsize : contig_length ≤ size * chunk_num ∧ 0 ≤ size).
  { unfold size. pose proof (Z.div_mod contig_length chunk_num ltac:(lia)) as Hdm.
    pose proof (Z.mod_pos_bound contig_length chunk_num Hn) as Hmb.
    assert (0 ≤ contig_length / chunk_num) by (apply Z.div_pos; lia).
    destruct (contig_length mod chunk_num =? 0) eqn:Em; cbn [negb]; nia. }
  destruct Hsize as [Hcover Hnn].
  destruct (decide (size = 0)) as [Hz|Hz].
  - exists 0, (size * 0), (size * 0 + size). split; [lia|]. split; [done|nia].
  - set (k := Z.min (p / size) (chunk_num - 1)).
    assert (Hk : 0 ≤ p / size) by (apply Z.div_pos; lia).
    pose proof (Z.div_mod p size Hz) as Hdm.
    pose proof (Z.mod_pos_bound p size ltac:(lia)) as Hmb.
    exists k, (size * k), (size * k + size). split; [unfold k; lia|].
    split; [done|].
    unfold k. destruct (Z.min_spec (p / size) (chunk_num - 1)) as [[Hlt ->]|[Hge ->]].
    + nia.
    + nia.
Qed.

(** A contig that the [.fai] file does not name gets the length 0, and
    every chunk the empty range [[0, 0]]: nothing is raised. *)
Theorem unknown_contig_empty_chunk (ctg_name : string) (fai : list (string * Z))
    (chunk_id chunk_num : Z) :
  (∀ columns, columns ∈ fai → columns.1 ≠ ctg_name) → chunk_num ≠ 0 →
  chunk_range chunk_id (contig_length_of ctg_name fai) chunk_num = Some (0, 0).
Proof.
  intros Hall Hn. unfold contig_length_of.
  assert (Hlen : ∀ len, fold_left
            (λ contig_length (columns : string * Z),
               if negb (String.eqb columns.1 ctg_name) then contig_length
               else columns.2) fai len = len).
  { induction fai as [|c fai IH]; intros len; [done|]. simpl.
    assert (Hc : c.1 ≠ ctg_name) by (apply Hall; by left).
    apply String.eqb_neq in Hc. rewrite Hc. cbn [negb]. apply IH.
    intros c' Hc'. apply Hall. by right. }
  rewrite Hlen. unfold chunk_range, chunk_size.
  apply Z.eqb_neq in Hn. rewrite Hn. cbn [mbind option_bind].
  rewrite Z.mod_0_l by (by apply Z.eqb_neq). rewrite Z.eqb_refl. cbn [negb].
  rewrite Z.div_0_l by (by apply Z.eqb_neq). f_equal.
Qed.

(** The list of known variants: the positions of the data lines of the
    contig (of every data line when no contig name or an empty one is
    given), each once, in strictly increasing order; header lines
    contribute nothing. *)
Theorem known_variants_sorted_distinct (rows : list known_row)
    (contig_name : option string) :
  StronglySorted Z.lt (vcf_candidates_from rows contig_name)
  ∧ ∀ pos,
      pos ∈ vcf_candidates_from rows contig_name
      ↔ ∃ ctg, KnownData ctg pos ∈ rows
               ∧ (contig_name = None ∨ contig_name = Some EmptyString
                  ∨ contig_name = Some ctg).
Proof.
  unfold vcf_candidates_from.
  set (step := λ (known_variants_set : gset Z) (row : known_row),
                 match row with
                 | KnownHeader => known_variants_set
                 | KnownData ctg_name center_pos =>
                     if other_known_contig contig_name ctg_name
                     then known_variants_set
                     else {[center_pos]} ∪ known_variants_set
                 end).
  assert (Hother : ∀ ctg, other_known_contig contig_name ctg = false
                          ↔ contig_name = None ∨ contig_name = Some EmptyString
                            ∨ contig_name = Some ctg).
  { intros ctg. unfold other_known_contig. destruct contig_name as [c|]; [|by intuition].
    destruct (String.eqb_spec c "") as [->|Hc]; cbn [negb andb].
    - split; [by intuition|done].
    - destruct (String.eqb_spec ctg c) as [->|Hne]; cbn [negb].
      + split; [by intuition|done].
      + split; [done|]. intros [?|[[= ?]|[= ?]]]; done. }
  assert (Hfold : ∀ s pos,
            pos ∈ fold_left step rows s
            ↔ pos ∈ s ∨ ∃ ctg, KnownData ctg pos ∈ rows
                               ∧ other_known_contig contig_name ctg = false).
  { induction rows as [|r rows IH]; intros s pos; cbn [fold_left].
    - split; [by left|]. intros [?|(ctg & ?%elem_of_nil & _)]; done.
    - rewrite IH. split.
      + intros [Hs|(ctg & Hin & Ho)].
        * destruct r as [|ctg c]; cbn [step] in Hs; [by left|].
          destruct (other_known_contig contig_name ctg) eqn:Eo; [by left|].
          apply elem_of_union in Hs as [->%elem_of_singleton|Hs]; [|by left].
          right. exists ctg. split; [by left|done].
        * right. exists ctg. split; [by right|done].
      + intros [Hs|(ctg & [<-|Hin]%elem_of_cons & Ho)].
        * left. destruct r as [|ctg c]; cbn [step]; [done|].
          destruct (other_known_contig contig_name ctg); [done|].
          apply elem_of_union. by right.
        * left. cbn [step]. rewrite Ho. apply elem_of_union. left.
          by apply elem_of_singleton.
        * right. by exists ctg. }
  split.
  - assert (Hs : StronglySorted Z.le
                   (merge_sort (≤) (elements (fold_left step rows ∅)))).
    { apply StronglySorted_merge_sort; apply _. }
    assert (Hnd : NoDup (merge_sort (≤) (elements (fold_left step rows ∅)))).
    { rewrite merge_sort_Permutation. apply NoDup_elements. }
    induction Hs as [|x l Hs IH Hall]; [constructor|].
    apply NoDup_cons in Hnd as [Hx Hnd]. constructor; [by apply IH|].
    rewrite Forall_forall in Hall |- *. intros y Hy. specialize (Hall y Hy).
    destruct (decide (x = y)) as [->|]; [done|lia].
  - intros pos. rewrite merge_sort_Permutation, elem_of_elements, Hfold. split.
    + intros [?%not_elem_of_empty|(ctg & Hin & Ho)]; [done|].
      exists ctg. split; [done|]. by apply Hother.
    + intros (ctg & Hin & Ho). right. exists ctg. split; [done|]. by apply Hother.
Qed.

Lemma slice_app_mid (pre mid post : string) :
  slice (pre ++ mid ++ post) (Z.of_nat (String.length pre))
    (Z.of_nat (String.length pre) + Z.of_nat (String.length mid)) = mid.
Proof.
  unfold slice, clamp. rewrite !ParseFacts.string_length_app.
  rewrite !(proj2 (Z.ltb_ge _ 0)) by lia.
  rewrite Z.max_r, Z.min_r by lia. rewrite Z.max_r, Z.min_r by lia.
  rewrite Nat2Z.id.
  replace (Z.to_nat (Z.of_nat (String.length pre) + Z.of_nat (String.length mid)))
    with (String.length pre + String.length mid)%nat by lia.
  pose proof (ParseFacts.slice_nat_drop pre (mid ++ post) 0 (String.length mid)) as H.
  rewrite Nat.add_0_r in H. rewrite H. unfold slice_nat. rewrite Nat.sub_0_r.
  apply ParseFacts.substring_app_l.
Qed.

(** [update_hetero_ref] on a window that lies within the reference
    sequence: [ref_seq] is the [extend_bp] bases before [pos], the base at
    [pos] and the [extend_bp] bases after it, and [alt_seq] is [ref_seq]
    with the base at [pos] replaced by [alt_base]. *)
Theorem update_hetero_ref_replaces_center (pos : Z) (reference_start extend_bp : Z)
    (alt_base : string) (pre before after post : string) (c : ascii) :
  Z.of_nat (String.length pre) = pos - extend_bp - reference_start →
  Z.of_nat (String.length before) = extend_bp →
  Z.of_nat (String.length after) = extend_bp →
  update_hetero_ref pos (pre ++ (before ++ String c after) ++ post)
    reference_start extend_bp alt_base
  = ((before ++ String c after)%string, (before ++ alt_base ++ after)%string).
Proof.
  intros Hpre Hb Ha. unfold update_hetero_ref. cbv zeta.
  assert (Hlen : Z.of_nat (String.length (before ++ String c after))
                 = 2 * extend_bp + 1).
  { rewrite ParseFacts.string_length_app. cbn [String.length]. lia. }
  replace (pos - extend_bp - reference_start) with (Z.of_nat (String.length pre))
    by lia.
  replace (pos + extend_bp + 1 - reference_start)
    with (Z.of_nat (String.length pre)
          + Z.of_nat (String.length (before ++ String c after))) by lia.
  rewrite slice_app_mid. f_equal. f_equal.
  - pose proof (slice_app_mid EmptyString before (String c after)) as H.
    rewrite append_nil_l in H. cbn [String.length] in H.
    rewrite Z.add_0_l in H. by rewrite <- Hb.
  - f_equal.
    pose proof (slice_app_mid (before ++ String c EmptyString) after EmptyString) as H.
    rewrite string_app_nil_r in H.
    rewrite string_app_assoc, append_cons, append_nil_l in H.
    rewrite ParseFacts.string_length_app in H. cbn [String.length] in H.
    rewrite ParseFacts.string_length_app. cbn [String.length].
    replace (extend_bp + 1)
      with (Z.of_nat (String.length before + 1)) by lia.
    replace (Z.of_nat (String.length before + S (String.length after)))
      with (Z.of_nat (String.length before + 1) + Z.of_nat (String.length after))
      by lia.
    exact H.
Qed.

Lemma wide_row_gives_candidate_witness :
  ∃ ctg_start ctg_end candidates_pos_set candidates_type_dict,
    read_candidates_bed "chr1"
      [mkBedRow "chr1" 99 101 ["snv"%string]; mkBedRow "chr2" 5 7 [];
       mkBedRow "chr1" 40 43 []]
    = (ctg_start, ctg_end, candidates_pos_set, candidates_type_dict)
    ∧ 41 ∈ candidates_pos_set ∧ is_Some (candidates_type_dict !! 41).
Proof.
  eexists _, _, _, _. split; [reflexivity|].
  apply (wide_row_gives_candidate "chr1"
           [mkBedRow "chr1" 99 101 ["snv"%string]; mkBedRow "chr2" 5 7 [];
            mkBedRow "chr1" 40 43 []]
           (mkBedRow "chr1" 40 43 []) _ _ _ _ eq_refl).
  - repeat constructor.
  - reflexivity.
  - simpl. lia.
Defined.

Lemma candidates_come_from_rows_witness :
  ∃ ctg_start ctg_end candidates_pos_set candidates_type_dict,
    read_candidates_bed "chr1"
      [mkBedRow "chr1" 99 101 ["snv"%string]; mkBedRow "chr2" 5 7 [];
       mkBedRow "chr1" 40 43 []]
    = (ctg_start, ctg_end, candidates_pos_set, candidates_type_dict)
    ∧ 100 ∈ candidates_pos_set
    ∧ ∃ (s : Z) (row lowest : bed_row),
        ctg_start = BInt s ∧ s ≤ 100 ≤ ctg_end
        ∧ row ∈ [mkBedRow "chr1" 99 101 ["snv"%string]; mkBedRow "chr2" 5 7 [];
                 mkBedRow "chr1" 40 43 []]
        ∧ bed_ctg row = "chr1"%string ∧ center_of row = 100
        ∧ candidates_type_dict !! 100 = Some (variant_type_of row)
        ∧ lowest ∈ [mkBedRow "chr1" 99 101 ["snv"%string]; mkBedRow "chr2" 5 7 [];
                    mkBedRow "chr1" 40 43 []]
        ∧ bed_ctg lowest = "chr1"%string ∧ s = bed_start lowest + 1
        ∧ ∀ r, r ∈ [mkBedRow "chr1" 99 101 ["snv"%string]; mkBedRow "chr2" 5 7 [];
                    mkBedRow "chr1" 40 43 []] →
               bed_ctg r = "chr1"%string →
               s ≤ bed_start r + 1 ∧ bed_end r + 1 ≤ ctg_end.
Proof.
  eexists _, _, _, _. split; [reflexivity|].
  assert (Hx : 100 ∈ filter (λ item : Z, 41 ≤ item ∧ item ≤ 102)
                        ({[40]} ∪ ({[100]} ∪ ∅) : gset Z)).
  { apply elem_of_filter. split; [lia|]. set_solver. }
  split; [exact Hx|].
  exact (candidates_come_from_rows "chr1"
           [mkBedRow "chr1" 99 101 ["snv"%string]; mkBedRow "chr2" 5 7 [];
            mkBedRow "chr1" 40 43 []] _ _ _ _ 100 eq_refl Hx).
Defined.

Lemma lowest_narrow_row_gives_none_witness :
  ∃ ctg_start ctg_end candidates_pos_set candidates_type_dict,
    read_candidates_bed "chr1"
      [mkBedRow "chr1" 99 101 []; mkBedRow "chr1" 40 41 ["indel"%string]]
    = (ctg_start, ctg_end, candidates_pos_set, candidates_type_dict)
    ∧ ctg_start = BInt 41
    ∧ (40 ∉ candidates_pos_set)
    ∧ is_Some (candidates_type_dict !! 40).
Proof.
  eexists _, _, _, _. split; [reflexivity|].
  pose proof (lowest_narrow_row_gives_none "chr1"
                [mkBedRow "chr1" 99 101 []; mkBedRow "chr1" 40 41 ["indel"%string]]
                (mkBedRow "chr1" 40 41 ["indel"%string]) _ _ _ _ eq_refl) as H.
  destruct H as (H1 & _ & H3 & H4).
  - repeat constructor.
  - reflexivity.
  - intros r [->|[->|?%elem_of_nil]%elem_of_cons]%elem_of_cons _; simpl; [lia|lia|done].
  - simpl. lia.
  - split; [exact H1|]. split; [exact H3|exact H4].
Defined.

Lemma bed_without_contig_rows_witness :
  read_candidates_bed "chrX" [mkBedRow "chr1" 99 101 []; mkBedRow "chr2" 5 7 []]
  = (BInf, 0, ∅, ∅).
Proof.
  apply bed_without_contig_rows.
  intros r [->|[->|?%elem_of_nil]%elem_of_cons]%elem_of_cons; [done|done|done].
Defined.

Lemma chunks_cover_contig_witness :
  ∃ chunk_id ctg_start ctg_end,
    0 ≤ chunk_id < 3
    ∧ chunk_range chunk_id 10 3 = Some (ctg_start, ctg_end)
    ∧ ctg_start ≤ 9 ≤ ctg_end.
Proof. apply (chunks_cover_contig 10 3 9); lia. Defined.

Lemma unknown_contig_empty_chunk_witness :
  chunk_range 2 (contig_length_of "chrX" [("chr1"%string, 1000); ("chr2"%string, 900)]) 4
  = Some (0, 0).
Proof.
  apply unknown_contig_empty_chunk; [|lia].
  intros c [->|[->|?%elem_of_nil]%elem_of_cons]%elem_of_cons; [done|done|done].
Defined.

Lemma update_hetero_ref_replaces_center_witness :
  update_hetero_ref 105 "TTACGTGCAGG" 101 2 "A"
  = ("ACGTG"%string, "ACATG"%string).
Proof.
  apply (update_hetero_ref_replaces_center 105 101 2 "A" "TT" "AC" "TG" "CAGG" "G");
    reflexivity.
Defined.

End SetupFacts.

(** * Read ordering without subsampling *)

Module OrderingAll.
Import Py PyFacts Tensor.

#[local] Existing Instance OrderingFacts.entry_le_total.

#[local] Instance entry_le_trans : Transitive entry_le.
Proof.
  intros [[h1 o1] n1] [[h2 o2] n2] [[h3 o3] n3]. unfold entry_le; simpl.
  intros [?|[? ?]] [?|[? ?]]; [left; lia..|right; split; lia].
Qed.

Section All.
Context {F G : Type} `{PyRandom G} (P : param F).

(** When the distinct read names of the window do not outnumber
    [max_depth], or tensor-sample mode is on, the ordering keeps every
    read and leaves the random generator as it found it: the list holds
    each distinct name of the window exactly once, with its rank of
    first appearance and the larger of its two haplotype tags, sorted by
    haplotype and then by rank. *)
Theorem ordering_keeps_every_read (g : G) (center_pos : Z)
    (haplotag_dict : gmap string Z) (pileup_dict : gmap Z (Position F))
    (hap_dict : gmap string Z) (max_depth : Z) (use_tensor_sample_mode : bool) :
  let U := fromkeys (nearby_read_names P center_pos pileup_dict) in
  Z.of_nat (length U) ≤ max_depth ∨ use_tensor_sample_mode = true →
  ∃ l : list read_entry,
    sorted_by_hap_read_name P g center_pos haplotag_dict pileup_dict hap_dict
      max_depth use_tensor_sample_mode = Ok (l, g)
    ∧ map (λ e : read_entry, e.2) l ≡ₚ U
    ∧ StronglySorted entry_le l
    ∧ ∀ (hap : Z) (order : nat) (read_name : string),
        (hap, order, read_name) ∈ l
        ↔ U !! order = Some read_name
          ∧ hap = Z.max (default 0 (haplotag_dict !! read_name))
                        (default 0 (hap_dict !! read_name)).
Proof.
  intros U Hall. unfold sorted_by_hap_read_name. fold U.
  replace ((max_depth <? Z.of_nat (length U)) && negb use_tensor_sample_mode)
    with false.
  2:{ destruct Hall as [Hle| ->]; [|by rewrite andb_false_r].
      by rewrite (proj2 (Z.ltb_ge _ _)). }
  cbn [mbind result_bind bind].
  set (entries := imap (λ (order : nat) (read_name : string),
                          (Z.max (default 0 (haplotag_dict !! read_name))
                                 (default 0 (hap_dict !! read_name)),
                           order, read_name)) U).
  exists (merge_sort entry_le entries). split_and!.
  - done.
  - change (((λ e : read_entry, e.2) <$> merge_sort entry_le entries) ≡ₚ U).
    rewrite merge_sort_Permutation.
    replace ((λ e : read_entry, e.2) <$> entries) with U; [done|].
    apply list_eq. intros i. unfold entries.
    rewrite list_lookup_fmap, list_lookup_imap. by destruct (U !! i).
  - apply StronglySorted_merge_sort; apply _.
  - intros hap order read_name. rewrite merge_sort_Permutation. unfold entries.
    rewrite elem_of_lookup_imap. split.
    + intros (i & x & [= -> -> ->] & Hx). done.
    + intros [Hx ->]. by exists order, read_name.
Qed.
End All.

Import Examples.

Lemma ordering_keeps_every_read_witness :
  ∃ l : list read_entry,
    sorted_by_hap_read_name ex_param 5%nat 10 {["n2"%string := 2]}
      (ex_window false ex_normal_rows 12) ∅ 2 true = Ok (l, 5%nat)
    ∧ map (λ e : read_entry, e.2) l
      ≡ₚ fromkeys (nearby_read_names ex_param 10 (ex_window false ex_normal_rows 12))
    ∧ StronglySorted entry_le l
    ∧ ∀ (hap : Z) (order : nat) (read_name : string),
        (hap, order, read_name) ∈ l
        ↔ fromkeys (nearby_read_names ex_param 10 (ex_window false ex_normal_rows 12))
            !! order = Some read_name
          ∧ hap = Z.max (default 0 (({["n2"%string := 2]} : gmap string Z) !! read_name))
                        (default 0 ((∅ : gmap string Z) !! read_name)).
Proof.
  apply (ordering_keeps_every_read (G := nat) ex_param 5%nat 10 {["n2"%string := 2]}
           (ex_window false ex_normal_rows 12) ∅ 2 true).
  by right.
Defined.

End OrderingAll.

(** * The candidate generator: how long a stored position is kept *)

Module WindowFacts.
Import Py PyFacts Tensor TensorFacts Decode DecodeFacts Generator GeneratorFacts.

Section Window.
Context {F : Type} `{PyFloat F} (P : param F) (E : env F).

(** A pileup line touches no window entry but its own. *)
Lemma process_row_keeps (is_tumor phasing_info_in_bam : bool) (st : gstate F)
    (r : row) (o : outcome F) (p : Z) :
  process_row P E is_tumor phasing_info_in_bam st r = Ok o → row_pos r ≠ p →
  pileup_dict (state_of o) !! p = pileup_dict st !! p.
Proof.
  intros Hp Hne.
  apply process_row_Ok in Hp
    as [(st' & -> & _ & _ & Hd)|(bl & depth & pass_af & names & Hs)].
  { simpl. by rewrite Hd. }
  destruct Hs as (c0 & af & hd & a1 & _ & _ & _ & _ & _ & Hout). cbv zeta in Hout.
  destruct Hout as [[-> _]|(c & -> & _ & _)]; simpl; by rewrite lookup_insert_ne.
Qed.

Lemma resume_lookup (st : gstate F) (c p : Z) :
  pileup_dict (resume P st c) !! p
  = if bool_decide (extend_bp_distance P < c - p) then None else pileup_dict st !! p.
Proof.
  unfold resume. cbn [pileup_dict]. rewrite trim_lookup.
  apply (f_equal (λ b : bool, if b then None else pileup_dict st !! p)).
  apply bool_decide_ext. lia.
Qed.

Lemma passed_cons (d : option (Position F)) (c p : Z) (ys : list Z) :
  (if bool_decide (Exists (λ c, extend_bp_distance P < c - p) ys) then None
   else if bool_decide (extend_bp_distance P < c - p) then None else d)
  = if bool_decide (Exists (λ c, extend_bp_distance P < c - p) (c :: ys)) then None
    else d.
Proof.
  repeat case_bool_decide; try done.
  - exfalso. match goal with H : ¬ Exists _ (_ :: _) |- _ => apply H end.
    by apply Exists_cons_tl.
  - exfalso. match goal with H : ¬ Exists _ (_ :: _) |- _ => apply H end.
    by apply Exists_cons_hd.
  - exfalso. match goal with H : Exists _ (_ :: _) |- _ =>
               apply Exists_cons in H as [?|?] end; done.
Qed.

(** The loop over the lines: an entry that no line overwrites is removed
    when a candidate more than the distance above it has been yielded,
    and is unchanged otherwise. *)
Lemma feed_lookup (is_tumor phasing_info_in_bam : bool) (rows : list row) :
  ∀ (st st' : gstate F) (ys : list Z) (p : Z),
    feed P E is_tumor phasing_info_in_bam st rows = (ys, Ok st') →
    Forall (λ r, row_pos r ≠ p) rows →
    pileup_dict st' !! p
    = if bool_decide (Exists (λ c, extend_bp_distance P < c - p) ys) then None
      else pileup_dict st !! p.
Proof.
  induction rows as [|r rows IH]; intros st st' ys p Hf Hall; cbn [feed] in Hf.
  - injection Hf as <- <-. rewrite bool_decide_eq_false_2; [done|].
    by intros ?%Exists_nil.
  - apply Forall_cons in Hall as [Hr Hall].
    destruct (process_row P E is_tumor phasing_info_in_bam st r) as [o|e] eqn:Ep;
      [|done].
    pose proof (process_row_keeps _ _ _ _ _ p Ep Hr) as Hk.
    destruct o as [s1|s1|s1 c]; cbn [state_of] in Hk.
    + rewrite (IH _ _ _ _ Hf Hall). by rewrite Hk.
    + rewrite (IH _ _ _ _ Hf Hall). by rewrite Hk.
    + destruct (feed P E is_tumor phasing_info_in_bam (resume P s1 c) rows)
        as [ys' res] eqn:Ef.
      injection Hf as <- ->. rewrite (IH _ _ _ _ Ef Hall).
      rewrite resume_lookup, Hk. apply passed_cons.
Qed.

(** The final loop, in the same terms. *)
Lemma flush_lookup (p : Z) (n : nat) : ∀ st : gstate F,
  pileup_dict (flush P n st).2 !! p
  = if bool_decide (Exists (λ c, extend_bp_distance P < c - p) (flush P n st).1)
    then None
    else pileup_dict st !! p.
Proof.
  induction n as [|n IH]; intros st; cbn [flush].
  - cbn [fst snd]. rewrite bool_decide_eq_false_2; [done|]. by intros ?%Exists_nil.
  - destruct (candidate_pos_list st !! current_pos_index st) as [c|].
    + specialize (IH (resume P st c)).
      destruct (flush P n (resume P st c)) as [ys st'']. cbn [fst snd] in *.
      rewrite IH, resume_lookup. apply passed_cons.
    + cbn [fst snd]. rewrite bool_decide_eq_false_2; [done|]. by intros ?%Exists_nil.
Qed.

(** The window is a sliding one.  Over a whole run of the generator, an
    entry of [pileup_dict] that no later line overwrites stays as it is
    as long as every candidate yielded lies at most [extend_bp_distance]
    above its position, and is gone once a candidate further above has
    been yielded. *)
Theorem window_kept_until_passed (is_tumor phasing_info_in_bam : bool)
    (st st' : gstate F) (rows : list row) (ys : list Z) (p : Z) :
  run P E is_tumor phasing_info_in_bam st rows = (ys, Ok st') →
  Forall (λ r, row_pos r ≠ p) rows →
  ((∀ c, c ∈ ys → c - p ≤ extend_bp_distance P) →
   pileup_dict st' !! p = pileup_dict st !! p)
  ∧ ((∃ c, c ∈ ys ∧ extend_bp_distance P < c - p) →
     pileup_dict st' !! p = None).
Proof.
  unfold run. intros Hrun Hall.
  destruct (feed P E is_tumor phasing_info_in_bam st rows) as [ys1 [st1|e]] eqn:Ef;
    [|done].
  pose proof (feed_lookup _ _ _ _ _ _ p Ef Hall) as H1.
  pose proof (flush_lookup p
                (length (candidate_pos_list st1) - current_pos_index st1) st1) as H2.
  destruct (flush P _ st1) as [zs st2]. cbn [fst snd] in H2.
  injection Hrun as <- <-. rewrite H2, H1. split.
  - intros Hle.
    rewrite !bool_decide_eq_false_2; [done| |].
    + intros (c & Hc & Hlt)%Exists_exists.
      specialize (Hle c ltac:(apply elem_of_app; by left)). lia.
    + intros (c & Hc & Hlt)%Exists_exists.
      specialize (Hle c ltac:(apply elem_of_app; by right)). lia.
  - intros (c & [Hc|Hc]%elem_of_app & Hlt).
    + rewrite (bool_decide_eq_true_2 (Exists _ ys1)); [by case_bool_decide|].
      apply Exists_exists. by exists c.
    + rewrite (bool_decide_eq_true_2 (Exists _ zs)); [done|].
      apply Exists_exists. by exists c.
Qed.

End Window.

Import Examples.

Lemma window_kept_until_passed_witness :
  ∃ st',
    run ex_param ex_env true false
      (start ex_env {[2 := mkPosition 2 "A" [] [] "" "" 0%Q None false ∅;
                      5 := mkPosition 5 "C" [] [] "" "" 0%Q None false ∅]} ∅)
      ex_tumor_rows = ([10], Ok st')
    ∧ pileup_dict st' !! 5 = Some (mkPosition 5 "C" [] [] "" "" 0%Q None false ∅)
    ∧ pileup_dict st' !! 2 = None.
Proof.
  eexists.
  assert (Hrun : run ex_param ex_env true false
            (start ex_env {[2 := mkPosition 2 "A" [] [] "" "" 0%Q None false ∅;
                            5 := mkPosition 5 "C" [] [] "" "" 0%Q None false ∅]} ∅)
            ex_tumor_rows = ([10], Ok _)) by (vm_compute; reflexivity).
  split; [exact Hrun|]. split.
  - rewrite (proj1 (window_kept_until_passed ex_param ex_env true false _ _
                      ex_tumor_rows [10] 5 Hrun
                      ltac:(repeat (constructor; [discriminate|]); constructor))).
    + reflexivity.
    + intros c ->%list_elem_of_singleton. vm_compute. discriminate.
  - apply (proj2 (window_kept_until_passed ex_param ex_env true false _ _
                    ex_tumor_rows [10] 2 Hrun
                    ltac:(repeat (constructor; [discriminate|]); constructor))).
    exists 10. split; [by apply list_elem_of_singleton|]. vm_compute. reflexivity.
Defined.


End WindowFacts.

(** * [FilterRef.py]: the reference candidates written by [cal_homo] *)

Module FilterRefFacts.
Import Py PyFacts FilterRef.

Lemma length_filter_cons {A : Type} (P : A → Prop) `{∀ x, Decision (P x)} (x : A)
    (l : list A) :
  Z.of_nat (length (filter P (x :: l)))
  = (if bool_decide (P x) then 1 else 0) + Z.of_nat (length (filter P l)).
Proof.
  rewrite filter_cons. case_bool_decide; destruct (decide (P x)); simpl; try lia; done.
Qed.

Lemma map_filter_cons {A B : Type} (f : A → B) (P : A → Prop) `{∀ x, Decision (P x)}
    (x : A) (l : list A) :
  map f (filter P (x :: l))
  = (if bool_decide (P x) then [f x] else []) ++ map f (filter P l).
Proof.
  rewrite filter_cons. case_bool_decide; destruct (decide (P x)); simpl; done.
Qed.

(** Counting the members of a list without repetitions that lists a set. *)
Lemma count_size (X : gset Z) (P : Z → Prop) `{∀ x, Decision (P x)} (l : list Z) :
  NoDup l → (∀ x, x ∈ l ↔ x ∈ X) →
  length (filter P l) = size (filter P X).
Proof.
  intros Hnd Hl. unfold size, set_size. simpl. apply Permutation_length.
  apply NoDup_Permutation.
  - by apply NoDup_filter.
  - apply NoDup_elements.
  - intros x. rewrite list_elem_of_filter, elem_of_elements, elem_of_filter, Hl. done.
Qed.

Lemma StronglySorted_lt_filter (P : Z → Prop) `{∀ x, Decision (P x)} (l : list Z) :
  StronglySorted Z.lt l → StronglySorted Z.lt (filter P l).
Proof.
  induction 1 as [|x l Hs IH Hall]; [constructor|].
  rewrite filter_cons. destruct (decide (P x)); [|done].
  constructor; [done|]. rewrite Forall_forall in Hall |- *.
  intros y [_ Hy]%list_elem_of_filter. by apply Hall.
Qed.

Section Loop.
Variables (tumor_sample contig_name : string) (add_truths : bool).
Variables (normal_unified_variant_dict unified_variant_dict : gset Z).

(** One pass of the loop body, counter by counter. *)
Lemma cal_homo_step_fields (st : homo_state) (pos : Z) :
  let st' := cal_homo_step tumor_sample contig_name add_truths
               normal_unified_variant_dict unified_variant_dict st pos in
  reference_cans st'
  = reference_cans st
    ++ (if bool_decide (pos ∉ unified_variant_dict ∨ add_truths = true)
        then [cans_line tumor_sample contig_name pos] else [])
  ∧ match_count st'
    = match_count st
      + (if bool_decide (pos ∉ unified_variant_dict ∨ add_truths = true)
         then 1 else 0)
  ∧ pos_in_normal_truth st'
    = pos_in_normal_truth st
      + (if bool_decide (pos ∈ normal_unified_variant_dict) then 1 else 0)
  ∧ pos_in_normal_truth_and_tumor_truth st'
    = pos_in_normal_truth_and_tumor_truth st
      + (if bool_decide (pos ∈ normal_unified_variant_dict
                         ∧ pos ∈ unified_variant_dict) then 1 else 0)
  ∧ pos_in_tumor_truth st'
    = pos_in_tumor_truth st
      + (if bool_decide (pos ∈ unified_variant_dict) then 1 else 0)
      + (if bool_decide (pos ∈ normal_unified_variant_dict
                         ∧ pos ∈ unified_variant_dict) then 1 else 0).
Proof.
  unfold cal_homo_step.
  destruct (decide (pos ∈ normal_unified_variant_dict)) as [Hn|Hn];
    destruct (decide (pos ∈ unified_variant_dict)) as [Ht|Ht];
    destruct add_truths;
    rewrite ?(bool_decide_eq_true_2 _ Hn), ?(bool_decide_eq_false_2 _ Hn),
      ?(bool_decide_eq_true_2 _ Ht), ?(bool_decide_eq_false_2 _ Ht);
    cbn [andb negb reference_cans match_count pos_in_normal_truth
         pos_in_tumor_truth pos_in_normal_truth_and_tumor_truth];
    repeat case_bool_decide; try tauto; try (exfalso; intuition congruence);
    rewrite ?app_nil_r; split_and!; try done; lia.
Qed.

Lemma cal_homo_fold (l : list Z) : ∀ st : homo_state,
  let st' := fold_left (cal_homo_step tumor_sample contig_name add_truths
                          normal_unified_variant_dict unified_variant_dict) l st in
  reference_cans st'
  = reference_cans st
    ++ map (cans_line tumor_sample contig_name)
         (filter (λ pos, pos ∉ unified_variant_dict ∨ add_truths = true) l)
  ∧ match_count st'
    = match_count st
      + Z.of_nat (length (filter (λ pos, pos ∉ unified_variant_dict
                                         ∨ add_truths = true) l))
  ∧ pos_in_normal_truth st'
    = pos_in_normal_truth st
      + Z.of_nat (length (filter (λ pos, pos ∈ normal_unified_variant_dict) l))
  ∧ pos_in_normal_truth_and_tumor_truth st'
    = pos_in_normal_truth_and_tumor_truth st
      + Z.of_nat (length (filter (λ pos, pos ∈ normal_unified_variant_dict
                                         ∧ pos ∈ unified_variant_dict) l))
  ∧ pos_in_tumor_truth st'
    = pos_in_tumor_truth st
      + Z.of_nat (length (filter (λ pos, pos ∈ unified_variant_dict) l))
      + Z.of_nat (length (filter (λ pos, pos ∈ normal_unified_variant_dict
                                         ∧ pos ∈ unified_variant_dict) l)).
Proof.
  induction l as [|pos l IH]; intros st; cbn [fold_left].
  - cbn. rewrite app_nil_r. split_and!; [done|lia..].
  - destruct (IH (cal_homo_step tumor_sample contig_name add_truths
                    normal_unified_variant_dict unified_variant_dict st pos))
      as (I1 & I2 & I3 & I4 & I5).
    destruct (cal_homo_step_fields st pos) as (S1 & S2 & S3 & S4 & S5).
    cbv zeta in *. rewrite I1, I2, I3, I4, I5, S1, S2, S3, S4, S5.
    rewrite map_filter_cons, !length_filter_cons, <- List.app_assoc.
    split_and!; [done|lia..].
Qed.

(** What [cal_homo] writes and counts.  The file holds one line for each
    tumor position that is no truth variant (for every tumor position
    when [add_truths] is set), in strictly increasing order of position;
    the normal positions play no part.  [match_count] is the number of
    lines.  A position that is a truth variant of both samples is
    counted twice in [pos_in_tumor_truth]. *)
Theorem cal_homo_lines_and_counts (tumor_pos_set : gset Z) :
  let st := cal_homo_loop tumor_sample contig_name add_truths
              normal_unified_variant_dict unified_variant_dict tumor_pos_set in
  ∃ positions : list Z,
    reference_cans st = map (cans_line tumor_sample contig_name) positions
    ∧ StronglySorted Z.lt positions
    ∧ (∀ pos, pos ∈ positions
              ↔ pos ∈ tumor_pos_set
                ∧ (pos ∉ unified_variant_dict ∨ add_truths = true))
    ∧ match_count st = Z.of_nat (length positions)
    ∧ pos_in_normal_truth st
      = Z.of_nat (size (tumor_pos_set ∩ normal_unified_variant_dict))
    ∧ pos_in_normal_truth_and_tumor_truth st
      = Z.of_nat (size (tumor_pos_set ∩ normal_unified_variant_dict
                        ∩ unified_variant_dict))
    ∧ pos_in_tumor_truth st
      = Z.of_nat (size (tumor_pos_set ∩ unified_variant_dict))
        + Z.of_nat (size (tumor_pos_set ∩ normal_unified_variant_dict
                          ∩ unified_variant_dict)).
Proof.
  intros st. unfold cal_homo_loop in st.
  set (l := merge_sort (≤) (elements tumor_pos_set)) in *.
  assert (Hnd : NoDup l).
  { unfold l. rewrite merge_sort_Permutation. apply NoDup_elements. }
  assert (Hl : ∀ x, x ∈ l ↔ x ∈ tumor_pos_set).
  { intros x. unfold l. by rewrite merge_sort_Permutation, elem_of_elements. }
  assert (Hs : StronglySorted Z.lt l).
  { assert (Hle : StronglySorted Z.le l)
      by (apply StronglySorted_merge_sort; apply _).
    clear -Hle Hnd. induction Hle as [|x l Hs IH Hall]; [constructor|].
    apply NoDup_cons in Hnd as [Hx Hnd]. constructor; [by apply IH|].
    rewrite Forall_forall in Hall |- *. intros y Hy. specialize (Hall y Hy).
    destruct (decide (x = y)) as [->|]; [done|lia]. }
  destruct (cal_homo_fold l (mkHomo [] 0 0 0 0)) as (H1 & H2 & H3 & H4 & H5).
  cbv zeta in *. fold st in H1, H2, H3, H4, H5.
  cbn [reference_cans match_count pos_in_normal_truth pos_in_tumor_truth
       pos_in_normal_truth_and_tumor_truth] in H1, H2, H3, H4, H5.
  exists (filter (λ pos, pos ∉ unified_variant_dict ∨ add_truths = true) l).
  assert (E1 : filter (λ pos, pos ∈ normal_unified_variant_dict) tumor_pos_set
               = tumor_pos_set ∩ normal_unified_variant_dict)
    by (apply set_eq; intros x; rewrite elem_of_filter; set_solver).
  assert (E2 : filter (λ pos, pos ∈ normal_unified_variant_dict
                              ∧ pos ∈ unified_variant_dict) tumor_pos_set
               = tumor_pos_set ∩ normal_unified_variant_dict ∩ unified_variant_dict)
    by (apply set_eq; intros x; rewrite elem_of_filter; set_solver).
  assert (E3 : filter (λ pos, pos ∈ unified_variant_dict) tumor_pos_set
               = tumor_pos_set ∩ unified_variant_dict)
    by (apply set_eq; intros x; rewrite elem_of_filter; set_solver).
  rewrite <- E2, <- E1, <- E3.
  rewrite <- !(count_size tumor_pos_set _ l Hnd Hl).
  split_and!; [done| | |lia..].
  - by apply StronglySorted_lt_filter.
  - intros pos. rewrite list_elem_of_filter, Hl. tauto.
Qed.
End Loop.

End FilterRefFacts.
